(** * The usage dashboard and admin panel of the proxy console

  A shallow embedding of the data-loading logic of
  [ui/litellm-dashboard/src/components/usage.tsx]: the date-range filler
  of the activity charts, the in-flight request cache, the per-widget
  loading flags, the live spend stream, the mount-time orchestration and
  the local cache of the SSO provider configuration.

  The file first gives the model (one module per component, each
  definition next to the name of the source function it follows), then
  the statements proved about it. *)

From Stdlib Require Import ZArith List String Ascii Bool Lia.
From Stdlib Require QArith.
From stdpp Require Import base option list gmap strings fin_maps.

Set Warnings "-register-all".

Local Open Scope Z_scope.
Local Open Scope string_scope.

(* ===================================================================== *)
(** * Part I: the model                                                   *)
(* ===================================================================== *)

(** ** JavaScript values, objects and completions *)

Module Js.

(** Numbers are carried around but never computed with by the code under
    study; the only test applied to them is truthiness, that is whether
    the number is zero.  A rational is enough for that. *)
Inductive Value : Type :=
| VUndefined
| VNull
| VBool (b : bool)
| VNum (n : QArith_base.Q)
| VStr (s : string)
| VArr (items : list Value)
| VObj (props : list (string * Value))
| VFun (name : string).

(** A plain object: its own properties, in the order in which they are
    enumerated. *)
Definition Obj : Type := list (string * Value).

Definition zero : Value := VNum (QArith_base.Qmake 0 1).
Definition num (z : Z) : Value := VNum (QArith_base.Qmake z 1).

(** ToBoolean. *)
Definition truthy (v : Value) : bool :=
  match v with
  | VUndefined | VNull => false
  | VBool b => b
  | VNum n => negb (Z.eqb (QArith_base.Qnum n) 0)
  | VStr s => negb (String.eqb s "")
  | VArr _ | VObj _ | VFun _ => true
  end.

Fixpoint getOwn (o : Obj) (k : string) : option Value :=
  match o with
  | [] => None
  | (k', v) :: rest => if String.eqb k' k then Some v else getOwn rest k
  end.

(** The value of a string of decimal digits. *)
Fixpoint digitsValue (acc : N) (s : string) : option N :=
  match s with
  | EmptyString => Some acc
  | String c rest =>
      let n := N.of_nat (nat_of_ascii c) in
      if ((48 <=? n) && (n <=? 57))%N then digitsValue (acc * 10 + (n - 48)) rest
      else None
  end.

(** An array index: the canonical decimal text of an integer from 0 to
    2^32 - 2. *)
Definition arrayIndex (k : string) : option N :=
  match k with
  | EmptyString => None
  | String "0" EmptyString => Some 0%N
  | String "0" _ => None
  | _ => match digitsValue 0 k with
         | Some n => if (n <=? 4294967294)%N then Some n else None
         | None => None
         end
  end.

(** The new value of a property that exists: it keeps its place. *)
Fixpoint replaceProp (o : Obj) (k : string) (v : Value) : Obj :=
  match o with
  | [] => []
  | (k', v') :: rest =>
      if String.eqb k' k then (k, v) :: rest else (k', v') :: replaceProp rest k v
  end.

(** The place of a new property named by the array index [n]: after the
    smaller indices that lead the object. *)
Fixpoint placeIndex (n : N) (k : string) (v : Value) (o : Obj) : Obj :=
  match o with
  | [] => [(k, v)]
  | (k', v') :: rest =>
      match arrayIndex k' with
      | Some m => if (m <? n)%N then (k', v') :: placeIndex n k v rest
                  else (k, v) :: o
      | None => (k, v) :: o
      end
  end.

(** [o[k] = v]: a property that exists is overwritten in place; a new
    one is appended, unless its name is an array index: the properties
    named by array indices are enumerated first, in ascending order. *)
Definition setProp (o : Obj) (k : string) (v : Value) : Obj :=
  match getOwn o k with
  | Some _ => replaceProp o k v
  | None =>
      match arrayIndex k with
      | Some n => placeIndex n k v o
      | None => (o ++ [(k, v)])%list
      end
  end.

(** The properties every object literal inherits from [Object.prototype]:
    functions, and [__proto__], which reads as the prototype object.  All
    of them are truthy, which is all the code under study asks of them. *)
Definition objectPrototypeKeys : list string :=
  [ "constructor"; "hasOwnProperty"; "isPrototypeOf"; "propertyIsEnumerable";
    "toLocaleString"; "toString"; "valueOf"; "__proto__";
    "__defineGetter__"; "__defineSetter__"; "__lookupGetter__";
    "__lookupSetter__" ].

Definition inherited (k : string) : bool :=
  existsb (String.eqb k) objectPrototypeKeys.

(** [o[k]] on an object literal: own property first, then the prototype. *)
Definition getProp (o : Obj) (k : string) : Value :=
  match getOwn o k with
  | Some v => v
  | None => if inherited k then VFun k else VUndefined
  end.

(** The truthiness of a prop of type [string | null]. *)
Definition truthyString (o : option string) : bool :=
  match o with
  | Some s => negb (String.eqb s "")
  | None => false
  end.

Inductive Error : Type := TypeError | RangeError | SyntaxError.

(** The completion of a call: a value, a thrown exception, or a loop
    that was cut off by the step budget of the model. *)
Inductive Completion (A : Type) : Type :=
| Returns (a : A)
| Throws (e : Error)
| OutOfFuel.
Arguments Returns {A} a.
Arguments Throws {A} e.
Arguments OutOfFuel {A}.

Definition bind {A B} (c : Completion A) (k : A -> Completion B) : Completion B :=
  match c with
  | Returns a => k a
  | Throws e => Throws e
  | OutOfFuel => OutOfFuel
  end.

(** [xs.map(f)] where [f] may throw: the first exception aborts the map. *)
Fixpoint mapM {A B} (f : A -> Completion B) (xs : list A) : Completion (list B) :=
  match xs with
  | [] => Returns []
  | x :: rest =>
      bind (f x) (fun y => bind (mapM f rest) (fun ys => Returns (y :: ys)))
  end.

End Js.

#[export] Instance completion_ret : MRet Js.Completion := @Js.Returns.
#[export] Instance completion_bind : MBind Js.Completion :=
  fun A B (k : A -> Js.Completion B) c => Js.bind c k.

(** ** Strings *)

Module Str.

(** [s.includes(c)] for a one-character needle. *)
Fixpoint includes (s : string) (c : ascii) : bool :=
  match s with
  | EmptyString => false
  | String c' rest => Ascii.eqb c' c || includes rest c
  end.

Fixpoint split_from (sep : ascii) (cur : string) (s : string) : list string :=
  match s with
  | EmptyString => [cur]
  | String c rest =>
      if Ascii.eqb c sep then cur :: split_from sep "" rest
      else split_from sep (cur ++ String c "") rest
  end.

(** [s.split(sep)] for a one-character separator. *)
Definition split (s : string) (sep : ascii) : list string := split_from sep "" s.

(** The white space [parseInt] skips (the ASCII part of it). *)
Definition isWhiteSpace (c : ascii) : bool :=
  let n := nat_of_ascii c in
  (Nat.eqb n 9 || Nat.eqb n 10 || Nat.eqb n 11 || Nat.eqb n 12
   || Nat.eqb n 13 || Nat.eqb n 32)%bool.

Fixpoint skipWhiteSpace (s : string) : string :=
  match s with
  | String c rest => if isWhiteSpace c then skipWhiteSpace rest else s
  | EmptyString => s
  end.

(** The value of a digit in the given radix, if it is one. *)
Definition digitValue (radix : Z) (c : ascii) : option Z :=
  let n := Z.of_nat (nat_of_ascii c) in
  let v := if ((48 <=? n) && (n <=? 57))%Z then Some (n - 48)
           else if ((97 <=? n) && (n <=? 122))%Z then Some (n - 87)
           else if ((65 <=? n) && (n <=? 90))%Z then Some (n - 55)
           else None in
  match v with
  | Some d => if (d <? radix)%Z then Some d else None
  | None => None
  end.

(** The longest prefix of digits, read most significant first. *)
Fixpoint readDigits (radix : Z) (acc : option Z) (s : string) : option Z :=
  match s with
  | EmptyString => acc
  | String c rest =>
      match digitValue radix c with
      | Some d => readDigits radix (Some (match acc with Some a => a * radix + d | None => d end)) rest
      | None => acc
      end
  end.

(** [parseInt(s)] with no radix argument; [None] is [NaN]. *)
Definition parseInt (s : string) : option Z :=
  let s1 := skipWhiteSpace s in
  let '(sign, s2) :=
    match s1 with
    | String "-" rest => (-1, rest)
    | String "+" rest => (1, rest)
    | _ => (1, s1)
    end in
  let '(radix, s3) :=
    match s2 with
    | String "0" (String "x" rest) => (16, rest)
    | String "0" (String "X" rest) => (16, rest)
    | _ => (10, s2)
    end in
  match readDigits radix None s3 with
  | Some n => Some (sign * n)
  | None => None
  end.

Definition digitChar (d : Z) : ascii := ascii_of_nat (48 + Z.to_nat d).

(** [n] written with exactly [width] decimal digits. *)
Fixpoint padDigits (width : nat) (n : Z) : list ascii :=
  match width with
  | O => []
  | S w => digitChar ((n / 10 ^ Z.of_nat w) mod 10) :: padDigits w n
  end.

End Str.

(** ** Dates

    A [Date] object holds a time value: the milliseconds elapsed since
    1970-01-01T00:00:00Z, an integer of magnitude at most [maxTime].  The
    invalid date [NaN] is [None] where a constructor can produce it. *)

Module JsDate.

Import Js.

Definition msPerDay : Z := 86400000.
Definition maxTime : Z := 8640000000000000.

Definition validTime (t : Z) : Prop := - maxTime <= t <= maxTime.

(** The day numbers of the valid dates. *)
Definition validDay (day : Z) : Prop := - 100000000 <= day <= 100000000.


Definition TimeClip (t : Z) : option Z :=
  if (Z.abs t <=? maxTime)%Z then Some t else None.

(** [Day(t)]: the number of the UTC day that contains [t]. *)
Definition Day (t : Z) : Z := t / msPerDay.

(** The month and the day of the month of the day [doy] (from 0) of a
    year that starts on March 1st. *)
Definition monthDayOfYearDay (doy : Z) : Z * Z :=
  let mp := (5 * doy + 2) / 153 in
  (if (mp <? 10)%Z then mp + 3 else mp - 9, doy - (153 * mp + 2) / 5 + 1).

(** The proleptic Gregorian date of a day number, as
    [(YearFromTime, MonthFromTime + 1, DateFromTime)].  The days are
    counted from March 1st of the year 0 and split into eras of 400
    years, centuries, cycles of four years and years, the leap day being
    the last day of its cycle. *)
Definition civilFromDays (day : Z) : Z * Z * Z :=
  let z := day + 719468 in
  let era := z / 146097 in
  let doe := z mod 146097 in
  let century := Z.min (doe / 36524) 3 in
  let doc := doe - century * 36524 in
  let cycle := doc / 1461 in
  let doq := doc mod 1461 in
  let yearOfCycle := Z.min (doq / 365) 3 in
  let doy := doq - yearOfCycle * 365 in
  let yoe := century * 100 + cycle * 4 + yearOfCycle in
  let '(m, d) := monthDayOfYearDay doy in
  let y := yoe + era * 400 in
  (if (m <=? 2)%Z then y + 1 else y, m, d).

(** The day number of a Gregorian date; [m] ranges over 1..12. *)
Definition daysFromCivil (y m d : Z) : Z :=
  let y' := if (m <=? 2)%Z then y - 1 else y in
  let era := y' / 400 in
  let yoe := y' mod 400 in
  let mp := if (m <=? 2)%Z then m + 9 else m - 3 in
  let doy := (153 * mp + 2) / 5 + d - 1 in
  let doe := yoe * 365 + yoe / 4 - yoe / 100 + doy in
  era * 146097 + doe - 719468.

(** The check that [daysFromCivil] finds the day of the year again. *)
Definition yearDayOk (doy : Z) : bool :=
  let '(m, d) := monthDayOfYearDay doy in
  (1 <=? m)%Z && (m <=? 12)%Z && (1 <=? d)%Z && (d <=? 31)%Z
  && ((153 * (if (m <=? 2)%Z then m + 9 else m - 3) + 2) / 5 + d - 1 =? doy)%Z.

(** A check over a range of consecutive integers. *)
Fixpoint allFrom (n : nat) (z : Z) (P : Z -> bool) : bool :=
  match n with
  | O => true
  | S k => P z && allFrom k (z + 1) P
  end.

(** [MakeDay(year, month, date)]: months outside 0..11 carry into the
    year, days outside the month carry into the neighbouring months. *)
Definition MakeDay (year month date : Z) : Z :=
  let ym := year + month / 12 in
  let mn := month mod 12 in
  daysFromCivil ym (mn + 1) 1 + date - 1.

(** What the code reads from its host: the year of [new Date()], the
    offset of local time from UTC in milliseconds ([LocalTZA(t, isUTC)],
    for an instant [t] when [isUTC] and for a local time otherwise), and
    the month index that the host's legacy date parser gives to
    [new Date(month + " 01 2024").getMonth()], [None] when it answers
    [NaN] (the format is left to the implementation by the language). *)
Record Host : Type := {
  currentYear : Z;
  LocalTZA : Z -> bool -> Z;
  legacyMonth : string -> option Z
}.

Definition LocalTime (h : Host) (t : Z) : Z := t + LocalTZA h t true.
Definition UTC (h : Host) (t : Z) : Z := t - LocalTZA h t false.

(** A zone whose clocks never change. *)
Definition fixedOffset (h : Host) : Prop :=
  exists offset, forall t isUTC, LocalTZA h t isUTC = offset.

Definition monthAbbreviations : list string :=
  [ "Jan"; "Feb"; "Mar"; "Apr"; "May"; "Jun";
    "Jul"; "Aug"; "Sep"; "Oct"; "Nov"; "Dec" ].

Fixpoint indexFrom (i : Z) (s : string) (l : list string) : option Z :=
  match l with
  | [] => None
  | x :: rest => if String.eqb x s then Some i else indexFrom (i + 1) s rest
  end.

(** A host on UTC whose legacy parser reads the English abbreviations of
    the months, in the year [year]. *)
Definition utcHost (year : Z) : Host :=
  {| currentYear := year; LocalTZA := fun _ _ => 0;
     legacyMonth := fun month => indexFrom 0 month monthAbbreviations |}.

(** London in the spring of 2025: the clocks go forward by one hour on
    March 30th at 01:00 UTC. *)
Definition springForward : Z := daysFromCivil 2025 3 30 * msPerDay + 3600000.

Definition londonHost : Host :=
  {| currentYear := 2025;
     LocalTZA := fun t isUTC =>
       if isUTC then (if (t <? springForward)%Z then 0 else 3600000)
       else (if (t <? springForward + 3600000)%Z then 0 else 3600000);
     legacyMonth := fun month => indexFrom 0 month monthAbbreviations |}.

(** A host at the offset [offset] all year round, whose legacy parser
    reads the English abbreviations of the months. *)
Definition zoneHost (year offset : Z) : Host :=
  {| currentYear := year; LocalTZA := fun _ _ => offset;
     legacyMonth := fun month => indexFrom 0 month monthAbbreviations |}.

(** [new Date(year, monthIndex, day)], a local time. *)
Definition newDateLocal (h : Host) (year : Z) (monthIndex day : option Z) : option Z :=
  match monthIndex, day with
  | Some m, Some dt =>
      let yr := if ((0 <=? year) && (year <=? 99))%Z then 1900 + year else year in
      TimeClip (UTC h (MakeDay yr m dt * msPerDay))
  | _, _ => None
  end.

(** The year of an ISO date: four digits from 0 to 9999, a sign and six
    digits otherwise. *)
Definition isoYear (y : Z) : list ascii :=
  if ((0 <=? y) && (y <=? 9999))%Z then Str.padDigits 4 y
  else (if (y <? 0)%Z then "-"%char else "+"%char) :: Str.padDigits 6 (Z.abs y).

Definition isoDateOfDay (day : Z) : string :=
  let '(y, m, d) := civilFromDays day in
  string_of_list_ascii
    (isoYear y ++ "-"%char :: Str.padDigits 2 m ++ "-"%char :: Str.padDigits 2 d)%list.

(** [date.toISOString().split('T')[0]] for a valid date. *)
Definition toISODate (t : Z) : string := isoDateOfDay (Day t).

(** *** The calendar in which the dates are stated *)

Definition isLeapYear (y : Z) : bool :=
  ((y mod 4 =? 0)%Z && negb (y mod 100 =? 0)%Z) || (y mod 400 =? 0)%Z.

(** The number of days of the month [m] (from 1) of the year [y]. *)
Definition daysInMonth (y m : Z) : Z :=
  if (m =? 2)%Z then (if isLeapYear y then 29 else 28)
  else if ((m =? 4) || (m =? 6) || (m =? 9) || (m =? 11))%Z then 30
  else 31.


(** [date.getDate()]: the day of the month, in local time. *)
Definition getDate (h : Host) (t : Z) : Z :=
  let '(_, _, d) := civilFromDays (Day (LocalTime h t)) in d.

(** [date.setDate(dt)]: the day [dt] of the local month of [t], at the
    local time of day of [t]. *)
Definition setDate (h : Host) (t : Z) (dt : Z) : Z :=
  let tl := LocalTime h t in
  let '(y, m, _) := civilFromDays (Day tl) in
  UTC h (MakeDay y (m - 1) dt * msPerDay + tl mod msPerDay).

(** [date.setDate(date.getDate() + 1)] *)
Definition nextDay (h : Host) (t : Z) : Z := setDate h t (getDate h t + 1).

End JsDate.

(** ** DateRangeFiller: [fillMissingDates] *)

Module DateRangeFiller.

Import Js JsDate.

(** The helper [standardizeDate] of [fillMissingDates]. *)
Definition standardizeDate (h : Host) (dateStr : string) : Completion string :=
  if Str.includes dateStr "-" then
    Returns dateStr
  else
    let parts := Str.split dateStr " " in
    let month := nth 0 parts "" in
    let day := parts !! 1%nat in
    let year := currentYear h in
    let monthIndex := legacyMonth h month in
    let fullDate := newDateLocal h year monthIndex (day ≫= Str.parseInt) in
    match fullDate with
    | Some t => Returns (toISODate t)
    | None => Throws RangeError
    end.

(** [item.date] when it is a string, as the rows declare it. *)
Definition itemDate (item : Obj) : Completion string :=
  match getProp item "date" with
  | VStr s => Returns s
  | _ => Throws TypeError
  end.

Definition isHyphen (v : Value) : bool :=
  match v with
  | VStr s => String.eqb s "-"
  | _ => false
  end.

(** One pair of the array given to [new Map], when its key is a string.
    A date that is not a string has no [includes] to call, which throws;
    but an array has one: if it holds the string ["-"] the helper hands
    the array back, and the pair is kept under a key that no lookup by a
    date string finds ([None]); if it does not, [split] is missing. *)
Definition mapEntry (h : Host) (item : Obj) : Completion (option (string * Obj)) :=
  match getProp item "date" with
  | VStr dateStr =>
      standardizedDate ← standardizeDate h dateStr;
      Returns (Some (standardizedDate, setProp item "date" (VStr standardizedDate)))
  | VArr items =>
      if existsb isHyphen items then Returns None else Throws TypeError
  | _ => Throws TypeError
  end.

(** [new Map(pairs)]: a later pair replaces an earlier one with its key. *)
Definition insertPair (m : gmap string Obj) (kv : string * Obj) : gmap string Obj :=
  <[kv.1 := kv.2]> m.

Definition newMap (pairs : list (string * Obj)) : gmap string Obj :=
  foldl insertPair ∅ pairs.

(** The map [existingDates], as far as its string keys go. *)
Definition existingDates (h : Host) (data : list Obj) : Completion (gmap string Obj) :=
  pairs ← mapM (mapEntry h) data;
  Returns (newMap (omap id pairs)).

(** One round of [categories.forEach]:
    [if (!emptyEntry[category]) emptyEntry[category] = 0]. *)
Definition addCategory (emptyEntry : Obj) (category : string) : Obj :=
  if negb (truthy (getProp emptyEntry category))
  then setProp emptyEntry category zero
  else emptyEntry.

(** The entry of a day without data. *)
Definition emptyEntry (dateStr : string) (categories : list string) : Obj :=
  foldl addCategory
        [("date", VStr dateStr); ("api_requests", zero); ("total_tokens", zero)]
        categories.

(** The entry never loses these. *)
Definition entryInv (s : string) (entry : Obj) : Prop :=
  getOwn entry "date" = Some (VStr s)
  /\ getOwn entry "api_requests" = Some zero
  /\ getOwn entry "total_tokens" = Some zero
  /\ (forall k v, getOwn entry k = Some v -> k <> "date" -> v = zero).

Definition entryFor (existing : gmap string Obj) (categories : list string)
    (dateStr : string) : Obj :=
  match existing !! dateStr with
  | Some row => row
  | None => emptyEntry dateStr categories
  end.

(** The [while (currentDate <= endDate)] loop; [fuel] bounds the number of
    iterations the model runs. *)
Fixpoint fillLoop (h : Host) (fuel : nat) (existing : gmap string Obj)
    (endDate : Z) (categories : list string) (currentDate : Z)
    (filledData : list Obj) : Completion (list Obj) :=
  if (currentDate <=? endDate)%Z then
    match fuel with
    | O => OutOfFuel
    | S fuel' =>
        let dateStr := toISODate currentDate in
        fillLoop h fuel' existing endDate categories (nextDay h currentDate)
                 (filledData ++ [entryFor existing categories dateStr])%list
    end
  else Returns filledData.

Definition fillMissingDates (h : Host) (fuel : nat) (data : list Obj)
    (startDate endDate : Z) (categories : list string) : Completion (list Obj) :=
  existing ← existingDates h data;
  fillLoop h fuel existing endDate categories startDate [].

(** *** The notions in which the results of the filler are stated *)

(** The whole days elapsed from [startDate] to [endDate]. *)
Definition days_between (startDate endDate : Z) : Z :=
  (endDate - startDate) / msPerDay.

(** The days of the interval: [startDate] and every later instant a whole
    number of days after it that is not past [endDate]. *)
Definition dayCount (startDate endDate : Z) : nat :=
  Z.to_nat (days_between startDate endDate + 1).

Definition dayOfInterval (startDate : Z) (i : nat) : string :=
  toISODate (startDate + Z.of_nat i * msPerDay).

(** What the loop leaves for [n] days from [startDate] on. *)
Definition denseRows (existing : gmap string Obj) (categories : list string)
    (startDate : Z) (n : nat) : list Obj :=
  map (fun i => entryFor existing categories (dayOfInterval startDate i)) (seq 0 n).

(** The number of times the loop runs from [currentDate] on. *)
Definition iterations (currentDate endDate : Z) : nat :=
  if (currentDate <=? endDate)%Z then dayCount currentDate endDate else 0%nat.


(** [item] has a date string that the helper normalizes to [s]. *)
Definition normalizedDate (h : Host) (item : Obj) (s : string) : Prop :=
  exists dateStr, itemDate item = Returns dateStr
                  /\ standardizeDate h dateStr = Returns s.

(** [row] is [item] with its date replaced by the normalized date. *)
Definition normalizedRow (h : Host) (item row : Obj) : Prop :=
  exists s, normalizedDate h item s /\ row = setProp item "date" (VStr s).

(** Every row has a date that normalizes. *)
Definition wellFormed (h : Host) (rows : list Obj) : Prop :=
  Forall (fun item => exists s, normalizedDate h item s) rows.

Definition noRowOf (h : Host) (rows : list Obj) (s : string) : Prop :=
  Forall (fun item => ~ normalizedDate h item s) rows.

(** [item] is the last row of [rows] whose date normalizes to [s]. *)
Definition lastRowOf (h : Host) (rows : list Obj) (s : string) (item : Obj) : Prop :=
  exists before after,
    rows = (before ++ item :: after)%list
    /\ normalizedDate h item s /\ noRowOf h after s.

(** *** The same notions on the calendar of the user

    The callers hand over local midnights, and the rows are dated by
    calendar day: the statements about the filler name the days of the
    local calendar and the dates that the rows name. *)

(** The zone keeps the offset [offset] while the loop runs from
    [startDate] to [endDate]: at each instant of the interval, and at
    the local time one day later, to which the loop moves on. *)
Definition keepsOffset (h : Host) (offset startDate endDate : Z) : Prop :=
  forall t, startDate <= t <= endDate ->
    LocalTZA h t true = offset
    /\ LocalTZA h (t + offset + msPerDay) false = offset.

(** No clock change from [startDate] until a day after [endDate]. *)
Definition clocksUnchanged (h : Host) (startDate endDate : Z) : Prop :=
  exists offset, keepsOffset h offset startDate endDate.










End DateRangeFiller.

(** ** RequestDeduplicator: [requestCache] and [deduplicatedRequest]

    Promises are named by numbers.  A transition of the model is one task
    of the event loop together with the microtask checkpoint that follows
    it: the settlement of a request promise and the [finally] reaction
    registered on it (the only reaction it has) form one transition. *)

Module RequestDeduplicator.

Import Js.

Definition PromiseId : Type := nat.

Inductive Outcome : Type :=
| Fulfilled (value : Value)
| Rejected (reason : Value).

Inductive PromiseState : Type :=
| Pending
| Settled (o : Outcome).

(** What calling the factory [request()] does: it starts a request and
    hands back its promise, or it throws before starting one. *)
Inductive Factory : Type :=
| StartsRequest
| ThrowsAtOnce (e : Error).

Record CacheState : Type := {
  (** [requestCache.current] *)
  requestCache : gmap string PromiseId;
  (** every promise created so far *)
  promises : gmap PromiseId PromiseState;
  (** the [finally] reaction put on a request promise: the key its
      callback deletes and the promise that [finally] returned *)
  reactions : gmap PromiseId (string * PromiseId);
  (** the keys whose factory has been invoked, the latest first *)
  factoryCalls : list string;
  nextId : PromiseId
}.

Definition init : CacheState :=
  {| requestCache := ∅; promises := ∅; reactions := ∅;
     factoryCalls := []; nextId := 0%nat |}.

(** The body of [deduplicatedRequest(key, request)]: the promise it
    returns (with which the promise of the [async] function is resolved,
    so that the caller sees its settlement), or the exception of the
    factory. *)
Definition deduplicatedRequest (key : string) (request : Factory) (st : CacheState)
    : Completion PromiseId * CacheState :=
  match requestCache st !! key with
  | Some cached => (Returns cached, st)
  | None =>
      match request with
      | ThrowsAtOnce e =>
          (Throws e,
           {| requestCache := requestCache st; promises := promises st;
              reactions := reactions st;
              factoryCalls := key :: factoryCalls st; nextId := nextId st |})
      | StartsRequest =>
          let p := nextId st in
          let promise := S p in
          (Returns promise,
           {| requestCache := <[key := promise]> (requestCache st);
              promises := <[promise := Pending]> (<[p := Pending]> (promises st));
              reactions := <[p := (key, promise)]> (reactions st);
              factoryCalls := key :: factoryCalls st;
              nextId := S (S p) |})
      end
  end.

(** The request promise [p] settles with [o]: its [finally] callback
    deletes the key, then the promise returned by [finally] settles the
    same way.  Settling anything but a pending request changes nothing. *)
Definition settle (p : PromiseId) (o : Outcome) (st : CacheState) : CacheState :=
  match promises st !! p, reactions st !! p with
  | Some Pending, Some (key, promise) =>
      {| requestCache := delete key (requestCache st);
         promises := <[promise := Settled o]> (<[p := Settled o]> (promises st));
         reactions := reactions st;
         factoryCalls := factoryCalls st;
         nextId := nextId st |}
  | _, _ => st
  end.

Inductive Event : Type :=
| Call (key : string) (request : Factory)
| Settle (p : PromiseId) (o : Outcome).

Definition step (st : CacheState) (e : Event) : CacheState :=
  match e with
  | Call key request => (deduplicatedRequest key request st).2
  | Settle p o => settle p o st
  end.

Definition run (events : list Event) : CacheState := foldl step init events.

(** A request for [key] is outstanding: started by the factory and not
    settled yet. *)
Definition outstanding (st : CacheState) (key : string) (p : PromiseId) : Prop :=
  (exists promise, reactions st !! p = Some (key, promise))
  /\ promises st !! p = Some Pending.

(** What every state reached from [init] satisfies. *)
Record consistent (st : CacheState) : Prop := {
  (** a cached promise is the [finally] of an outstanding request *)
  cached_outstanding :
    forall key promise, requestCache st !! key = Some promise ->
      exists p, reactions st !! p = Some (key, promise)
                /\ promises st !! p = Some Pending;
  (** an outstanding request is cached under its key *)
  outstanding_cached :
    forall p key promise, reactions st !! p = Some (key, promise) ->
      promises st !! p = Some Pending ->
      requestCache st !! key = Some promise;
  (** the promise of [finally] is created right after the request's *)
  reaction_ids :
    forall p key promise, reactions st !! p = Some (key, promise) ->
      promise = S p /\ (S p < nextId st)%nat;
  (** the promise of [finally] is not itself a request *)
  reaction_target :
    forall p key promise, reactions st !! p = Some (key, promise) ->
      reactions st !! promise = None;
  (** the promise of [finally] settles as the request does *)
  reaction_state :
    forall p key promise, reactions st !! p = Some (key, promise) ->
      promises st !! promise = promises st !! p
}.

End RequestDeduplicator.

(** ** LiveSpendStream: [connectToSpendStream] and the unmount cleanup

    Time is the clock of the timers, in milliseconds. *)

Module LiveSpendStream.

Import Js.

Definition SourceId : Type := nat.

Record StreamState : Type := {
  accessToken : option string;
  (** [eventSourceRef.current] *)
  eventSourceRef : option SourceId;
  (** every [EventSource] created so far, with whether it is still open
      (not closed by [close()]) *)
  sources : list (SourceId * bool);
  (** the due times of the pending [setTimeout] callbacks, which all are
      [() => { if (accessToken) connectToSpendStream(); }] *)
  timers : list Z;
  now : Z;
  isStreamConnected : bool;
  totalMonthlySpend : Value;
  mounted : bool
}.

Definition mountState (token : option string) : StreamState :=
  {| accessToken := token; eventSourceRef := None; sources := [];
     timers := []; now := 0; isStreamConnected := false;
     totalMonthlySpend := zero; mounted := true |}.

Definition closeSource (id : SourceId) (l : list (SourceId * bool)) : list (SourceId * bool) :=
  map (fun s => if Nat.eqb s.1 id then (s.1, false) else s) l.

Definition reconnectDelay : Z := 5000.

(** [connectToSpendStream()] *)
Definition connectToSpendStream (st : StreamState) : StreamState :=
  if negb (truthyString (accessToken st)) || bool_decide (is_Some (eventSourceRef st))
  then st
  else
    let eventSource := length (sources st) in
    {| accessToken := accessToken st;
       eventSourceRef := Some eventSource;
       sources := (sources st ++ [(eventSource, true)])%list;
       timers := timers st; now := now st;
       isStreamConnected := isStreamConnected st;
       totalMonthlySpend := totalMonthlySpend st;
       mounted := mounted st |}.

(** [eventSource.onopen] *)
Definition onopen (st : StreamState) : StreamState :=
  {| accessToken := accessToken st; eventSourceRef := eventSourceRef st;
     sources := sources st; timers := timers st; now := now st;
     isStreamConnected := true;
     totalMonthlySpend := totalMonthlySpend st; mounted := mounted st |}.

(** [eventSource.onerror], for the source the handler was attached to. *)
Definition onerror (eventSource : SourceId) (st : StreamState) : StreamState :=
  {| accessToken := accessToken st;
     eventSourceRef := None;
     sources := closeSource eventSource (sources st);
     timers := (timers st ++ [now st + reconnectDelay])%list;
     now := now st;
     isStreamConnected := false;
     totalMonthlySpend := totalMonthlySpend st; mounted := mounted st |}.

(** The cleanup of the effect, run when the view unmounts. *)
Definition cleanup (st : StreamState) : StreamState :=
  match eventSourceRef st with
  | Some current =>
      {| accessToken := accessToken st; eventSourceRef := None;
         sources := closeSource current (sources st);
         timers := timers st; now := now st;
         isStreamConnected := isStreamConnected st;
         totalMonthlySpend := totalMonthlySpend st; mounted := false |}
  | None =>
      {| accessToken := accessToken st; eventSourceRef := None;
         sources := sources st; timers := timers st; now := now st;
         isStreamConnected := isStreamConnected st;
         totalMonthlySpend := totalMonthlySpend st; mounted := false |}
  end.

(** The callback given to [setTimeout]. *)
Definition timerCallback (st : StreamState) : StreamState :=
  if truthyString (accessToken st) then connectToSpendStream st else st.

Definition setClock (t : Z) (pending : list Z) (st : StreamState) : StreamState :=
  {| accessToken := accessToken st; eventSourceRef := eventSourceRef st;
     sources := sources st; timers := pending; now := t;
     isStreamConnected := isStreamConnected st;
     totalMonthlySpend := totalMonthlySpend st; mounted := mounted st |}.

(** The clock advances to [t]: the timers that are due run, in the order
    in which they were set. *)
Definition advanceTo (t : Z) (st : StreamState) : StreamState :=
  let due := filter (fun d => d <= t) (timers st) in
  let pending := filter (fun d => ~ d <= t) (timers st) in
  foldl (fun s _ => timerCallback s) (setClock t pending st) due.

(** The sources that are open. *)
Definition openSources (st : StreamState) : list SourceId :=
  map fst (filter (fun s => s.2 = true) (sources st)).






End LiveSpendStream.

(** ** ComponentLoadingTracker and DashboardOrchestrator *)

Module Dashboard.

Import Js.

(** The keys of [componentLoading]. *)
Inductive Widget : Type :=
| monthlySpend | monthlyChart | topKeys | topModels | globalActivity
| globalActivityPerModel | teamSpend | topTags | topEndUsers | providerSpend
| tagNames | dailySummary | totalRequests | successfulRequests
| failedRequests | totalTokens | totalSpendMetric | averageCostPerRequest
| teamTotalRequests | teamSuccessfulRequests | teamFailedRequests
| teamTotalTokens | teamTotalSpendMetric | teamAverageCostPerRequest
| tagTotalRequests | tagSuccessfulRequests | tagFailedRequests
| tagTotalTokens | tagTotalSpendMetric | tagAverageCostPerRequest.

#[export] Instance Widget_eq_dec : EqDecision Widget.
Proof. solve_decision. Defined.

Definition allWidgets : list Widget :=
  [ monthlySpend; monthlyChart; topKeys; topModels; globalActivity;
    globalActivityPerModel; teamSpend; topTags; topEndUsers; providerSpend;
    tagNames; dailySummary; totalRequests; successfulRequests;
    failedRequests; totalTokens; totalSpendMetric; averageCostPerRequest;
    teamTotalRequests; teamSuccessfulRequests; teamFailedRequests;
    teamTotalTokens; teamTotalSpendMetric; teamAverageCostPerRequest;
    tagTotalRequests; tagSuccessfulRequests; tagFailedRequests;
    tagTotalTokens; tagTotalSpendMetric; tagAverageCostPerRequest ].

(** [componentLoading]: [true] while the widget is loading. *)
Definition LoadingMap : Type := Widget -> bool.

Definition initialLoading : LoadingMap := fun _ => true.

(** [markComponentLoaded(component)] *)
Definition markComponentLoaded (component : Widget) (prev : LoadingMap) : LoadingMap :=
  fun w => if decide (w = component) then false else prev w.

(** The progress line: [loadedComponents] and [totalComponents]. *)
Definition loadedComponents (m : LoadingMap) : nat :=
  length (filter (fun w => m w = false) allWidgets).
Definition totalComponents : nat := length allWidgets.

(** The calls of [./networking] that the page makes. *)
Inductive Endpoint : Type :=
| getProxyUISettings
| fetchDashboardSummary | adminTopKeysCall | adminTopModelsCall
| fetchActivitySummary | adminGlobalActivityPerModel | adminspendByProvider
| teamSpendLogsCall
| fetchTeamTotalRequests | fetchTeamSuccessfulRequests | fetchTeamFailedRequests
| fetchTeamTotalTokens | fetchTeamTotalSpend | fetchTeamAverageCostPerRequest
| fetchTagTotalRequests | fetchTagSuccessfulRequests | fetchTagFailedRequests
| fetchTagTotalTokens | fetchTagTotalSpend | fetchTagAverageCostPerRequest
| allTagNamesCall | tagsSpendLogsCall | adminTopEndUsersCall.

#[export] Instance Endpoint_eq_dec : EqDecision Endpoint.
Proof. solve_decision. Defined.

(** Everything but the settings call is a metric fetch. *)
Definition isMetricFetch (e : Endpoint) : bool :=
  match e with getProxyUISettings => false | _ => true end.

(** The team, tag and customer breakdowns. *)
Definition isAdminBreakdown (e : Endpoint) : bool :=
  match e with
  | teamSpendLogsCall
  | fetchTeamTotalRequests | fetchTeamSuccessfulRequests | fetchTeamFailedRequests
  | fetchTeamTotalTokens | fetchTeamTotalSpend | fetchTeamAverageCostPerRequest
  | fetchTagTotalRequests | fetchTagSuccessfulRequests | fetchTagFailedRequests
  | fetchTagTotalTokens | fetchTagTotalSpend | fetchTagAverageCostPerRequest
  | allTagNamesCall | tagsSpendLogsCall | adminTopEndUsersCall => true
  | _ => false
  end.

(** How a backend call ends.  An exception raised while the response is
    processed inside the same [try] block ends in the same [catch]. *)
Inductive CallOutcome : Type := Resolved | Failed.

(** One backend call of a fetch function: the endpoint, the key under
    which it goes through [deduplicatedRequest] (if it does), and the
    widgets that the code following the call marks as loaded. *)
Record Task : Type := {
  endpoint : Endpoint;
  dedupKey : option string;
  marks : CallOutcome -> list Widget
}.

Record ProxySettings : Type := {
  DISABLE_EXPENSIVE_DB_QUERIES : bool;
  NUM_SPEND_LOGS_ROWS : Z
}.

Record Props : Type := {
  accessToken : option string;
  token : option string;
  userRole : option string;
  userID : option string
}.

(** [isAdminOrAdminViewer(role)] *)
Definition isAdminOrAdminViewer (role : option string) : bool :=
  match role with
  | None => false
  | Some r => String.eqb r "Admin" || String.eqb r "Admin Viewer"
  end.

(** *** The fetch functions: the calls each one makes when invoked *)

Definition fetchOverallSpend (p : Props) : list Task :=
  if negb (truthyString (accessToken p)) then [] else
  [ {| endpoint := fetchDashboardSummary; dedupKey := Some "dashboardSummary";
       marks := fun o => match o with
                         | Resolved => [monthlySpend; monthlyChart]
                         | Failed => [monthlySpend; monthlyChart]
                         end |} ].

Definition fetchTopKeys (p : Props) : list Task :=
  if negb (truthyString (accessToken p)) then [] else
  [ {| endpoint := adminTopKeysCall; dedupKey := Some "adminTopKeysCall";
       marks := fun o => match o with
                         | Resolved => [topKeys]
                         | Failed => [topKeys]
                         end |} ].

Definition fetchTopModels (p : Props) : list Task :=
  if negb (truthyString (accessToken p)) then [] else
  [ {| endpoint := adminTopModelsCall; dedupKey := Some "adminTopModelsCall";
       marks := fun o => match o with
                         | Resolved => [topModels]
                         | Failed => [topModels]
                         end |} ].

Definition fetchGlobalActivity (p : Props) : list Task :=
  if negb (truthyString (accessToken p)) then [] else
  [ {| endpoint := fetchActivitySummary; dedupKey := Some "activitySummary";
       marks := fun o => match o with
                         | Resolved => [globalActivity]
                         | Failed => [globalActivity]
                         end |} ].

(** Neither the [try] block nor the [catch] block of this one calls
    [markComponentLoaded]. *)
Definition fetchGlobalActivityPerModel (p : Props) : list Task :=
  if negb (truthyString (accessToken p)) then [] else
  [ {| endpoint := adminGlobalActivityPerModel; dedupKey := None;
       marks := fun o => match o with
                         | Resolved => []
                         | Failed => []
                         end |} ].

Definition fetchTeamSpend (p : Props) : list Task :=
  if negb (truthyString (accessToken p)) then [] else
  [ {| endpoint := teamSpendLogsCall; dedupKey := Some "teamSpendLogs";
       marks := fun o => match o with
                         | Resolved => [teamSpend]
                         | Failed => [teamSpend]
                         end |} ].

(** A metric card: [deduplicatedRequest(key, ...).then(...).catch(...)],
    both handlers ending in [markComponentLoaded(key)]. *)
Definition metricCard (e : Endpoint) (key : string) (w : Widget) : Task :=
  {| endpoint := e; dedupKey := Some key;
     marks := fun o => match o with
                       | Resolved => [w]
                       | Failed => [w]
                       end |}.

Definition fetchTeamIndividualMetrics (p : Props) : list Task :=
  if negb (truthyString (accessToken p)) then [] else
  [ metricCard fetchTeamTotalRequests "teamTotalRequests" teamTotalRequests;
    metricCard fetchTeamSuccessfulRequests "teamSuccessfulRequests" teamSuccessfulRequests;
    metricCard fetchTeamFailedRequests "teamFailedRequests" teamFailedRequests;
    metricCard fetchTeamTotalTokens "teamTotalTokens" teamTotalTokens;
    metricCard fetchTeamTotalSpend "teamTotalSpendMetric" teamTotalSpendMetric;
    metricCard fetchTeamAverageCostPerRequest "teamAverageCostPerRequest"
               teamAverageCostPerRequest ].

Definition fetchTagIndividualMetrics (p : Props) : list Task :=
  if negb (truthyString (accessToken p)) then [] else
  [ metricCard fetchTagTotalRequests "tagTotalRequests" tagTotalRequests;
    metricCard fetchTagSuccessfulRequests "tagSuccessfulRequests" tagSuccessfulRequests;
    metricCard fetchTagFailedRequests "tagFailedRequests" tagFailedRequests;
    metricCard fetchTagTotalTokens "tagTotalTokens" tagTotalTokens;
    metricCard fetchTagTotalSpend "tagTotalSpendMetric" tagTotalSpendMetric;
    metricCard fetchTagAverageCostPerRequest "tagAverageCostPerRequest"
               tagAverageCostPerRequest ].

(** [fetchAndSetData(fetchFunction, setStateFunction, errorMessage)]: it
    sets the state or logs the error, and marks nothing. *)
Definition fetchAndSetData (e : Endpoint) : Task :=
  {| endpoint := e; dedupKey := None;
     marks := fun o => match o with
                       | Resolved => []
                       | Failed => []
                       end |}.

Definition fetchTagNames (p : Props) : list Task :=
  if negb (truthyString (accessToken p)) then [] else [fetchAndSetData allTagNamesCall].

Definition fetchTopTags (p : Props) : list Task :=
  if negb (truthyString (accessToken p)) then [] else [fetchAndSetData tagsSpendLogsCall].

Definition fetchTopEndUsers (p : Props) : list Task :=
  if negb (truthyString (accessToken p)) then [] else [fetchAndSetData adminTopEndUsersCall].

(** Without both tokens the fetch function rejects at once and no call is
    made. *)
Definition fetchProviderSpend (p : Props) : list Task :=
  if truthyString (accessToken p) && truthyString (token p)
  then [fetchAndSetData adminspendByProvider] else [].

(** The functions called to fill the array [allDataPromises]. *)
Inductive FetchFunction : Type :=
| FetchOverallSpend | FetchTopKeys | FetchTopModels | FetchGlobalActivity
| FetchGlobalActivityPerModel
| FetchTeamSpend | FetchTeamIndividualMetrics | FetchTagIndividualMetrics
| FetchTagNames | FetchTopTags | FetchTopEndUsers
| FetchProviderSpend.

(** The backend calls that the function starts before it returns. *)
Definition callsOf (p : Props) (f : FetchFunction) : list Task :=
  match f with
  | FetchOverallSpend => fetchOverallSpend p
  | FetchTopKeys => fetchTopKeys p
  | FetchTopModels => fetchTopModels p
  | FetchGlobalActivity => fetchGlobalActivity p
  | FetchGlobalActivityPerModel => fetchGlobalActivityPerModel p
  | FetchTeamSpend => fetchTeamSpend p
  | FetchTeamIndividualMetrics => fetchTeamIndividualMetrics p
  | FetchTagIndividualMetrics => fetchTagIndividualMetrics p
  | FetchTagNames => fetchTagNames p
  | FetchTopTags => fetchTopTags p
  | FetchTopEndUsers => fetchTopEndUsers p
  | FetchProviderSpend => fetchProviderSpend p
  end.

(** What a call of the function evaluates to: a promise, or
    [undefined]. *)
Inductive Handle : Type := APromise | Undefined.

(** The [async] functions return a promise, and so does
    [fetchProviderSpend], whose concise body is the call of
    [fetchAndSetData]; [fetchTagNames], [fetchTopTags] and
    [fetchTopEndUsers] have a block body that calls [fetchAndSetData]
    without returning its promise. *)
Definition handleOf (f : FetchFunction) : Handle :=
  match f with
  | FetchTagNames | FetchTopTags | FetchTopEndUsers => Undefined
  | _ => APromise
  end.

(** [promise.catch(...)] *)
Definition attachCatch (h : Handle) : Completion unit :=
  match h with
  | APromise => Returns tt
  | Undefined => Throws TypeError
  end.

(** [allDataPromises.forEach(promise => { promise.catch(...) })] *)
Definition forEachCatch (hs : list Handle) : Completion unit :=
  _ ← mapM attachCatch hs; Returns tt.

(** *** The state of the page *)

Record PageState : Type := {
  proxySettings : option ProxySettings;
  componentLoading : LoadingMap;
  (** the backend calls issued so far, the oldest first *)
  requests : list Endpoint;
  (** the keys of [requestCache] *)
  cacheKeys : list string;
  (** the calls whose handlers have not run yet *)
  awaiting : list Task;
  stream : LiveSpendStream.StreamState
}.

Definition initialPage (p : Props) : PageState :=
  {| proxySettings := None; componentLoading := initialLoading;
     requests := []; cacheKeys := []; awaiting := [];
     stream := LiveSpendStream.mountState (accessToken p) |}.

Definition issue (e : Endpoint) (st : PageState) : PageState :=
  {| proxySettings := proxySettings st; componentLoading := componentLoading st;
     requests := (requests st ++ [e])%list; cacheKeys := cacheKeys st;
     awaiting := awaiting st; stream := stream st |}.

(** A fetch function starts one of its calls: directly, or through
    [deduplicatedRequest], which makes no call while the key is cached. *)
Definition launch (st : PageState) (t : Task) : PageState :=
  let cached := match dedupKey t with
                | Some k => existsb (String.eqb k) (cacheKeys st)
                | None => false
                end in
  {| proxySettings := proxySettings st; componentLoading := componentLoading st;
     requests := if cached then requests st else (requests st ++ [endpoint t])%list;
     cacheKeys := match dedupKey t with
                  | Some k => if cached then cacheKeys st else k :: cacheKeys st
                  | None => cacheKeys st
                  end;
     awaiting := (awaiting st ++ [t])%list; stream := stream st |}.

Definition guarded (s : option ProxySettings) : bool :=
  match s with
  | Some ps => DISABLE_EXPENSIVE_DB_QUERIES ps
  | None => false
  end.

(** A call that is awaited on its own: what follows it sets a piece of
    state and marks nothing, and nothing catches its failure. *)
Definition awaitedCall (e : Endpoint) : Task :=
  {| endpoint := e; dedupKey := None;
     marks := fun o => match o with
                       | Resolved => []
                       | Failed => []
                       end |}.

Definition setProxySettings (ps : ProxySettings) (st : PageState) : PageState :=
  {| proxySettings := Some ps; componentLoading := componentLoading st;
     requests := requests st; cacheKeys := cacheKeys st;
     awaiting := awaiting st; stream := stream st |}.

Definition connectStream (st : PageState) : PageState :=
  {| proxySettings := proxySettings st; componentLoading := componentLoading st;
     requests := requests st; cacheKeys := cacheKeys st;
     awaiting := awaiting st;
     stream := LiveSpendStream.connectToSpendStream (stream st) |}.

(** An [async] function of the page, run as far as it goes at once: to
    its end, to the [await] of the answer to its settings call, or to an
    [await] of a value that is there already, after which it goes on in
    a microtask.  What is left of the function acts on the state it
    finds when it goes on. *)
Inductive Run : Type :=
| Finished (st : PageState)
| AwaitsSettings (st : PageState)
                 (resume : option ProxySettings -> PageState -> PageState)
| GoesOn (st : PageState) (resume : PageState -> PageState).

(** [await fetchProxySettings()], followed by [continue]: with a token
    the settings are asked for, and the caller goes on with the answer,
    or with [undefined] ([None]) when the call fails; without a token it
    goes on with [undefined] and no call is made. *)
Definition fetchProxySettings (p : Props) (st : PageState)
    (continue : option ProxySettings -> PageState -> PageState) : Run :=
  if truthyString (accessToken p)
  then AwaitsSettings (issue getProxyUISettings st) continue
  else GoesOn st (continue None).

(** [updateTagSpendData(startTime, endTime)] *)
Definition updateTagSpendData (p : Props) (startTime endTime : option Z)
    (st : PageState) : Run :=
  if negb (bool_decide (is_Some startTime)) || negb (bool_decide (is_Some endTime))
     || negb (truthyString (accessToken p))
  then Finished st
  else
    fetchProxySettings p st (fun proxy_settings st1 =>
      if guarded proxy_settings then st1
      else launch st1 (awaitedCall tagsSpendLogsCall)).

(** The element expressions of the array [allDataPromises], in order. *)
Definition dataFetches (p : Props) : list FetchFunction :=
  ([ FetchOverallSpend; FetchTopKeys; FetchTopModels; FetchGlobalActivity;
     FetchGlobalActivityPerModel ]
   ++ (if isAdminOrAdminViewer (userRole p)
       then [ FetchTeamSpend; FetchTeamIndividualMetrics; FetchTagIndividualMetrics;
              FetchTagNames; FetchTopTags; FetchTopEndUsers ]
       else [])
   ++ [ FetchProviderSpend ])%list.

(** The backend calls started while the array [allDataPromises] is
    built. *)
Definition allDataPromises (p : Props) : list Task :=
  flat_map (callsOf p) (dataFetches p).

(** [initlizeUsageData()].  An exception of the [forEach] ends the
    function, whose promise nothing awaits: what follows the loop is not
    run. *)
Definition initlizeUsageData (p : Props) (st : PageState) : Run :=
  if truthyString (accessToken p) && truthyString (token p)
     && truthyString (userRole p) && truthyString (userID p)
  then
    fetchProxySettings p st (fun proxy_settings st1 =>
      let st2 := match proxy_settings with
                 | Some ps => setProxySettings ps st1
                 | None => st1
                 end in
      if guarded proxy_settings then st2
      else
        let st3 := foldl launch st2 (allDataPromises p) in
        match forEachCatch (map handleOf (dataFetches p)) with
        | Returns _ => connectStream st3
        | _ => st3
        end)
  else Finished st.

(** The state in which the function stops for the first time. *)
Definition stateOf (r : Run) : PageState :=
  match r with
  | Finished st | AwaitsSettings st _ | GoesOn st _ => st
  end.

(** The microtask of a function that waits for no answer. *)
Definition microtask (r : Run) (st : PageState) : PageState :=
  match r with
  | GoesOn _ resume => resume st
  | _ => st
  end.

(** The answer to the settings call of a function arrives: [None] when
    the call fails. *)
Definition answer (r : Run) (response : option ProxySettings) (st : PageState)
    : PageState :=
  match r with
  | AwaitsSettings _ resume => resume response st
  | _ => st
  end.

(** The function run on its own to its end. *)
Definition complete (r : Run) (response : option ProxySettings) : PageState :=
  answer r response (microtask r (stateOf r)).

(** Which of the two settings calls of the mount is answered first. *)
Inductive Arrival : Type := TagSettingsFirst | InitSettingsFirst.

(** Mounting the page runs its effects in the order of their
    declaration: the one on [dateValue, selectedTags], which calls
    [updateTagSpendData] with the initial date range, and the one that
    calls [initlizeUsageData].  Each runs up to its [await]; then the
    answers to the settings calls arrive, [tagSettings] for the first
    effect and [initSettings] for the second, in the order [arrival].
    The page renders at all only where [proxyBaseUrl], which the file
    reads without declaring it, is bound as a global: the model takes
    that for granted. *)
Definition mount (p : Props) (dateFrom dateTo : option Z)
    (tagSettings initSettings : option ProxySettings) (arrival : Arrival)
    : PageState :=
  let tagRun := updateTagSpendData p dateFrom dateTo (initialPage p) in
  let initRun := initlizeUsageData p (stateOf tagRun) in
  let st := microtask initRun (microtask tagRun (stateOf initRun)) in
  match arrival with
  | TagSettingsFirst => answer initRun initSettings (answer tagRun tagSettings st)
  | InitSettingsFirst => answer tagRun tagSettings (answer initRun initSettings st)
  end.


(** The handlers of an awaited call run. *)
Definition settleTask (outcome : Endpoint -> CallOutcome) (m : LoadingMap) (t : Task)
    : LoadingMap :=
  foldl (fun m' w => markComponentLoaded w m') m (marks t (outcome (endpoint t))).

(** Every awaited call has settled. *)
Definition settleAll (outcome : Endpoint -> CallOutcome) (st : PageState) : PageState :=
  {| proxySettings := proxySettings st;
     componentLoading := foldl (settleTask outcome) (componentLoading st) (awaiting st);
     requests := requests st; cacheKeys := []; awaiting := [];
     stream := stream st |}.

(** What the component returns. *)
Inductive View : Type :=
| LimitNotice (rows : Z)
| Widgets (loading : LoadingMap).

Definition render (st : PageState) : View :=
  match proxySettings st with
  | Some ps =>
      if DISABLE_EXPENSIVE_DB_QUERIES ps then LimitNotice (NUM_SPEND_LOGS_ROWS ps)
      else Widgets (componentLoading st)
  | None => Widgets (componentLoading st)
  end.

(** The widgets that no fetch function marks, on any path. *)
Definition neverMarked : list Widget :=
  [ globalActivityPerModel; providerSpend; tagNames; topTags; topEndUsers;
    dailySummary; totalRequests; successfulRequests; failedRequests;
    totalTokens; totalSpendMetric; averageCostPerRequest ].

(** Settings without the guard, and with it. *)
Definition unguardedSettings : ProxySettings :=
  {| DISABLE_EXPENSIVE_DB_QUERIES := false; NUM_SPEND_LOGS_ROWS := 1000 |}.
Definition guardedSettings : ProxySettings :=
  {| DISABLE_EXPENSIVE_DB_QUERIES := true; NUM_SPEND_LOGS_ROWS := 2000000 |}.

(** An administrator and an internal user, both signed in. *)
Definition adminProps : Props :=
  {| accessToken := Some "sk-1"; token := Some "jwt";
     userRole := Some "Admin"; userID := Some "u1" |}.
Definition internalUserProps : Props :=
  {| accessToken := Some "sk-1"; token := Some "jwt";
     userRole := Some "Internal User"; userID := Some "u2" |}.

End Dashboard.

(** ** The admin panel: the local copy of the SSO provider configuration *)

Module SSOConfig.

Import Js.

(** The one key of [localStorage] that the admin panel uses. *)
Definition storageKey : string := "litellm_sso_config".

(** [JSON.stringify] and [JSON.parse] of the host. *)
Record Json : Type := {
  stringify : Value -> string;
  parse : string -> Completion Value
}.

Inductive StorageOp : Type :=
| GetItem (key : string)
| SetItem (key : string) (value : string)
| RemoveItem (key : string).

Record PanelState : Type := {
  ssoConfig : Value;
  isSSOConfigLoaded : bool;
  localStorage : gmap string string;
  (** the accesses to [localStorage], the oldest first *)
  storageLog : list StorageOp;
  (** the configuration the form of the modal was pre-filled from *)
  formPrefill : option Value
}.

Definition initialPanel (storage : gmap string string) : PanelState :=
  {| ssoConfig := VNull; isSSOConfigLoaded := false; localStorage := storage;
     storageLog := []; formPrefill := None |}.

Definition setSSOConfig (v : Value) (st : PanelState) : PanelState :=
  {| ssoConfig := v; isSSOConfigLoaded := isSSOConfigLoaded st;
     localStorage := localStorage st; storageLog := storageLog st;
     formPrefill := formPrefill st |}.

Definition setIsSSOConfigLoaded (b : bool) (st : PanelState) : PanelState :=
  {| ssoConfig := ssoConfig st; isSSOConfigLoaded := b;
     localStorage := localStorage st; storageLog := storageLog st;
     formPrefill := formPrefill st |}.


(** [localStorage.getItem(key)] *)
Definition getItem (key : string) (st : PanelState) : option string * PanelState :=
  (localStorage st !! key,
   {| ssoConfig := ssoConfig st; isSSOConfigLoaded := isSSOConfigLoaded st;
      localStorage := localStorage st;
      storageLog := (storageLog st ++ [GetItem key])%list;
      formPrefill := formPrefill st |}).

(** [localStorage.setItem(key, value)] *)
Definition setItem (key value : string) (st : PanelState) : PanelState :=
  {| ssoConfig := ssoConfig st; isSSOConfigLoaded := isSSOConfigLoaded st;
     localStorage := <[key := value]> (localStorage st);
     storageLog := (storageLog st ++ [SetItem key value])%list;
     formPrefill := formPrefill st |}.

(** [localStorage.removeItem(key)] *)
Definition removeItem (key : string) (st : PanelState) : PanelState :=
  {| ssoConfig := ssoConfig st; isSSOConfigLoaded := isSSOConfigLoaded st;
     localStorage := delete key (localStorage st);
     storageLog := (storageLog st ++ [RemoveItem key])%list;
     formPrefill := formPrefill st |}.

(** A host whose JSON text of a configuration is the name of its
    provider, enough to run the panel on examples. *)
Definition providerJson : Json :=
  {| stringify := fun v =>
       match v with
       | VObj [("sso_provider", VStr name)] => name
       | _ => ""
       end;
     parse := fun text =>
       if String.eqb text "" then Throws SyntaxError
       else Returns (VObj [("sso_provider", VStr text)]) |}.

(** How a call to the backend ends. *)
Inductive Reply : Type :=
| CallFails
| Answers (response : Value).

(** [v?.k] *)
Definition optMember (v : Value) (k : string) : Value :=
  match v with
  | VObj props => getProp props k
  | _ => VUndefined
  end.

Definition truthyItem (o : option string) : bool :=
  match o with
  | Some s => negb (String.eqb s "")
  | None => false
  end.

(** The block that restores the stored configuration:
    [if (storedConfig) { try { setSSOConfig(JSON.parse(storedConfig)) }
    catch { localStorage.removeItem(key) } }], followed by [otherwise] when
    nothing is stored. *)
Definition restoreStored (J : Json) (otherwise : PanelState -> PanelState) (st : PanelState) : PanelState :=
  let '(storedConfig, st1) := getItem storageKey st in
  match storedConfig with
  | Some stored =>
      if truthyItem storedConfig then
        match parse J stored with
        | Returns parsedConfig => setSSOConfig parsedConfig st1
        | _ => removeItem storageKey st1
        end
      else otherwise st1
  | None => otherwise st1
  end.

(** [fetchSSOConfig()], the effect run when the panel mounts; [reply] is
    how [getSSOProviderConfig(accessToken)] ends. *)
Definition fetchSSOConfig (J : Json) (accessToken : option string) (reply : Reply)
    (st : PanelState) : PanelState :=
  match accessToken with
  | Some _ =>
      match reply with
      | Answers response =>
          let config := optMember response "config" in
          if truthy config then
            setItem storageKey (stringify J config)
              (setIsSSOConfigLoaded true (setSSOConfig config st))
          else
            setIsSSOConfigLoaded true
              (setSSOConfig VNull (restoreStored J (fun s => s) st))
      | CallFails =>
          setIsSSOConfigLoaded true (restoreStored J (setSSOConfig VNull) st)
      end
  | None =>
      setIsSSOConfigLoaded true (restoreStored J (fun s => s) st)
  end.

Definition isSuccess (v : Value) : bool :=
  match v with
  | VStr s => String.eqb s "success"
  | _ => false
  end.

(** [handleSSOUpdate(formValues)]; [update] is how
    [updateSSOProviderConfig] ends and [refresh] how the
    [getSSOProviderConfig] that follows a successful update ends. *)
Definition handleSSOUpdate (J : Json) (accessToken : option string)
    (update refresh : Reply) (st : PanelState) : PanelState :=
  match accessToken with
  | None => st
  | Some _ =>
      match update with
      | CallFails => st
      | Answers response =>
          if isSuccess (optMember response "status") then
            match refresh with
            | CallFails => st
            | Answers updatedConfig =>
                let config := optMember updatedConfig "config" in
                if truthy config then
                  setItem storageKey (stringify J config) (setSSOConfig config st)
                else st
            end
          else st
      end
  end.



(** *** The notions in which the use of the cache is stated *)



Definition isRead (op : StorageOp) : bool :=
  match op with GetItem _ => true | _ => false end.

(** The configuration in the answer of the backend, if any. *)
Definition configOf (reply : Reply) : Value :=
  match reply with
  | Answers response => optMember response "config"
  | CallFails => VUndefined
  end.

(** The backend was called and answered with a configuration. *)
Definition gaveConfig (accessToken : option string) (reply : Reply) : bool :=
  match accessToken with
  | Some _ => truthy (configOf reply)
  | None => false
  end.

(** The update was accepted by the backend. *)
Definition accepted (update : Reply) : bool :=
  match update with
  | Answers response => isSuccess (optMember response "status")
  | CallFails => false
  end.



End SSOConfig.


(** ** The virtual scrolling of the customer table: [VirtualizedTable]

    Pixel values are integers.  With an item height of zero the quotients
    of the component are infinite or [NaN]; the window is [None] then. *)

Module VirtualizedTable.

(** The index that [slice] makes of an argument: counted from the end
    when negative, and kept within the array. *)
Definition relativeIndex (len i : Z) : Z :=
  if (i <? 0)%Z then Z.max (len + i) 0 else Z.min i len.

(** [data.slice(start, final)] *)
Definition slice {A} (data : list A) (start final : Z) : list A :=
  let len := Z.of_nat (length data) in
  let k := relativeIndex len start in
  let e := relativeIndex len final in
  take (Z.to_nat (e - k)) (drop (Z.to_nat k) data).

Record Window (A : Type) : Type := {
  visibleCount : Z;
  totalHeight : Z;
  startIndex : Z;
  endIndex : Z;
  visibleItems : list A;
  (** the offset of the block of rendered rows, in pixels *)
  translateY : Z
}.
Arguments visibleCount {A} _.
Arguments totalHeight {A} _.
Arguments startIndex {A} _.
Arguments endIndex {A} _.
Arguments visibleItems {A} _.
Arguments translateY {A} _.

(** The body of the component, for the scroll position [scrollTop] that
    [handleScroll] stored. *)
Definition window {A} (data : list A) (itemHeight containerHeight scrollTop : Z)
    : option (Window A) :=
  if (itemHeight =? 0)%Z then None
  else
    let visibleCount := - ((- containerHeight) / itemHeight) in
    let totalHeight := Z.of_nat (length data) * itemHeight in
    let startIndex := scrollTop / itemHeight in
    let endIndex := Z.min (startIndex + visibleCount + 1) (Z.of_nat (length data)) in
    Some {| visibleCount := visibleCount;
            totalHeight := totalHeight;
            startIndex := startIndex;
            endIndex := endIndex;
            visibleItems := slice data startIndex endIndex;
            translateY := startIndex * itemHeight |}.

(** [visibleItems.map((item, index) => ...)]: the key and the index given
    to [renderItem] are [startIndex + index]. *)
Definition rendered {A} (w : Window A) : list (Z * A) :=
  imap (fun index item => (startIndex w + Z.of_nat index, item)) (visibleItems w).

End VirtualizedTable.

(** ** The live spend stream under the events of its life

    The browser dispatches [open] and [error] only on a source that has
    not been closed. *)

Module StreamRun.

Import Js LiveSpendStream.

Inductive StreamEvent : Type :=
| CallConnect
| SourceOpens (id : SourceId)
| SourceFails (id : SourceId)
| ClockReaches (t : Z)
| Unmount.

Definition isOpen (id : SourceId) (st : StreamState) : bool :=
  existsb (fun s => Nat.eqb s.1 id && s.2) (sources st).

Definition streamStep (st : StreamState) (e : StreamEvent) : StreamState :=
  match e with
  | CallConnect => connectToSpendStream st
  | SourceOpens id => if isOpen id st then onopen st else st
  | SourceFails id => if isOpen id st then onerror id st else st
  | ClockReaches t => advanceTo t st
  | Unmount => cleanup st
  end.

Definition streamRun (token : option string) (events : list StreamEvent) : StreamState :=
  foldl streamStep (mountState token) events.

(** The source the ref points to, as a list. *)
Definition currentSource (st : StreamState) : list SourceId :=
  match eventSourceRef st with
  | Some id => [id]
  | None => []
  end.

(** What every event keeps: the source that is not closed is the one the
    ref points to. *)
Definition oneConnection (st : StreamState) : Prop :=
  openSources st = currentSource st.

(** The events that can lead to a new source. *)
Definition cost (e : StreamEvent) : nat :=
  match e with
  | CallConnect | SourceFails _ => 1%nat
  | _ => 0%nat
  end.

Definition isFailure (e : StreamEvent) : bool :=
  match e with SourceFails _ => true | _ => false end.

Definition isConnectCall (e : StreamEvent) : bool :=
  match e with CallConnect => true | _ => false end.

End StreamRun.

(** ** The effect that loads the page: the notions in which its runs
    are stated *)

Module UsageEffect.

Import Js Dashboard.

(** The four credentials that [initlizeUsageData] asks for. *)
Definition signedIn (p : Props) : Prop :=
  truthyString (accessToken p) = true /\ truthyString (token p) = true
  /\ truthyString (userRole p) = true /\ truthyString (userID p) = true.

(** The calls of the array that do not go through
    [deduplicatedRequest]. *)
Definition undeduplicated (ts : list Task) : list Endpoint :=
  map endpoint (filter (fun t => dedupKey t = None) ts).

End UsageEffect.

(** ** The admin panel: the form of the SSO modal *)

Module SSOForm.

Import Js SSOConfig.

(** [a && b] and [a || b] on values. *)
Definition andThen (a b : Value) : Value := if truthy a then b else a.
Definition orElse (a b : Value) : Value := if truthy a then a else b.

(** [v.k]: an exception on [null] and [undefined]; on the other values
    that are not objects the names read here are not defined. *)
Definition member (v : Value) (k : string) : Completion Value :=
  match v with
  | VUndefined | VNull => Throws TypeError
  | VObj props => Returns (getProp props k)
  | _ => Returns VUndefined
  end.

(** [v === 's'] for a string literal. *)
Definition isString (v : Value) (s : string) : bool :=
  match v with
  | VStr x => String.eqb x s
  | _ => false
  end.

(** [if (source.k) formData.k = source.k], for a [source] that is not
    [null] or [undefined]. *)
Definition copyField (source : Value) (k : string) (formData : Obj) : Completion Obj :=
  v ← member source k;
  Returns (if truthy v then setProp formData k v else formData).

(** [if (config?.k) formData.k = config.k] *)
Definition copyOptionalField (config : Value) (k : string) (formData : Obj)
    : Completion Obj :=
  if truthy (optMember config k) then
    v ← member config k; Returns (setProp formData k v)
  else Returns formData.

(** The provider whose fields the form shows: the one the configuration
    names, or else the first one that has a client id; [null] if none. *)
Definition providerToShow (config : Value) : Completion Value :=
  if truthy (optMember config "sso_provider") then member config "sso_provider"
  else if truthy (optMember (optMember config "google") "google_client_id")
       then Returns (VStr "google")
  else if truthy (optMember (optMember config "microsoft") "microsoft_client_id")
       then Returns (VStr "microsoft")
  else if truthy (optMember (optMember config "generic") "generic_client_id")
       then Returns (VStr "generic")
  else Returns VNull.

Definition googleFields : list string :=
  [ "google_client_id"; "google_client_secret" ].
Definition microsoftFields : list string :=
  [ "microsoft_client_id"; "microsoft_tenant"; "microsoft_client_secret" ].
Definition genericFields : list string :=
  [ "generic_client_id"; "generic_authorization_endpoint"; "generic_token_endpoint";
    "generic_userinfo_endpoint"; "generic_scope"; "generic_client_secret" ].

(** Every field that the form data can hold. *)
Definition formFields : list string :=
  ([ "sso_provider"; "proxy_base_url"; "user_email" ]
   ++ googleFields ++ microsoftFields ++ genericFields)%list.

(** The chain of [if (config.provider.k) formData.k = config.provider.k]
    of one provider. *)
Fixpoint copyFields (source : Value) (ks : list string) (formData : Obj)
    : Completion Obj :=
  match ks with
  | [] => Returns formData
  | k :: rest => formData' ← copyField source k formData; copyFields source rest formData'
  end.

(** [buildFormDataFromConfig(config)] *)
Definition buildFormDataFromConfig (config : Value) : Completion Obj :=
  formData ← copyOptionalField config "proxy_base_url" [];
  formData ← copyOptionalField config "user_email" formData;
  provider ← providerToShow config;
  if truthy provider then
    let formData := setProp formData "sso_provider" provider in
    if isString provider "google" && truthy (optMember config "google") then
      google ← member config "google";
      copyFields google googleFields formData
    else if isString provider "microsoft" && truthy (optMember config "microsoft") then
      microsoft ← member config "microsoft";
      copyFields microsoft microsoftFields formData
    else if (isString provider "generic" || isString provider "okta")
            && truthy (optMember config "generic") then
      generic ← member config "generic";
      copyFields generic genericFields formData
    else Returns formData
  else Returns formData.

(** The flags computed when the panel renders. *)
Definition hasGoogleConfig (ssoConfig : Value) : bool :=
  truthy (optMember (optMember ssoConfig "google") "google_client_id").
Definition hasMicrosoftConfig (ssoConfig : Value) : bool :=
  truthy (optMember (optMember ssoConfig "microsoft") "microsoft_client_id").
Definition hasGenericConfig (ssoConfig : Value) : bool :=
  truthy (optMember (optMember ssoConfig "generic") "generic_client_id").
Definition hasExplicitProvider (ssoConfig : Value) : bool :=
  truthy (optMember ssoConfig "sso_provider").

(** The flag that picks the label of the button. *)
Definition isSSOConfigured (ssoConfig : Value) : bool :=
  hasGoogleConfig ssoConfig || hasMicrosoftConfig ssoConfig
  || hasGenericConfig ssoConfig || hasExplicitProvider ssoConfig.

(** [p && p.k], where [p] is [ssoConfig.provider]. *)
Definition clientIdOf (ssoConfig : Value) (provider k : string) : Completion Value :=
  p ← member ssoConfig provider;
  if truthy p then member p k else Returns p.

(** The [isConfigured] prop handed to the modals:
    [!!(ssoConfig && ((ssoConfig.google && ssoConfig.google.google_client_id)
    || ... || ssoConfig.sso_provider))]. *)
Definition isConfigured (ssoConfig : Value) : Completion bool :=
  if truthy ssoConfig then
    google ← clientIdOf ssoConfig "google" "google_client_id";
    if truthy google then Returns true else
      (microsoft ← clientIdOf ssoConfig "microsoft" "microsoft_client_id";
       if truthy microsoft then Returns true else
         (generic ← clientIdOf ssoConfig "generic" "generic_client_id";
          if truthy generic then Returns true else
            (explicit ← member ssoConfig "sso_provider";
             Returns (truthy explicit))))
  else Returns false.

(** *** The configuration that [handleSSOUpdate] sends *)

(** The end of a string without its trailing white space. *)
Fixpoint trimEnd (s : string) : string :=
  match s with
  | EmptyString => EmptyString
  | String c rest =>
      match trimEnd rest with
      | EmptyString => if Str.isWhiteSpace c then EmptyString else String c EmptyString
      | rest' => String c rest'
      end
  end.

(** [s.trim()], for the white space of ASCII. *)
Definition trim (s : string) : string := trimEnd (Str.skipWhiteSpace s).

(** [value && value.trim() !== '' && value !== '***']: a value that is
    truthy and not a string has no [trim] to call. *)
Definition hasValue (value : Value) : Completion bool :=
  if truthy value then
    match value with
    | VStr s => Returns (negb (String.eqb (trim s) "") && negb (String.eqb s "***"))
    | _ => Throws TypeError
    end
  else Returns false.

(** A value that the filter lets through: a string that is not blank
    and not the mask of a secret. *)
Definition kept (value : Value) : Prop :=
  exists s, value = VStr s /\ trim s <> "" /\ s <> "***".

(** One round of [Object.entries(providerConfig.envVarMap).forEach]. *)
Definition addField (formValues : Obj) (config : Obj) (entry : string * string)
    : Completion Obj :=
  let value := getProp formValues entry.1 in
  keep ← hasValue value;
  Returns (if (keep : bool) then setProp config entry.1 value else config).

Fixpoint addFields (formValues : Obj) (envVarMap : list (string * string))
    (config : Obj) : Completion Obj :=
  match envVarMap with
  | [] => Returns config
  | entry :: rest =>
      config' ← addField formValues config entry;
      addFields formValues rest config'
  end.

Definition basicFields : list string :=
  [ "sso_provider"; "proxy_base_url"; "user_email" ].

(** The object [config] that [handleSSOUpdate] builds from the values of
    the form; [providerConfig] is what [ssoProviderConfigs[provider]]
    holds: nothing, or a provider with its [envVarMap]. *)
Definition buildConfig (formValues : Obj)
    (providerConfig : option (list (string * string))) : Completion Obj :=
  let config := [ ("sso_provider", getProp formValues "sso_provider");
                  ("proxy_base_url", getProp formValues "proxy_base_url");
                  ("user_email", getProp formValues "user_email") ] in
  match providerConfig with
  | Some envVarMap => addFields formValues envVarMap config
  | None => Returns config
  end.

(** What [handleSSOUpdate] hands to [updateSSOProviderConfig], if it gets
    that far: nothing without a token, and nothing when building the
    object throws, which the [catch] block reports. *)
Definition configSent (accessToken : option string) (formValues : Obj)
    (providerConfig : option (list (string * string))) : option Obj :=
  match accessToken with
  | None => None
  | Some _ =>
      match buildConfig formValues providerConfig with
      | Returns config => Some config
      | _ => None
      end
  end.

(** *** Deleting the configuration *)

(** [form.resetFields()] *)
Definition resetFields (st : PanelState) : PanelState :=
  {| ssoConfig := ssoConfig st; isSSOConfigLoaded := isSSOConfigLoaded st;
     localStorage := localStorage st; storageLog := storageLog st;
     formPrefill := None |}.

(** [handleDeleteSSO()]; [confirmed] is whether the user confirms the
    dialog and [reply] how [deleteSSOProviderConfig] ends. *)
Definition handleDeleteSSO (accessToken : option string) (confirmed : bool)
    (reply : Reply) (st : PanelState) : PanelState :=
  match accessToken with
  | None => st
  | Some _ =>
      if confirmed then
        match reply with
        | Answers response =>
            if isSuccess (optMember response "status") then
              resetFields (removeItem storageKey (setSSOConfig VNull st))
            else st
        | CallFails => st
        end
      else st
  end.

(** A host whose [JSON.parse] reads back what its [JSON.stringify]
    wrote, for the configuration [config]. *)
Definition readsBack (J : Json) (config : Value) : Prop :=
  stringify J config <> "" /\ parse J (stringify J config) = Returns config.

End SSOForm.

(** ** The admin panel: the list of allowed IP addresses

    [getAllowedIPs] answers with an array of addresses, or with [null]
    or [undefined] ([None]). *)

Module AllowedIPs.

Import Js.

Definition all_ip_address_allowed : string := "All IP Addresses Allowed".

Inductive IPCall : Type :=
| GetAllowedIPs
| AddAllowedIP (ip : string)
| DeleteAllowedIP (ip : string).

Inductive Notice : Type :=
| ErrorNotice
| SuccessNotice.

Record IPState : Type := {
  (** the state [allowedIPs]; [None] when it was set to [null] or
      [undefined] *)
  allowedIPs : option (list string);
  ipToDelete : option string;
  isAllowedIPModalVisible : bool;
  isAddIPModalVisible : bool;
  isDeleteIPModalVisible : bool;
  (** the calls to the backend, the oldest first *)
  ipCalls : list IPCall;
  (** the notices of [message.error] and [message.success] *)
  notices : list Notice
}.

Definition initialIPs : IPState :=
  {| allowedIPs := Some []; ipToDelete := None;
     isAllowedIPModalVisible := false; isAddIPModalVisible := false;
     isDeleteIPModalVisible := false; ipCalls := []; notices := [] |}.

(** How a call that returns the list ends. *)
Inductive ListReply : Type :=
| ListFails
| ListAnswers (data : option (list string)).

Definition setAllowedIPs (v : option (list string)) (st : IPState) : IPState :=
  {| allowedIPs := v; ipToDelete := ipToDelete st;
     isAllowedIPModalVisible := isAllowedIPModalVisible st;
     isAddIPModalVisible := isAddIPModalVisible st;
     isDeleteIPModalVisible := isDeleteIPModalVisible st;
     ipCalls := ipCalls st; notices := notices st |}.

Definition setIPToDelete (v : option string) (st : IPState) : IPState :=
  {| allowedIPs := allowedIPs st; ipToDelete := v;
     isAllowedIPModalVisible := isAllowedIPModalVisible st;
     isAddIPModalVisible := isAddIPModalVisible st;
     isDeleteIPModalVisible := isDeleteIPModalVisible st;
     ipCalls := ipCalls st; notices := notices st |}.

Definition setIsAllowedIPModalVisible (b : bool) (st : IPState) : IPState :=
  {| allowedIPs := allowedIPs st; ipToDelete := ipToDelete st;
     isAllowedIPModalVisible := b;
     isAddIPModalVisible := isAddIPModalVisible st;
     isDeleteIPModalVisible := isDeleteIPModalVisible st;
     ipCalls := ipCalls st; notices := notices st |}.

Definition setIsAddIPModalVisible (b : bool) (st : IPState) : IPState :=
  {| allowedIPs := allowedIPs st; ipToDelete := ipToDelete st;
     isAllowedIPModalVisible := isAllowedIPModalVisible st;
     isAddIPModalVisible := b;
     isDeleteIPModalVisible := isDeleteIPModalVisible st;
     ipCalls := ipCalls st; notices := notices st |}.

Definition setIsDeleteIPModalVisible (b : bool) (st : IPState) : IPState :=
  {| allowedIPs := allowedIPs st; ipToDelete := ipToDelete st;
     isAllowedIPModalVisible := isAllowedIPModalVisible st;
     isAddIPModalVisible := isAddIPModalVisible st;
     isDeleteIPModalVisible := b;
     ipCalls := ipCalls st; notices := notices st |}.

Definition callBackend (c : IPCall) (st : IPState) : IPState :=
  {| allowedIPs := allowedIPs st; ipToDelete := ipToDelete st;
     isAllowedIPModalVisible := isAllowedIPModalVisible st;
     isAddIPModalVisible := isAddIPModalVisible st;
     isDeleteIPModalVisible := isDeleteIPModalVisible st;
     ipCalls := (ipCalls st ++ [c])%list; notices := notices st |}.

Definition notify (n : Notice) (st : IPState) : IPState :=
  {| allowedIPs := allowedIPs st; ipToDelete := ipToDelete st;
     isAllowedIPModalVisible := isAllowedIPModalVisible st;
     isAddIPModalVisible := isAddIPModalVisible st;
     isDeleteIPModalVisible := isDeleteIPModalVisible st;
     ipCalls := ipCalls st; notices := (notices st ++ [n])%list |}.

(** [data && data.length > 0 ? data : [all_ip_address_allowed]] *)
Definition orPlaceholder (data : option (list string)) : list string :=
  match data with
  | Some (ip :: rest) => ip :: rest
  | _ => [all_ip_address_allowed]
  end.

(** [handleShowAllowedIPs()] *)
Definition handleShowAllowedIPs (premiumUser : bool) (accessToken : option string)
    (reply : ListReply) (st : IPState) : IPState :=
  if negb premiumUser then notify ErrorNotice st
  else
    let st1 :=
      if truthyString accessToken then
        match reply with
        | ListAnswers data =>
            setAllowedIPs (Some (orPlaceholder data)) (callBackend GetAllowedIPs st)
        | ListFails =>
            setAllowedIPs (Some [all_ip_address_allowed])
              (notify ErrorNotice (callBackend GetAllowedIPs st))
        end
      else setAllowedIPs (Some [all_ip_address_allowed]) st in
    setIsAllowedIPModalVisible true st1.

(** [handleAddIP(values)]; [added] is whether [addAllowedIP] succeeds. *)
Definition handleAddIP (accessToken : option string) (ip : string) (added : bool)
    (reply : ListReply) (st : IPState) : IPState :=
  let st1 :=
    if truthyString accessToken then
      let st2 := callBackend (AddAllowedIP ip) st in
      if added then
        match reply with
        | ListAnswers updatedIPs =>
            notify SuccessNotice (setAllowedIPs updatedIPs (callBackend GetAllowedIPs st2))
        | ListFails => notify ErrorNotice (callBackend GetAllowedIPs st2)
        end
      else notify ErrorNotice st2
    else st in
  setIsAddIPModalVisible false st1.

(** [handleDeleteIP(ip)] *)
Definition handleDeleteIP (ip : string) (st : IPState) : IPState :=
  setIsDeleteIPModalVisible true (setIPToDelete (Some ip) st).

(** [confirmDeleteIP()]; [deleted] is whether [deleteAllowedIP]
    succeeds.  Reading the length of [null] throws, which the [catch]
    block reports like a failed call. *)
Definition confirmDeleteIP (accessToken : option string) (deleted : bool)
    (reply : ListReply) (st : IPState) : IPState :=
  match ipToDelete st with
  | Some ip =>
      if truthyString (Some ip) && truthyString accessToken then
        let st1 := callBackend (DeleteAllowedIP ip) st in
        let st2 :=
          if deleted then
            match reply with
            | ListAnswers (Some updatedIPs) =>
                notify SuccessNotice
                  (setAllowedIPs (Some (orPlaceholder (Some updatedIPs)))
                     (callBackend GetAllowedIPs st1))
            | ListAnswers None => notify ErrorNotice (callBackend GetAllowedIPs st1)
            | ListFails => notify ErrorNotice (callBackend GetAllowedIPs st1)
            end
          else notify ErrorNotice st1 in
        setIPToDelete None (setIsDeleteIPModalVisible false st2)
      else st
  | None => st
  end.

(** The list has an address to show. *)
Definition hasRows (st : IPState) : Prop :=
  exists ip rest, allowedIPs st = Some (ip :: rest).

End AllowedIPs.

(** ** The current month: the range asked of the backend and the days of
    the charts *)

Module MonthRange.

Import Js JsDate DateRangeFiller.

(** The month after [m] of [y]. *)
Definition nextMonth (y m : Z) : Z * Z :=
  if (m =? 12)%Z then (y + 1, 1) else (y, m + 1).

(** [date.getFullYear()] and [date.getMonth()], in local time. *)
Definition getFullYear (h : Host) (t : Z) : Z :=
  let '(y, _, _) := civilFromDays (Day (LocalTime h t)) in y.

Definition getMonth (h : Host) (t : Z) : Z :=
  let '(_, m, _) := civilFromDays (Day (LocalTime h t)) in m - 1.

(** The decimal digits of a natural number, the most significant
    first. *)
Fixpoint digitsOf (fuel : nat) (n : Z) (acc : list ascii) : list ascii :=
  match fuel with
  | O => acc
  | S fuel' =>
      let acc' := Str.digitChar (n mod 10) :: acc in
      if (n <? 10)%Z then acc' else digitsOf fuel' (n / 10) acc'
  end.

(** The string that a template literal makes of an integer. *)
Definition numberToString (n : Z) : string :=
  let digits := digitsOf (S (Z.to_nat (Z.log2 (Z.abs n)))) (Z.abs n) [] in
  string_of_list_ascii (if (n <? 0)%Z then "-"%char :: digits else digits).

(** [n < 10 ? "0" + n : n], as the template literal prints it. *)
Definition padTwo (n : Z) : string :=
  if (n <? 10)%Z then "0" ++ numberToString n else numberToString n.

(** [formatDate(date)] *)
Definition formatDate (h : Host) (t : Z) : string :=
  numberToString (getFullYear h t) ++ "-" ++ padTwo (getMonth h t + 1)
  ++ "-" ++ padTwo (getDate h t).

(** [new Date(now.getFullYear(), now.getMonth(), 1)] and
    [new Date(now.getFullYear(), now.getMonth() + 1, 0)] *)
Definition firstDay (h : Host) (now : Z) : option Z :=
  newDateLocal h (getFullYear h now) (Some (getMonth h now)) (Some 1).

Definition lastDay (h : Host) (now : Z) : option Z :=
  newDateLocal h (getFullYear h now) (Some (getMonth h now + 1)) (Some 0).

(** [startTime] and [endTime], the range given to the calls that take
    one; [None] for an invalid date, which prints as [NaN-NaN-NaN]. *)
Definition startTime (h : Host) (now : Z) : option string :=
  formatDate h <$> firstDay h now.

Definition endTime (h : Host) (now : Z) : option string :=
  formatDate h <$> lastDay h now.

(** The [filledDailyData] of [fetchGlobalActivity], and the [daily_data]
    that [fetchGlobalActivityPerModel] gives each model.  With an invalid
    date at either end the test of the loop is false at once. *)
Definition filledDailyData (h : Host) (fuel : nat) (now : Z) (daily_data : list Obj)
    : Completion (list Obj) :=
  match firstDay h now, lastDay h now with
  | Some first, Some last =>
      fillMissingDates h fuel daily_data first last ["api_requests"; "total_tokens"]
  | _, _ => _ ← existingDates h daily_data; Returns []
  end.

(** The dates of the [chartData] of [fetchOverallSpend]: one for each
    [i] below [lastDay.getDate()], that of
    [new Date(now.getFullYear(), now.getMonth(), i + 1)]. *)
Definition chartDate (h : Host) (now : Z) (i : nat) : Completion string :=
  match newDateLocal h (getFullYear h now) (Some (getMonth h now))
                     (Some (Z.of_nat i + 1)) with
  | Some t => Returns (toISODate t)
  | None => Throws RangeError
  end.

Definition chartDates (h : Host) (now : Z) : Completion (list string) :=
  match lastDay h now with
  | Some last => mapM (chartDate h now) (seq 0 (Z.to_nat (getDate h last)))
  | None => Returns []
  end.

(** The local date of [now]. *)
Definition localDate (h : Host) (now : Z) : Z * Z * Z :=
  civilFromDays (Day (LocalTime h now)).

(** A zone at the constant offset [offset] from UTC. *)
Definition atOffset (h : Host) (offset : Z) : Prop :=
  forall t isUTC, LocalTZA h t isUTC = offset.

(** By how many days the UTC date of a local midnight is behind the
    local date. *)
Definition daysBehind (offset : Z) : Z := if (0 <? offset)%Z then 1 else 0.

End MonthRange.
(* ===================================================================== *)
(** * Part II: the statements                                             *)
(* ===================================================================== *)

(** ** Calendar arithmetic *)

Module Calendar.

Import Js JsDate.

Lemma allFrom_spec n P :
  forall z0, allFrom n z0 P = true ->
  forall z, z0 <= z < z0 + Z.of_nat n -> P z = true.
Proof.
  induction n as [|k IH]; simpl; intros z0 H z Hz; [lia|].
  apply andb_true_iff in H as [Hk Hrest].
  destruct (Z.eq_dec z z0) as [->|Hne]; [exact Hk|].
  apply (IH (z0 + 1)); [exact Hrest | lia].
Qed.

Lemma yearDays_ok : allFrom 366 0 yearDayOk = true.
Proof. vm_compute. reflexivity. Qed.

Lemma monthDayOfYearDay_spec (doy : Z) :
  0 <= doy <= 365 ->
  let '(m, d) := monthDayOfYearDay doy in
  1 <= m <= 12 /\ 1 <= d <= 31
  /\ (153 * (if (m <=? 2)%Z then m + 9 else m - 3) + 2) / 5 + d - 1 = doy.
Proof.
  intros Hdoy.
  assert (Hrange : 0 <= doy < 0 + Z.of_nat 366) by lia.
  pose proof (allFrom_spec _ _ _ yearDays_ok _ Hrange) as Hok.
  unfold yearDayOk in Hok.
  destruct (monthDayOfYearDay doy) as [m d].
  repeat (apply andb_true_iff in Hok as [Hok ?]).
  lia.
Qed.

(** The day number is recovered from the date, and the date has its
    month in 1..12 and its day in 1..31. *)
Lemma civilFromDays_spec (day : Z) :
  let '(y, m, d) := civilFromDays day in
  daysFromCivil y m d = day /\ 1 <= m <= 12 /\ 1 <= d <= 31
  /\ ((day + 719468) / 146097) * 400 <= y <= ((day + 719468) / 146097) * 400 + 400.
Proof.
  unfold civilFromDays. cbv zeta.
  set (z := day + 719468).
  set (era := z / 146097).
  set (doe := z mod 146097).
  assert (Hdoe : 0 <= doe < 146097) by (apply Z.mod_pos_bound; lia).
  assert (Hz : z = 146097 * era + doe) by (apply Z.div_mod; lia).
  set (century := Z.min (doe / 36524) 3).
  assert (Hcentury : 0 <= century <= 3
                     /\ 0 <= doe - century * 36524 <= 36524).
  { unfold century.
    pose proof (Z.div_mod doe 36524 ltac:(lia)) as Hq.
    pose proof (Z.mod_pos_bound doe 36524 ltac:(lia)) as Hr.
    destruct (Z.min_spec (doe / 36524) 3) as [[? ->] | [? ->]]; lia. }
  set (doc := doe - century * 36524) in *.
  set (cycle := doc / 1461).
  assert (Hcycle : 0 <= cycle <= 24).
  { unfold cycle. split; [apply Z.div_pos; lia|].
    assert (doc / 1461 < 25) by (apply Z.div_lt_upper_bound; lia). lia. }
  assert (Hdoq : 0 <= doc mod 1461 < 1461 /\ doc = 1461 * cycle + doc mod 1461).
  { split; [apply Z.mod_pos_bound; lia | apply Z.div_mod; lia]. }
  set (doq := doc mod 1461) in *.
  set (yearOfCycle := Z.min (doq / 365) 3).
  assert (Hyear : 0 <= yearOfCycle <= 3 /\ 0 <= doq - yearOfCycle * 365 <= 365).
  { unfold yearOfCycle.
    pose proof (Z.div_mod doq 365 ltac:(lia)) as Hq.
    pose proof (Z.mod_pos_bound doq 365 ltac:(lia)) as Hr.
    destruct (Z.min_spec (doq / 365) 3) as [[? ->] | [? ->]]; lia. }
  set (doy := doq - yearOfCycle * 365) in *.
  pose proof (monthDayOfYearDay_spec doy ltac:(lia)) as Hmd.
  destruct (monthDayOfYearDay doy) as [m d].
  destruct Hmd as (Hm & Hd & Hdoy).
  set (yoe := century * 100 + cycle * 4 + yearOfCycle).
  assert (Hyoe : 0 <= yoe < 400) by (unfold yoe; lia).
  assert (Hleap : yoe * 365 + yoe / 4 - yoe / 100
                  = century * 36524 + cycle * 1461 + yearOfCycle * 365).
  { assert (Hq4 : yoe / 4 = century * 25 + cycle).
    { unfold yoe. symmetry. apply Z.div_unique with (r := yearOfCycle); lia. }
    assert (Hq100 : yoe / 100 = century).
    { unfold yoe. symmetry. apply Z.div_unique with (r := cycle * 4 + yearOfCycle); lia. }
    rewrite Hq4, Hq100. unfold yoe. lia. }
  split; [| split; [exact Hm | split; [exact Hd |]]].
  - unfold daysFromCivil. cbv zeta.
    replace (if (m <=? 2)%Z
             then (if (m <=? 2)%Z then yoe + era * 400 + 1 else yoe + era * 400) - 1
             else (if (m <=? 2)%Z then yoe + era * 400 + 1 else yoe + era * 400))
      with (yoe + era * 400) by (destruct (m <=? 2)%Z; lia).
    rewrite Z.div_add, Z.mod_add by lia.
    rewrite (Z.div_small yoe 400), (Z.mod_small yoe 400) by lia.
    rewrite Hdoy, Hleap. unfold z in Hz. lia.
  - destruct (m <=? 2)%Z; lia.
Qed.

(** Known dates: the epoch, a leap day, the day before the epoch, the
    first and the last day a [Date] can hold. *)
Example civilFromDays_known :
  civilFromDays 0 = (1970, 1, 1)
  /\ civilFromDays 11016 = (2000, 2, 29)
  /\ civilFromDays (-1) = (1969, 12, 31)
  /\ civilFromDays 20177 = (2025, 3, 30)
  /\ civilFromDays (-100000000) = (-271821, 4, 20)
  /\ civilFromDays 100000000 = (275760, 9, 13).
Proof. repeat split. Qed.

Lemma civilFromDays_inj (a b : Z) : civilFromDays a = civilFromDays b -> a = b.
Proof.
  intros H.
  pose proof (civilFromDays_spec a) as Ha.
  pose proof (civilFromDays_spec b) as Hb.
  rewrite H in Ha.
  destruct (civilFromDays b) as [[y m] d].
  destruct Ha as [Ha _], Hb as [Hb _]. congruence.
Qed.

End Calendar.

(** ** The ISO form of a date determines the day *)

Module IsoDate.

Import Js JsDate Calendar.

Lemma digitChar_inj (a b : Z) :
  0 <= a < 10 -> 0 <= b < 10 -> Str.digitChar a = Str.digitChar b -> a = b.
Proof.
  unfold Str.digitChar. intros Ha Hb H.
  apply (f_equal nat_of_ascii) in H.
  rewrite !nat_ascii_embedding in H by lia. lia.
Qed.

Lemma length_padDigits (w : nat) (n : Z) : length (Str.padDigits w n) = w.
Proof. induction w as [|w IH]; simpl; [reflexivity | now rewrite IH]. Qed.

Lemma padDigits_mod (w : nat) (a b : Z) :
  Str.padDigits w a = Str.padDigits w b -> a mod 10 ^ Z.of_nat w = b mod 10 ^ Z.of_nat w.
Proof.
  induction w as [|w IH]; simpl Str.padDigits; intros H.
  - change (10 ^ Z.of_nat 0) with 1. now rewrite !Z.mod_1_r.
  - injection H as Hhead Htail.
    specialize (IH Htail).
    assert (Hpow : 0 < 10 ^ Z.of_nat w) by (apply Z.pow_pos_nonneg; lia).
    apply digitChar_inj in Hhead; try (apply Z.mod_pos_bound; lia).
    rewrite Nat2Z.inj_succ, Z.pow_succ_r by lia.
    rewrite (Z.mul_comm 10).
    rewrite !Z.rem_mul_r by lia.
    rewrite IH, Hhead. reflexivity.
Qed.

Lemma padDigits_inj (w : nat) (a b : Z) :
  0 <= a < 10 ^ Z.of_nat w -> 0 <= b < 10 ^ Z.of_nat w ->
  Str.padDigits w a = Str.padDigits w b -> a = b.
Proof.
  intros Ha Hb H. apply padDigits_mod in H.
  now rewrite !Z.mod_small in H by assumption.
Qed.

Lemma length_isoYear (y : Z) :
  length (isoYear y) = if ((0 <=? y) && (y <=? 9999))%Z then 4%nat else 7%nat.
Proof.
  unfold isoYear. destruct ((0 <=? y) && (y <=? 9999))%Z; simpl; reflexivity.
Qed.

Lemma isoYear_inj (a b : Z) :
  Z.abs a < 1000000 -> Z.abs b < 1000000 -> isoYear a = isoYear b -> a = b.
Proof.
  intros Ha Hb H.
  pose proof (f_equal (@length ascii) H) as Hlen.
  rewrite !length_isoYear in Hlen.
  unfold isoYear in H.
  destruct ((0 <=? a) && (a <=? 9999))%Z eqn:Ea;
    destruct ((0 <=? b) && (b <=? 9999))%Z eqn:Eb; try discriminate.
  - apply andb_true_iff in Ea as [? ?], Eb as [? ?].
    apply (padDigits_inj 4); [change (10 ^ Z.of_nat 4) with 10000; lia ..| exact H].
  - remember (Str.padDigits 6 (Z.abs a)) as pa eqn:Epa.
    remember (Str.padDigits 6 (Z.abs b)) as pb eqn:Epb.
    injection H as Hsign Hdigits. subst pa pb.
    apply (padDigits_inj 6) in Hdigits;
      [| change (10 ^ Z.of_nat 6) with 1000000; lia ..].
    destruct (a <? 0)%Z eqn:Sa; destruct (b <? 0)%Z eqn:Sb; try discriminate; lia.
Qed.

Lemma string_of_list_ascii_inj (l k : list ascii) :
  string_of_list_ascii l = string_of_list_ascii k -> l = k.
Proof.
  intros H. apply (f_equal list_ascii_of_string) in H.
  now rewrite !list_ascii_of_string_of_list_ascii in H.
Qed.

Lemma validTime_Day (t : Z) : validTime t -> validDay (Day t).
Proof.
  unfold validTime, validDay, Day, maxTime, msPerDay. intros H.
  split.
  - apply Z.div_le_lower_bound; lia.
  - apply Z.div_le_upper_bound; lia.
Qed.

Lemma isoDateOfDay_inj (a b : Z) :
  validDay a -> validDay b -> isoDateOfDay a = isoDateOfDay b -> a = b.
Proof.
  unfold validDay, isoDateOfDay. intros Ha Hb H.
  pose proof (civilFromDays_spec a) as Sa.
  pose proof (civilFromDays_spec b) as Sb.
  destruct (civilFromDays a) as [[ya ma] da].
  destruct (civilFromDays b) as [[yb mb] db].
  destruct Sa as (Ra & Hma & Hda & Hya), Sb as (Rb & Hmb & Hdb & Hyb).
  assert (Ea : -680 <= (a + 719468) / 146097 <= 690).
  { split; [apply Z.div_le_lower_bound | apply Z.div_le_upper_bound]; lia. }
  assert (Eb : -680 <= (b + 719468) / 146097 <= 690).
  { split; [apply Z.div_le_lower_bound | apply Z.div_le_upper_bound]; lia. }
  apply string_of_list_ascii_inj in H.
  remember (Str.padDigits 2 ma) as pma eqn:Epma.
  remember (Str.padDigits 2 mb) as pmb eqn:Epmb.
  remember (Str.padDigits 2 da) as pda eqn:Epda.
  remember (Str.padDigits 2 db) as pdb eqn:Epdb.
  assert (Lma : length pma = 2%nat) by (subst pma; apply length_padDigits).
  assert (Lmb : length pmb = 2%nat) by (subst pmb; apply length_padDigits).
  assert (Lda : length pda = 2%nat) by (subst pda; apply length_padDigits).
  assert (Ldb : length pdb = 2%nat) by (subst pdb; apply length_padDigits).
  assert (Hlen : length (isoYear ya) = length (isoYear yb)).
  { apply (f_equal (@length ascii)) in H.
    rewrite !length_app in H. simpl in H. rewrite !length_app in H.
    simpl in H. lia. }
  apply app_inj_1 in H as [Hy H]; [| exact Hlen].
  injection H as H.
  apply app_inj_1 in H as [Hm H]; [| lia].
  injection H as Hd.
  subst pma pmb pda pdb.
  apply isoYear_inj in Hy; [| lia ..].
  apply (padDigits_inj 2) in Hm; [| change (10 ^ Z.of_nat 2) with 100; lia ..].
  apply (padDigits_inj 2) in Hd; [| change (10 ^ Z.of_nat 2) with 100; lia ..].
  congruence.
Qed.

(** The date part of [toISOString] tells the days of valid dates apart. *)
Lemma toISODate_inj (s t : Z) :
  validTime s -> validTime t -> toISODate s = toISODate t -> Day s = Day t.
Proof.
  intros Hs Ht H. apply isoDateOfDay_inj; auto using validTime_Day.
Qed.

End IsoDate.

(** ** DateRangeFiller *)

Module FillerFacts.

Import Js JsDate DateRangeFiller Calendar IsoDate.

(** *** Objects *)

Lemma getOwn_replaceProp_eq (o : Obj) (k : string) (v : Value) :
  is_Some (getOwn o k) -> getOwn (replaceProp o k v) k = Some v.
Proof.
  induction o as [|[k' v'] o IH]; simpl; intros [x Hx]; [discriminate|].
  destruct (String.eqb k' k) eqn:E; simpl.
  - now rewrite String.eqb_refl.
  - rewrite E. apply IH. eauto.
Qed.

Lemma getOwn_replaceProp_ne (o : Obj) (k k' : string) (v : Value) :
  k <> k' -> getOwn (replaceProp o k v) k' = getOwn o k'.
Proof.
  intros Hne. induction o as [|[k0 v0] o IH]; simpl; [reflexivity|].
  destruct (String.eqb k0 k) eqn:E; simpl.
  - apply String.eqb_eq in E. subst k0.
    destruct (String.eqb k k') eqn:E'; [apply String.eqb_eq in E'; contradiction | reflexivity].
  - destruct (String.eqb k0 k'); [reflexivity | exact IH].
Qed.

Lemma getOwn_placeIndex_eq (n : N) (o : Obj) (k : string) (v : Value) :
  getOwn o k = None -> getOwn (placeIndex n k v o) k = Some v.
Proof.
  induction o as [|[k' v'] o IH]; simpl; intros Hk.
  - now rewrite String.eqb_refl.
  - destruct (String.eqb k' k) eqn:E; [discriminate|].
    destruct (arrayIndex k') as [m|]; [destruct (m <? n)%N|]; simpl;
      rewrite ?E, ?String.eqb_refl; auto.
Qed.

Lemma getOwn_placeIndex_ne (n : N) (o : Obj) (k k' : string) (v : Value) :
  k <> k' -> getOwn (placeIndex n k v o) k' = getOwn o k'.
Proof.
  intros Hne. apply String.eqb_neq in Hne.
  induction o as [|[k0 v0] o IH]; simpl.
  - now rewrite Hne.
  - destruct (arrayIndex k0) as [m|]; [destruct (m <? n)%N|]; simpl;
      rewrite ?Hne, ?IH; reflexivity.
Qed.

Lemma getOwn_app (o o' : Obj) (k : string) :
  getOwn (o ++ o')%list k
  = match getOwn o k with Some v => Some v | None => getOwn o' k end.
Proof.
  induction o as [|[k' v'] o IH]; simpl; [reflexivity|].
  destruct (String.eqb k' k); [reflexivity | exact IH].
Qed.

Lemma getOwn_setProp_eq (o : Obj) (k : string) (v : Value) :
  getOwn (setProp o k v) k = Some v.
Proof.
  unfold setProp. destruct (getOwn o k) as [x|] eqn:E.
  - apply getOwn_replaceProp_eq. eauto.
  - destruct (arrayIndex k) as [n|].
    + now apply getOwn_placeIndex_eq.
    + rewrite getOwn_app, E. simpl. now rewrite String.eqb_refl.
Qed.

Lemma getOwn_setProp_ne (o : Obj) (k k' : string) (v : Value) :
  k <> k' -> getOwn (setProp o k v) k' = getOwn o k'.
Proof.
  intros Hne. unfold setProp. destruct (getOwn o k) as [x|] eqn:E.
  - now apply getOwn_replaceProp_ne.
  - destruct (arrayIndex k) as [n|].
    + now apply getOwn_placeIndex_ne.
    + rewrite getOwn_app. simpl. apply String.eqb_neq in Hne. rewrite Hne.
      now destruct (getOwn o k').
Qed.

Lemma getProp_setProp_eq (o : Obj) (k : string) (v : Value) :
  getProp (setProp o k v) k = v.
Proof. unfold getProp. now rewrite getOwn_setProp_eq. Qed.

(** *** The map of the existing rows *)

Lemma normalizedDate_fun h item s s' :
  normalizedDate h item s -> normalizedDate h item s' -> s = s'.
Proof. intros (d & Hd & Hs) (d' & Hd' & Hs'). congruence. Qed.

Lemma mapEntry_normalized h item s :
  normalizedDate h item s ->
  mapEntry h item = Returns (Some (s, setProp item "date" (VStr s))).
Proof.
  intros (d & Hd & Hs). unfold mapEntry, itemDate in *.
  destruct (getProp item "date"); try discriminate.
  injection Hd as ->. rewrite Hs. reflexivity.
Qed.

(** On well-formed rows the map is built without an exception. *)
Lemma mapM_mapEntry h rows :
  wellFormed h rows ->
  exists pairs, mapM (mapEntry h) rows = Returns (Some <$> pairs)
    /\ Forall2 (fun item kv => normalizedDate h item kv.1
                               /\ kv.2 = setProp item "date" (VStr kv.1)) rows pairs.
Proof.
  induction 1 as [|item rows [s Hs] _ (pairs & Hm & HF)]; simpl.
  - exists []. split; [reflexivity | constructor].
  - set (kv := (s, setProp item "date" (VStr s))).
    rewrite (mapEntry_normalized h item s Hs). simpl. rewrite Hm. simpl.
    exists (kv :: pairs). split; [reflexivity|]. constructor; [split; auto | exact HF].
Qed.

Lemma omap_id_Some {A} (l : list A) : omap id (Some <$> l) = l.
Proof. induction l as [|x l IH]; csimpl; [reflexivity | now f_equal]. Qed.

Lemma foldl_insert_absent (pairs : list (string * Obj)) (m : gmap string Obj) (k : string) :
  Forall (fun kv => kv.1 <> k) pairs ->
  foldl insertPair m pairs !! k = m !! k.
Proof.
  intros H. revert m. induction H as [|kv pairs Hne _ IH]; intros m; simpl.
  - reflexivity.
  - rewrite IH. unfold insertPair. now rewrite lookup_insert_ne.
Qed.

Lemma newMap_absent (pairs : list (string * Obj)) (k : string) :
  Forall (fun kv => kv.1 <> k) pairs -> newMap pairs !! k = None.
Proof.
  intros H. unfold newMap.
  now rewrite foldl_insert_absent.
Qed.

(** The last pair with a key is the one the map gives. *)
Lemma newMap_last (before after : list (string * Obj)) (k : string) (row : Obj) :
  Forall (fun kv => kv.1 <> k) after ->
  newMap (before ++ (k, row) :: after) !! k = Some row.
Proof.
  intros H. unfold newMap.
  rewrite foldl_app. simpl. rewrite foldl_insert_absent by exact H.
  unfold insertPair. simpl. apply lookup_insert_eq.
Qed.

Lemma existingDates_wellFormed h rows :
  wellFormed h rows ->
  exists existing,
    existingDates h rows = Returns existing
    /\ (forall s item, lastRowOf h rows s item ->
          existing !! s = Some (setProp item "date" (VStr s)))
    /\ (forall s, noRowOf h rows s -> existing !! s = None)
    /\ (forall s row, existing !! s = Some row ->
          exists item, lastRowOf h rows s item
                       /\ row = setProp item "date" (VStr s)).
Proof.
  intros Hwf. destruct (mapM_mapEntry h rows Hwf) as (pairs & Hm & HF).
  exists (newMap pairs). unfold existingDates. rewrite Hm. simpl.
  rewrite omap_id_Some.
  split; [reflexivity|].
  assert (Hlast : forall s item, lastRowOf h rows s item ->
            newMap pairs !! s = Some (setProp item "date" (VStr s))).
  { intros s item (before & after & -> & Hn & Hafter).
    apply Forall2_app_inv_l in HF as (pb & pa' & Hb & Ha & ->).
    apply Forall2_cons_inv_l in Ha as (kv & pa & [Hkv Hrow] & Ha & ->).
    destruct kv as [k row]. simpl in *.
    assert (k = s) by eauto using normalizedDate_fun. subst k row.
    apply newMap_last.
    clear -Ha Hafter. induction Ha as [|item' kv' after pa [Hk _] _ IH]; [constructor|].
    apply Forall_cons in Hafter as [Hne Hafter].
    constructor; [| exact (IH Hafter)].
    intros <-. contradiction. }
  assert (Hnone : forall s, noRowOf h rows s -> newMap pairs !! s = None).
  { intros s Hno. apply newMap_absent.
    clear -HF Hno. induction HF as [|item kv rows pairs [Hk _] _ IH]; [constructor|].
    apply Forall_cons in Hno as [Hne Hno].
    constructor; [| exact (IH Hno)].
    intros <-. contradiction. }
  split; [exact Hlast|]. split; [exact Hnone|].
  intros s row Hlook.
  assert (Hdec : noRowOf h rows s \/ exists item, lastRowOf h rows s item).
  { clear -Hwf. induction Hwf as [|item rows [s' Hs'] _ IH].
    - left. constructor.
    - destruct IH as [Hno | (item' & before & after & -> & Hn & Hafter)].
      + destruct (String.string_dec s' s) as [->|Hne].
        * right. exists item, [], rows. repeat split; auto.
        * left. constructor; [| exact Hno].
          intros Hs. apply Hne. eauto using normalizedDate_fun.
      + right. exists item', (item :: before), after. repeat split; auto. }
  destruct Hdec as [Hno | (item & Hl)].
  - rewrite (Hnone s Hno) in Hlook. discriminate.
  - exists item. split; [exact Hl|]. rewrite (Hlast s item Hl) in Hlook. congruence.
Qed.

(** *** The entry of an empty day *)

Lemma setProp_zero_keeps (entry : Obj) (c k : string) :
  getOwn entry k = Some zero -> getOwn (setProp entry c zero) k = Some zero.
Proof.
  intros Hk. destruct (String.string_dec c k) as [<-|Hne].
  - apply getOwn_setProp_eq.
  - now rewrite getOwn_setProp_ne.
Qed.

Lemma setProp_zero_inv (s : string) (entry : Obj) (c : string) :
  c <> "date" -> entryInv s entry -> entryInv s (setProp entry c zero).
Proof.
  intros Hc (Hd & Ha & Ht & Hz). unfold entryInv.
  split; [| split; [| split]].
  - now rewrite getOwn_setProp_ne.
  - now apply setProp_zero_keeps.
  - now apply setProp_zero_keeps.
  - intros k v Hk Hne. destruct (String.string_dec c k) as [<-|Hck].
    + rewrite getOwn_setProp_eq in Hk. congruence.
    + rewrite getOwn_setProp_ne in Hk by exact Hck. eauto.
Qed.

Lemma addCategory_inv (s : string) (entry : Obj) (c : string) :
  s <> "" -> entryInv s entry ->
  entryInv s (addCategory entry c)
  /\ (c <> "date" -> inherited c = false -> getOwn (addCategory entry c) c = Some zero)
  /\ (forall k, getOwn entry k = Some zero -> getOwn (addCategory entry c) k = Some zero).
Proof.
  intros Hs Hinv. pose proof Hinv as (Hd & Ha & Ht & Hz).
  unfold addCategory, getProp.
  destruct (String.string_dec c "date") as [->|Hc].
  - rewrite Hd. simpl.
    assert (E : String.eqb s "" = false) by (now apply String.eqb_neq).
    rewrite E. simpl. split; [exact Hinv | split; [congruence | auto]].
  - destruct (getOwn entry c) as [v|] eqn:Ec.
    + assert (v = zero) by eauto. subst v. simpl.
      split; [now apply setProp_zero_inv | split].
      * intros _ _. apply getOwn_setProp_eq.
      * intros k. apply setProp_zero_keeps.
    + destruct (inherited c) eqn:Ei; simpl.
      * split; [exact Hinv | split; [intros _ ?; discriminate | auto]].
      * split; [now apply setProp_zero_inv | split].
        -- intros _ _. apply getOwn_setProp_eq.
        -- intros k. apply setProp_zero_keeps.
Qed.

Lemma foldl_addCategory (s : string) (categories : list string) :
  s <> "" ->
  forall entry, entryInv s entry ->
  entryInv s (foldl addCategory entry categories)
  /\ (forall c, c ∈ categories \/ getOwn entry c = Some zero ->
        c <> "date" -> inherited c = false ->
        getOwn (foldl addCategory entry categories) c = Some zero).
Proof.
  intros Hs. induction categories as [|c0 cats IH]; intros entry Hinv; simpl.
  - split; [exact Hinv|]. intros c [Hin | Hown] _ _; [inversion Hin | exact Hown].
  - destruct (addCategory_inv s entry c0 Hs Hinv) as (Hinv' & Hc0 & Hkeep).
    destruct (IH _ Hinv') as [Hfinal Hcats].
    split; [exact Hfinal|].
    intros c [Hin | Hown] Hdate Hinh.
    + apply elem_of_cons in Hin as [-> | Hin].
      * apply Hcats; auto.
      * apply Hcats; auto.
    + apply Hcats; auto.
Qed.

(** The synthesized entry: the day's date, zero requests and tokens, and
    zero for every category that is neither [date] nor a name inherited
    from [Object.prototype]. *)
Lemma emptyEntry_spec (s : string) (categories : list string) :
  s <> "" ->
  getProp (emptyEntry s categories) "date" = VStr s
  /\ getOwn (emptyEntry s categories) "api_requests" = Some zero
  /\ getOwn (emptyEntry s categories) "total_tokens" = Some zero
  /\ (forall c, c ∈ categories -> c <> "date" -> inherited c = false ->
        getOwn (emptyEntry s categories) c = Some zero).
Proof.
  intros Hs.
  assert (Hinit : entryInv s [("date", VStr s); ("api_requests", zero); ("total_tokens", zero)]).
  { repeat split; try reflexivity.
    intros k v. cbn [getOwn].
    destruct (String.eqb "date" k) eqn:E1.
    - apply String.eqb_eq in E1. congruence.
    - destruct (String.eqb "api_requests" k); [congruence|].
      destruct (String.eqb "total_tokens" k); [congruence | discriminate]. }
  destruct (foldl_addCategory s categories Hs _ Hinit) as ((Hd & Ha & Ht & _) & Hc).
  fold (emptyEntry s categories) in Hd, Ha, Ht, Hc.
  unfold getProp. rewrite Hd. repeat split; auto.
Qed.

Lemma isoDateOfDay_nonempty (day : Z) : isoDateOfDay day <> "".
Proof.
  unfold isoDateOfDay. destruct (civilFromDays day) as [[y m] d].
  intros H. apply (f_equal list_ascii_of_string) in H.
  rewrite list_ascii_of_string_of_list_ascii in H. simpl in H.
  apply app_eq_nil in H as [_ H]. discriminate.
Qed.

(** *** The loop *)

Lemma dayOfInterval_0 (t : Z) : dayOfInterval t 0 = toISODate t.
Proof. unfold dayOfInterval. f_equal. lia. Qed.

Lemma daysFromCivil_day (y m d : Z) :
  daysFromCivil y m d = daysFromCivil y m 1 + d - 1.
Proof. unfold daysFromCivil. cbv zeta. destruct (m <=? 2)%Z; lia. Qed.

(** While the zone keeps its offset, the next local day is one day
    later. *)
Lemma nextDay_steady (h : Host) (offset t : Z) :
  LocalTZA h t true = offset ->
  LocalTZA h (t + offset + msPerDay) false = offset ->
  nextDay h t = t + msPerDay.
Proof.
  intros Hnow Hnext. unfold nextDay, setDate, getDate, LocalTime, UTC.
  rewrite !Hnow. set (tl := t + offset).
  pose proof (civilFromDays_spec (Day tl)) as Hspec.
  destruct (civilFromDays (Day tl)) as [[y m] d].
  destruct Hspec as (Hday & Hm & _ & _).
  assert (Hmake : MakeDay y (m - 1) (d + 1) = Day tl + 1).
  { unfold MakeDay.
    rewrite (Z.div_small (m - 1) 12), (Z.mod_small (m - 1) 12) by lia.
    replace (y + 0) with y by lia. replace (m - 1 + 1) with m by lia.
    rewrite <- Hday. rewrite (daysFromCivil_day y m d). ring. }
  rewrite Hmake.
  assert (Hlocal : (Day tl + 1) * msPerDay + tl mod msPerDay = t + offset + msPerDay).
  { unfold Day, msPerDay.
    pose proof (Z.div_mod tl 86400000 ltac:(lia)) as Hdm.
    subst tl. lia. }
  rewrite Hlocal, Hnext. lia.
Qed.

Lemma keepsOffset_from (h : Host) (offset s e t : Z) :
  keepsOffset h offset s e -> s <= t -> keepsOffset h offset t e.
Proof. intros H Hst u Hu. apply H. lia. Qed.

Lemma keepsOffset_nextDay (h : Host) (offset s e : Z) :
  keepsOffset h offset s e -> s <= e -> nextDay h s = s + msPerDay.
Proof.
  intros H Hle. destruct (H s ltac:(lia)) as [Hnow Hnext].
  now apply (nextDay_steady h offset).
Qed.

Lemma fixedOffset_keepsOffset (h : Host) (s e : Z) :
  fixedOffset h -> clocksUnchanged h s e.
Proof. intros [offset Hoff]. exists offset. intros t _. now rewrite !Hoff. Qed.

Lemma dayOfInterval_Day (t : Z) (i : nat) :
  dayOfInterval t i = isoDateOfDay (Day t + Z.of_nat i).
Proof.
  unfold dayOfInterval, toISODate, Day. f_equal.
  rewrite Z.div_add by (unfold msPerDay; lia). reflexivity.
Qed.

Lemma denseRows_S existing categories t n :
  denseRows existing categories t (S n)
  = entryFor existing categories (toISODate t)
    :: denseRows existing categories (t + msPerDay) n.
Proof.
  unfold denseRows. simpl. rewrite dayOfInterval_0. f_equal.
  rewrite <- seq_shift, map_map.
  apply map_ext. intros i. unfold dayOfInterval.
  replace (t + Z.of_nat (S i) * msPerDay) with (t + msPerDay + Z.of_nat i * msPerDay)
    by (unfold msPerDay; lia).
  reflexivity.
Qed.

Lemma iterations_step (currentDate endDate : Z) :
  currentDate <= endDate ->
  iterations currentDate endDate = S (iterations (currentDate + msPerDay) endDate).
Proof.
  unfold iterations, dayCount, days_between, msPerDay. intros Hle.
  destruct (currentDate <=? endDate)%Z eqn:E1; [| lia].
  destruct (currentDate + 86400000 <=? endDate)%Z eqn:E2.
  - apply Z.leb_le in E2.
    replace (endDate - (currentDate + 86400000))
      with (endDate - currentDate + (-1) * 86400000) by lia.
    rewrite Z.div_add by lia.
    assert (1 <= (endDate - currentDate) / 86400000)
      by (apply Z.div_le_lower_bound; lia).
    lia.
  - apply Z.leb_gt in E2.
    rewrite Z.div_small by lia. reflexivity.
Qed.

(** With enough fuel the loop ends and leaves one entry per iteration. *)
Lemma fillLoop_spec h offset existing endDate categories :
  forall fuel currentDate filledData,
    keepsOffset h offset currentDate endDate ->
    (iterations currentDate endDate <= fuel)%nat ->
    fillLoop h fuel existing endDate categories currentDate filledData
    = Returns (filledData
               ++ denseRows existing categories currentDate
                    (iterations currentDate endDate))%list.
Proof.
  induction fuel as [|fuel IH]; intros currentDate filledData Hh Hfuel.
  - simpl. destruct (currentDate <=? endDate)%Z eqn:E.
    + apply Z.leb_le in E. rewrite (iterations_step _ _ E) in Hfuel. lia.
    + unfold iterations. rewrite E. simpl. now rewrite app_nil_r.
  - simpl. destruct (currentDate <=? endDate)%Z eqn:E.
    + apply Z.leb_le in E. rewrite (iterations_step _ _ E) in *.
      rewrite (keepsOffset_nextDay h offset _ _ Hh E).
      rewrite IH; [| eapply keepsOffset_from; [exact Hh | unfold msPerDay; lia] | lia].
      rewrite denseRows_S. rewrite <- app_assoc. reflexivity.
    + unfold iterations. rewrite E. simpl. now rewrite app_nil_r.
Qed.

(** Without enough fuel the model stops short. *)
Lemma fillLoop_short h offset existing endDate categories :
  forall fuel currentDate filledData,
    keepsOffset h offset currentDate endDate ->
    (fuel < iterations currentDate endDate)%nat ->
    fillLoop h fuel existing endDate categories currentDate filledData = OutOfFuel.
Proof.
  induction fuel as [|fuel IH]; intros currentDate filledData Hh Hfuel.
  - simpl. destruct (currentDate <=? endDate)%Z eqn:E; [reflexivity|].
    unfold iterations in Hfuel. rewrite E in Hfuel. lia.
  - simpl. destruct (currentDate <=? endDate)%Z eqn:E.
    + apply Z.leb_le in E. rewrite (iterations_step _ _ E) in Hfuel.
      rewrite (keepsOffset_nextDay h offset _ _ Hh E).
      apply IH; [eapply keepsOffset_from; [exact Hh | unfold msPerDay; lia] | lia].
    + unfold iterations in Hfuel. rewrite E in Hfuel. lia.
Qed.

(** *** The rows of a day *)

Lemma rows_of_day h rows s :
  wellFormed h rows ->
  noRowOf h rows s \/ exists item, lastRowOf h rows s item.
Proof.
  induction 1 as [|item rows [s' Hs'] _ IH].
  - left. constructor.
  - destruct IH as [Hno | (item' & before & after & -> & Hn & Hafter)].
    + destruct (String.string_dec s' s) as [->|Hne].
      * right. exists item, [], rows. repeat split; auto.
      * left. constructor; [| exact Hno].
        intros Hs. apply Hne. eauto using normalizedDate_fun.
    + right. exists item', (item :: before), after. repeat split; auto.
Qed.

Lemma iterations_dayCount (startDate endDate : Z) :
  iterations startDate endDate = dayCount startDate endDate.
Proof.
  unfold iterations. destruct (startDate <=? endDate)%Z eqn:E; [reflexivity|].
  apply Z.leb_gt in E. unfold dayCount, days_between, msPerDay.
  assert ((endDate - startDate) / 86400000 < 0)
    by (apply Z.div_lt_upper_bound; lia).
  lia.
Qed.

Lemma days_between_nonneg (startDate endDate : Z) :
  startDate <= endDate -> 0 <= days_between startDate endDate.
Proof.
  intros H. unfold days_between, msPerDay. apply Z.div_pos; lia.
Qed.

(** A day of the interval is not past the end date. *)
Lemma day_in_interval (startDate endDate : Z) (i : nat) :
  (i < dayCount startDate endDate)%nat ->
  startDate <= startDate + Z.of_nat i * msPerDay <= endDate.
Proof.
  unfold dayCount, days_between, msPerDay. intros Hi.
  assert (Z.of_nat i <= (endDate - startDate) / 86400000) by lia.
  pose proof (Z.mul_div_le (endDate - startDate) 86400000 eq_refl).
  nia.
Qed.

Lemma dayOfInterval_inj (startDate endDate : Z) (i j : nat) :
  validTime startDate -> validTime endDate ->
  (i < dayCount startDate endDate)%nat -> (j < dayCount startDate endDate)%nat ->
  dayOfInterval startDate i = dayOfInterval startDate j -> i = j.
Proof.
  intros Hs He Hi Hj H.
  apply day_in_interval in Hi, Hj.
  unfold dayOfInterval in H. apply toISODate_inj in H.
  - unfold Day in H. rewrite !Z.div_add in H by (unfold msPerDay; lia). lia.
  - unfold validTime in *. lia.
  - unfold validTime in *. lia.
Qed.

Lemma denseRows_lookup existing categories startDate n i :
  (i < n)%nat ->
  denseRows existing categories startDate n !! i
  = Some (entryFor existing categories (dayOfInterval startDate i)).
Proof.
  intros Hi. unfold denseRows.
  rewrite list_lookup_fmap, lookup_seq_lt by exact Hi. reflexivity.
Qed.

Lemma length_denseRows existing categories startDate n :
  length (denseRows existing categories startDate n) = n.
Proof. unfold denseRows. now rewrite length_map, length_seq. Qed.

(** What [fillMissingDates] returns on well-formed rows. *)
Lemma fillMissingDates_returns h rows startDate endDate categories fuel :
  clocksUnchanged h startDate endDate ->
  wellFormed h rows ->
  (dayCount startDate endDate <= fuel)%nat ->
  exists existing,
    existingDates h rows = Returns existing
    /\ fillMissingDates h fuel rows startDate endDate categories
       = Returns (denseRows existing categories startDate
                            (dayCount startDate endDate)).
Proof.
  intros [offset Hh] Hwf Hfuel.
  destruct (existingDates_wellFormed h rows Hwf) as (existing & He & _).
  exists existing. split; [exact He|].
  unfold fillMissingDates. rewrite He. simpl.
  rewrite (fillLoop_spec h offset) by (auto; now rewrite iterations_dayCount).
  now rewrite iterations_dayCount.
Qed.

(** The entries of the result, day by day. *)
Lemma fillMissingDates_spec
    (h : Host) (rows : list Obj) (startDate endDate : Z)
    (categories : list string) (fuel : nat) :
  clocksUnchanged h startDate endDate ->
  startDate <= endDate ->
  wellFormed h rows ->
  (dayCount startDate endDate <= fuel)%nat ->
  exists filledData,
    fillMissingDates h fuel rows startDate endDate categories = Returns filledData
    /\ Z.of_nat (length filledData) = days_between startDate endDate + 1
    /\ (forall i, (i < length filledData)%nat ->
          exists entry,
            filledData !! i = Some entry
            /\ getProp entry "date" = VStr (dayOfInterval startDate i)
            /\ dayOfInterval startDate i = isoDateOfDay (Day startDate + Z.of_nat i)
            /\ ((exists item,
                   lastRowOf h rows (dayOfInterval startDate i) item
                   /\ entry = setProp item "date" (VStr (dayOfInterval startDate i)))
                \/ (noRowOf h rows (dayOfInterval startDate i)
                    /\ getOwn entry "api_requests" = Some zero
                    /\ getOwn entry "total_tokens" = Some zero
                    /\ forall c, c ∈ categories -> c <> "date" ->
                                 inherited c = false ->
                                 getOwn entry c = Some zero)))
    /\ (forall item s,
          item ∈ rows -> normalizedDate h item s ->
          (forall i, (i < length filledData)%nat -> s <> dayOfInterval startDate i) ->
          forall entry, entry ∈ filledData -> getProp entry "date" <> VStr s)
    /\ (validTime startDate -> validTime endDate ->
        forall i j, (i < j < length filledData)%nat ->
                    dayOfInterval startDate i <> dayOfInterval startDate j).
Proof.
  intros Hh Hle Hwf Hfuel.
  destruct (fillMissingDates_returns h rows startDate endDate categories fuel Hh Hwf Hfuel)
    as (existing & He & Hfill).
  destruct (existingDates_wellFormed h rows Hwf) as (existing' & He' & Hlast & Hnone & Hsome).
  assert (existing' = existing) by congruence. subst existing'.
  set (n := dayCount startDate endDate) in *.
  exists (denseRows existing categories startDate n).
  rewrite length_denseRows.
  assert (Hentry : forall i, (i < n)%nat ->
            exists entry,
              denseRows existing categories startDate n !! i = Some entry
              /\ getProp entry "date" = VStr (dayOfInterval startDate i)
              /\ dayOfInterval startDate i = isoDateOfDay (Day startDate + Z.of_nat i)
              /\ ((exists item,
                     lastRowOf h rows (dayOfInterval startDate i) item
                     /\ entry = setProp item "date" (VStr (dayOfInterval startDate i)))
                  \/ (noRowOf h rows (dayOfInterval startDate i)
                      /\ getOwn entry "api_requests" = Some zero
                      /\ getOwn entry "total_tokens" = Some zero
                      /\ forall c, c ∈ categories -> c <> "date" ->
                                   inherited c = false ->
                                   getOwn entry c = Some zero))).
  { intros i Hi. rewrite denseRows_lookup by exact Hi.
    eexists. split; [reflexivity|].
    unfold entryFor.
    destruct (existing !! dayOfInterval startDate i) as [row|] eqn:Elook.
    - destruct (Hsome _ _ Elook) as (item & Hitem & ->).
      split; [apply getProp_setProp_eq|].
      split; [apply dayOfInterval_Day|].
      left. exists item. split; [exact Hitem | reflexivity].
    - assert (Hne : dayOfInterval startDate i <> "").
      { rewrite dayOfInterval_Day. apply isoDateOfDay_nonempty. }
      destruct (emptyEntry_spec _ categories Hne) as (Hd & Ha & Ht & Hc).
      split; [exact Hd|].
      split; [apply dayOfInterval_Day|].
      right. split; [| auto].
      destruct (rows_of_day h rows (dayOfInterval startDate i) Hwf) as [Hno | (item & Hitem)];
        [exact Hno|].
      rewrite (Hlast _ _ Hitem) in Elook. discriminate. }
  split; [exact Hfill|].
  split.
  { unfold n, dayCount. pose proof (days_between_nonneg _ _ Hle). lia. }
  split; [exact Hentry|].
  split.
  - intros item s _ _ Hout entry Hin Hdate.
    apply list_elem_of_lookup in Hin as [i Hi].
    assert (Hlt : (i < n)%nat).
    { apply lookup_lt_Some in Hi. now rewrite length_denseRows in Hi. }
    destruct (Hentry i Hlt) as (entry' & Hi' & Hd & _).
    assert (entry' = entry) by congruence. subst entry'.
    apply (Hout i Hlt). congruence.
  - intros Hvs Hve i j [Hij Hj] Heq.
    apply (dayOfInterval_inj startDate endDate) in Heq; auto; unfold n in *; lia.
Qed.

Lemma lastRowOf_unique h rows s item item' :
  lastRowOf h rows s item -> lastRowOf h rows s item' -> item = item'.
Proof.
  intros (b & a & Hr & Hn & Ha) (b' & a' & Hr' & Hn' & Ha').
  assert (Hsplit : b = b' /\ item = item' /\ a = a'); [| tauto].
  clear -Hr Hr' Hn Hn' Ha Ha'. subst rows. revert b' Hr'.
  induction b as [|x b IH]; intros [|x' b'] Hr'; simpl in Hr'.
  - now injection Hr' as -> ->.
  - injection Hr' as -> ->.
    apply Forall_app in Ha as [_ Ha]. apply Forall_cons in Ha as [Ha _]. contradiction.
  - injection Hr' as -> <-.
    apply Forall_app in Ha' as [_ Ha']. apply Forall_cons in Ha' as [Ha' _]. contradiction.
  - injection Hr' as -> Hr'. destruct (IH _ Hr') as (-> & -> & ->). auto.
Qed.

Lemma lastRowOf_not_noRowOf h rows s item :
  lastRowOf h rows s item -> noRowOf h rows s -> False.
Proof.
  intros (b & a & -> & Hn & _) Hno.
  apply Forall_app in Hno as [_ Hno]. apply Forall_cons in Hno as [Hno _]. contradiction.
Qed.

Lemma fixedOffset_utcHost (year : Z) : fixedOffset (utcHost year).
Proof. exists 0. reflexivity. Qed.

End FillerFacts.

(** ** The calendar, month by month *)

Module CalendarMonths.

Import Js JsDate MonthRange.

(** The first day of a month in a year that starts in March. *)
Lemma monthStart_values (mp : Z) :
  0 <= mp <= 12 ->
  (153 * mp + 2) / 5
  = nth (Z.to_nat mp) [0; 31; 61; 92; 122; 153; 184; 214; 245; 275; 306; 337; 367] 0.
Proof.
  intros H.
  assert (Hc : mp = 0 \/ mp = 1 \/ mp = 2 \/ mp = 3 \/ mp = 4 \/ mp = 5 \/ mp = 6
               \/ mp = 7 \/ mp = 8 \/ mp = 9 \/ mp = 10 \/ mp = 11 \/ mp = 12) by lia.
  repeat (destruct Hc as [-> | Hc]; [reflexivity|]). by subst.
Qed.

Lemma monthDayOfYearDay_inv (mp d : Z) :
  0 <= mp <= 11 -> 1 <= d ->
  (153 * mp + 2) / 5 + d - 1 < (153 * (mp + 1) + 2) / 5 ->
  monthDayOfYearDay ((153 * mp + 2) / 5 + d - 1)
  = (if (mp <? 10)%Z then mp + 3 else mp - 9, d).
Proof.
  intros Hmp Hd Hlt.
  pose proof (Z.mul_div_le (153 * mp + 2) 5 ltac:(lia)) as H1.
  pose proof (Z.mul_succ_div_gt (153 * mp + 2) 5 ltac:(lia)) as H2.
  pose proof (Z.mul_div_le (153 * (mp + 1) + 2) 5 ltac:(lia)) as H3.
  set (s := (153 * mp + 2) / 5) in *.
  set (s' := (153 * (mp + 1) + 2) / 5) in *.
  unfold monthDayOfYearDay.
  assert (Hq : (5 * (s + d - 1) + 2) / 153 = mp).
  { symmetry. apply Z.div_unique with (r := 5 * (s + d - 1) + 2 - 153 * mp); lia. }
  rewrite Hq. fold s. f_equal. lia.
Qed.

(** The year of a cycle of 400 years and the day of that year are
    found again from the day of the cycle. *)
Lemma day_of_era_inv (yoe doy : Z) :
  0 <= yoe < 400 -> 0 <= doy <= 365 ->
  (doy = 365 -> yoe mod 4 = 3 /\ (yoe mod 100 = 99 -> yoe = 399)) ->
  let doe := yoe * 365 + yoe / 4 - yoe / 100 + doy in
  let century := Z.min (doe / 36524) 3 in
  let doc := doe - century * 36524 in
  let cycle := doc / 1461 in
  let doq := doc mod 1461 in
  let yearOfCycle := Z.min (doq / 365) 3 in
  0 <= doe < 146097
  /\ century * 100 + cycle * 4 + yearOfCycle = yoe
  /\ doq - yearOfCycle * 365 = doy.
Proof.
  intros Hyoe Hdoy Hleap. cbv zeta.
  pose proof (Z.div_mod yoe 100 ltac:(lia)) as Hc.
  pose proof (Z.mod_pos_bound yoe 100 ltac:(lia)) as Hr.
  set (c := yoe / 100) in *. set (r := yoe mod 100) in *.
  pose proof (Z.div_mod r 4 ltac:(lia)) as Hq.
  pose proof (Z.mod_pos_bound r 4 ltac:(lia)) as Ht.
  set (q := r / 4) in *. set (t := r mod 4) in *.
  assert (Hc3 : 0 <= c <= 3) by lia.
  assert (Hq24 : 0 <= q <= 24) by lia.
  assert (Hy4 : yoe / 4 = 25 * c + q).
  { symmetry. apply Z.div_unique with (r := t); lia. }
  assert (Hm4 : yoe mod 4 = t).
  { symmetry. apply Z.mod_unique with (q := 25 * c + q); lia. }
  rewrite Hy4.
  assert (Hdoe : yoe * 365 + (25 * c + q) - c + doy
                 = 36524 * c + 1461 * q + 365 * t + doy) by lia.
  rewrite Hdoe.
  assert (Hlast : doy = 365 -> t = 3 /\ (r = 99 -> c = 3)).
  { intros H365. destruct (Hleap H365) as [H4 H100]. split; [lia|].
    intros H99. fold r in H100. specialize (H100 H99). lia. }
  clearbody c r q t.
  assert (Hrest : 0 <= 1461 * q + 365 * t + doy <= 36524
                  /\ (1461 * q + 365 * t + doy = 36524 -> c = 3)).
  { split; [lia|]. intros Heq. assert (doy = 365) by lia.
    destruct (Hlast H) as [-> Hr99]. apply Hr99. lia. }
  assert (Hcentury : Z.min ((36524 * c + 1461 * q + 365 * t + doy) / 36524) 3 = c).
  { destruct (Z.eq_dec (1461 * q + 365 * t + doy) 36524) as [Heq|Hne].
    - assert (c = 3) by (by apply Hrest). subst c.
      assert (Hd : (36524 * 3 + 1461 * q + 365 * t + doy) / 36524 = 4).
      { symmetry. apply Z.div_unique with (r := 0); lia. }
      rewrite Hd. reflexivity.
    - assert (Hd : (36524 * c + 1461 * q + 365 * t + doy) / 36524 = c).
      { symmetry. apply Z.div_unique with (r := 1461 * q + 365 * t + doy); lia. }
      rewrite Hd. lia. }
  rewrite Hcentury.
  replace (36524 * c + 1461 * q + 365 * t + doy - c * 36524)
    with (1461 * q + (365 * t + doy)) by lia.
  assert (Hin : 0 <= 365 * t + doy < 1461).
  { destruct (Z.eq_dec doy 365) as [H365|Hne]; [destruct (Hlast H365); lia | lia]. }
  assert (Hcycle : (1461 * q + (365 * t + doy)) / 1461 = q).
  { symmetry. apply Z.div_unique with (r := 365 * t + doy); lia. }
  assert (Hdoq : (1461 * q + (365 * t + doy)) mod 1461 = 365 * t + doy).
  { symmetry. apply Z.mod_unique with (q := q); lia. }
  rewrite Hcycle, Hdoq.
  assert (Hyear : Z.min ((365 * t + doy) / 365) 3 = t).
  { destruct (Z.eq_dec doy 365) as [H365|Hne].
    - destruct (Hlast H365) as [-> _]. subst doy. reflexivity.
    - assert (Hd : (365 * t + doy) / 365 = t).
      { symmetry. apply Z.div_unique with (r := doy); lia. }
      rewrite Hd. lia. }
  rewrite Hyear. lia.
Qed.

(** The days of a month, counted from the first of the next. *)
Lemma valid_day_of_year (y m d : Z) :
  1 <= m <= 12 -> 1 <= d <= daysInMonth y m ->
  let y' := if (m <=? 2)%Z then y - 1 else y in
  let mp := if (m <=? 2)%Z then m + 9 else m - 3 in
  let doy := (153 * mp + 2) / 5 + d - 1 in
  0 <= mp <= 11
  /\ 0 <= doy <= 365
  /\ doy < (153 * (mp + 1) + 2) / 5
  /\ (doy = 365 ->
      (y' mod 400) mod 4 = 3 /\ ((y' mod 400) mod 100 = 99 -> y' mod 400 = 399)).
Proof.
  intros Hm Hd. cbv zeta.
  assert (Hmp : 0 <= (if (m <=? 2)%Z then m + 9 else m - 3) <= 11)
    by (destruct (Z.leb_spec m 2); lia).
  set (mp := if (m <=? 2)%Z then m + 9 else m - 3) in *.
  rewrite (monthStart_values mp), (monthStart_values (mp + 1)) by lia.
  unfold daysInMonth, isLeapYear in Hd.
  assert (Hc : m = 1 \/ m = 2 \/ m = 3 \/ m = 4 \/ m = 5 \/ m = 6 \/ m = 7
               \/ m = 8 \/ m = 9 \/ m = 10 \/ m = 11 \/ m = 12) by lia.
  destruct Hc as [-> | [-> | Hc]].
  - simpl in *. repeat split; lia.
  - simpl in *.
    destruct (Z.eqb_spec (y mod 4) 0) as [H4|H4];
      destruct (Z.eqb_spec (y mod 100) 0) as [H100|H100];
      destruct (Z.eqb_spec (y mod 400) 0) as [H400|H400]; simpl in Hd;
      repeat split; try lia;
      intros; try lia;
      try (pose proof (Z.mod_pos_bound y 4 ltac:(lia));
           pose proof (Z.mod_pos_bound y 100 ltac:(lia));
           pose proof (Z.mod_pos_bound y 400 ltac:(lia));
           pose proof (Z.div_mod y 4 ltac:(lia));
           pose proof (Z.div_mod y 100 ltac:(lia));
           pose proof (Z.div_mod y 400 ltac:(lia));
           pose proof (Z.div_mod (y - 1) 400 ltac:(lia));
           pose proof (Z.mod_pos_bound (y - 1) 400 ltac:(lia));
           pose proof (Z.div_mod ((y - 1) mod 400) 4 ltac:(lia));
           pose proof (Z.mod_pos_bound ((y - 1) mod 400) 4 ltac:(lia));
           pose proof (Z.div_mod ((y - 1) mod 400) 100 ltac:(lia));
           pose proof (Z.mod_pos_bound ((y - 1) mod 400) 100 ltac:(lia));
           lia).
  - assert (Hgt : (m <=? 2)%Z = false) by (apply Z.leb_gt; lia).
    unfold mp. rewrite Hgt.
    repeat (destruct Hc as [-> | Hc]; [simpl in *; repeat split; lia|]).
    subst m. simpl in *. repeat split; lia.
Qed.

(** The date of a day number is the date the day number was made of. *)
Lemma civilFromDays_daysFromCivil (y m d : Z) :
  1 <= m <= 12 -> 1 <= d <= daysInMonth y m ->
  civilFromDays (daysFromCivil y m d) = (y, m, d).
Proof.
  intros Hm Hd.
  destruct (valid_day_of_year y m d Hm Hd) as (Hmp & Hdoy & Hlt & Hleap).
  unfold daysFromCivil. cbv zeta.
  set (y' := if (m <=? 2)%Z then y - 1 else y) in *.
  set (mp := if (m <=? 2)%Z then m + 9 else m - 3) in *.
  set (doy := (153 * mp + 2) / 5 + d - 1) in *.
  pose proof (Z.div_mod y' 400 ltac:(lia)) as Hy.
  pose proof (Z.mod_pos_bound y' 400 ltac:(lia)) as Hyoe.
  set (era := y' / 400) in *. set (yoe := y' mod 400) in *.
  destruct (day_of_era_inv yoe doy Hyoe Hdoy Hleap) as (Hdoe & Hyear & Hday).
  set (doe := yoe * 365 + yoe / 4 - yoe / 100 + doy) in *.
  unfold civilFromDays. cbv zeta.
  replace (era * 146097 + doe - 719468 + 719468) with (146097 * era + doe) by lia.
  assert (He : (146097 * era + doe) / 146097 = era).
  { symmetry. apply Z.div_unique with (r := doe); lia. }
  assert (Hr : (146097 * era + doe) mod 146097 = doe).
  { symmetry. apply Z.mod_unique with (q := era); lia. }
  rewrite He, Hr, Hday, Hyear.
  unfold doy. rewrite (monthDayOfYearDay_inv mp d) by (fold doy; lia).
  unfold mp, y' in *.
  destruct (Z.leb_spec m 2).
  - assert (Hlt10 : (m + 9 <? 10)%Z = false) by (apply Z.ltb_ge; lia).
    rewrite Hlt10.
    assert (Hle2 : (m + 9 - 9 <=? 2)%Z = true) by (apply Z.leb_le; lia).
    rewrite Hle2. repeat f_equal; lia.
  - assert (Hlt10 : (m - 3 <? 10)%Z = true) by (apply Z.ltb_lt; lia).
    rewrite Hlt10.
    assert (Hle2 : (m - 3 + 3 <=? 2)%Z = false) by (apply Z.leb_gt; lia).
    rewrite Hle2. repeat f_equal; lia.
Qed.

Ltac month_starts :=
  repeat match goal with
         | |- context [(153 * ?k + 2) / 5] =>
             let v := eval vm_compute in ((153 * k + 2) / 5) in
             change ((153 * k + 2) / 5) with v
         end.

(** The first day of the next month comes a month later. *)
Lemma february_length (y : Z) :
  daysFromCivil y 3 1 = daysFromCivil y 2 1 + (if isLeapYear y then 29 else 28).
Proof.
  unfold daysFromCivil, isLeapYear. simpl.
  month_starts.
  pose proof (Z.mod_pos_bound y 4 ltac:(lia)).
  pose proof (Z.mod_pos_bound y 100 ltac:(lia)).
  pose proof (Z.mod_pos_bound y 400 ltac:(lia)).
  pose proof (Z.div_mod y 4 ltac:(lia)).
  pose proof (Z.div_mod y 100 ltac:(lia)).
  pose proof (Z.div_mod y 400 ltac:(lia)).
  pose proof (Z.div_mod (y - 1) 400 ltac:(lia)).
  pose proof (Z.mod_pos_bound (y - 1) 400 ltac:(lia)).
  pose proof (Z.div_mod (y mod 400) 4 ltac:(lia)).
  pose proof (Z.mod_pos_bound (y mod 400) 4 ltac:(lia)).
  pose proof (Z.div_mod (y mod 400) 100 ltac:(lia)).
  pose proof (Z.mod_pos_bound (y mod 400) 100 ltac:(lia)).
  pose proof (Z.div_mod ((y - 1) mod 400) 4 ltac:(lia)).
  pose proof (Z.mod_pos_bound ((y - 1) mod 400) 4 ltac:(lia)).
  pose proof (Z.div_mod ((y - 1) mod 400) 100 ltac:(lia)).
  pose proof (Z.mod_pos_bound ((y - 1) mod 400) 100 ltac:(lia)).
  destruct (Z.eqb_spec (y mod 4) 0); destruct (Z.eqb_spec (y mod 100) 0);
    destruct (Z.eqb_spec (y mod 400) 0); simpl; lia.
Qed.

Lemma month_length (y m : Z) :
  1 <= m <= 12 ->
  daysFromCivil (nextMonth y m).1 (nextMonth y m).2 1
  = daysFromCivil y m 1 + daysInMonth y m.
Proof.
  intros Hm.
  assert (Hc : m = 1 \/ m = 2 \/ m = 3 \/ m = 4 \/ m = 5 \/ m = 6 \/ m = 7
               \/ m = 8 \/ m = 9 \/ m = 10 \/ m = 11 \/ m = 12) by lia.
  destruct Hc as [-> | [-> | Hc]].
  - unfold nextMonth, daysInMonth, daysFromCivil. simpl.
    month_starts. lia.
  - apply february_length.
  - repeat (destruct Hc as [-> | Hc];
      [unfold nextMonth, daysInMonth, daysFromCivil; simpl; month_starts; lia|]).
    subst m. unfold nextMonth, daysInMonth, daysFromCivil. simpl.
    month_starts. replace (y + 1 - 1) with y by lia. lia.
Qed.

Lemma daysInMonth_bounds (y m : Z) : 28 <= daysInMonth y m <= 31.
Proof.
  unfold daysInMonth. repeat case_match; lia.
Qed.

End CalendarMonths.

(** ** The filler on the calendar of the user *)

Module DatedRows.

Import Js JsDate DateRangeFiller Calendar IsoDate FillerFacts CalendarMonths.

(** *** The date that a date string names is the one the helper returns *)















(** *** The days of the loop are the days of the local calendar *)



(** *** Zones in which the callers' local midnights are UTC days *)

Lemma keepsOffset_zoneHost (year offset startDate endDate : Z) :
  keepsOffset (zoneHost year offset) offset startDate endDate.
Proof. intros t _. split; reflexivity. Qed.

Lemma clocksUnchanged_zoneHost (year offset startDate endDate : Z) :
  clocksUnchanged (zoneHost year offset) startDate endDate.
Proof. exists offset. apply keepsOffset_zoneHost. Qed.

Lemma clocksUnchanged_utcHost (year startDate endDate : Z) :
  clocksUnchanged (utcHost year) startDate endDate.
Proof. exists 0. intros t _. split; reflexivity. Qed.

End DatedRows.

(** *** What the filler returns *)

Module FillerTheorems.

Import Js JsDate DateRangeFiller Calendar IsoDate FillerFacts DatedRows.








(** C10 on the code.  In London the loop over March 2025 visits the UTC
    day 2025-03-30 twice, once before and once after the clocks go
    forward, so that of two rows for that day the last one is emitted
    twice: the output has two entries for the day, not one (and none for
    2025-03-31). *)
Theorem C10_clock_change_emits_a_day_twice :
  exists filledData,
    fillMissingDates londonHost 31
      [ [("date", VStr "2025-03-30"); ("api_requests", num 5)];
        [("date", VStr "2025-03-30"); ("api_requests", num 7)] ]
      1740787200000 1743375600000 []
    = Returns filledData
    /\ length filledData = 31%nat
    /\ filledData !! 29%nat = Some [("date", VStr "2025-03-30"); ("api_requests", num 7)]
    /\ filledData !! 30%nat = Some [("date", VStr "2025-03-30"); ("api_requests", num 7)].
Proof.
  eexists. split; [vm_compute; reflexivity|]. repeat split.
Qed.

End FillerTheorems.

(** ** RequestDeduplicator *)

Module DeduplicatorFacts.

Import Js RequestDeduplicator.

Lemma consistent_init : consistent init.
Proof. split; unfold init; simpl; intros; simplify_map_eq. Qed.

Lemma consistent_call key request st :
  consistent st -> consistent (deduplicatedRequest key request st).2.
Proof.
  intros [H1 H2 H3 H4 H5]. unfold deduplicatedRequest.
  destruct (requestCache st !! key) as [cached|] eqn:Ecache; simpl.
  { split; assumption. }
  destruct request as [|e]; simpl.
  2: { split; simpl; assumption. }
  assert (Hfresh : reactions st !! nextId st = None).
  { destruct (reactions st !! nextId st) as [[k q]|] eqn:E; [| reflexivity].
    apply H3 in E as [_ ?]. lia. }
  assert (Hfresh' : reactions st !! S (nextId st) = None).
  { destruct (reactions st !! S (nextId st)) as [[k q]|] eqn:E; [| reflexivity].
    apply H3 in E as [_ ?]. lia. }
  split; simpl.
  - intros k q Hk.
    destruct (decide (key = k)) as [<-|Hne].
    + rewrite lookup_insert_eq in Hk. injection Hk as <-.
      exists (nextId st). rewrite lookup_insert_eq.
      rewrite lookup_insert_ne by lia. rewrite lookup_insert_eq. auto.
    + rewrite lookup_insert_ne in Hk by exact Hne.
      destruct (H1 _ _ Hk) as (p & Hr & Hp).
      pose proof (H3 _ _ _ Hr) as [-> Hlt].
      exists p. rewrite !lookup_insert_ne by lia. auto.
  - intros p k q Hr Hp.
    destruct (decide (nextId st = p)) as [<-|Hne].
    + rewrite lookup_insert_eq in Hr. injection Hr as <- <-.
      apply lookup_insert_eq.
    + rewrite lookup_insert_ne in Hr by exact Hne.
      pose proof (H3 _ _ _ Hr) as [-> Hlt].
      rewrite !lookup_insert_ne in Hp by lia.
      destruct (decide (key = k)) as [<-|Hk].
      * rewrite (H2 _ _ _ Hr Hp) in Ecache. discriminate.
      * rewrite lookup_insert_ne by exact Hk. eauto.
  - intros p k q Hr.
    destruct (decide (nextId st = p)) as [<-|Hne].
    + rewrite lookup_insert_eq in Hr. injection Hr as <- <-. split; [reflexivity | lia].
    + rewrite lookup_insert_ne in Hr by exact Hne.
      destruct (H3 _ _ _ Hr) as [-> Hlt]. split; [reflexivity | lia].
  - intros p k q Hr.
    destruct (decide (nextId st = p)) as [<-|Hne].
    + rewrite lookup_insert_eq in Hr. injection Hr as <- <-.
      rewrite lookup_insert_ne by lia. exact Hfresh'.
    + rewrite lookup_insert_ne in Hr by exact Hne.
      pose proof (H3 _ _ _ Hr) as [-> Hlt].
      rewrite lookup_insert_ne by lia. eauto.
  - intros p k q Hr.
    destruct (decide (nextId st = p)) as [<-|Hne].
    + rewrite lookup_insert_eq in Hr. injection Hr as <- <-.
      rewrite lookup_insert_eq. rewrite lookup_insert_ne by lia.
      now rewrite lookup_insert_eq.
    + rewrite lookup_insert_ne in Hr by exact Hne.
      pose proof (H3 _ _ _ Hr) as [-> Hlt].
      rewrite !lookup_insert_ne by lia. eauto.
Qed.

Lemma consistent_settle p o st :
  consistent st -> consistent (settle p o st).
Proof.
  intros [H1 H2 H3 H4 H5]. unfold settle.
  destruct (promises st !! p) as [[|o']|] eqn:Ep; try (split; assumption).
  destruct (reactions st !! p) as [[key promise]|] eqn:Er; try (split; assumption).
  pose proof (H3 _ _ _ Er) as [-> Hlt].
  split; simpl.
  - intros k q Hk.
    destruct (decide (key = k)) as [<-|Hne].
    + rewrite lookup_delete_eq in Hk. discriminate.
    + rewrite lookup_delete_ne in Hk by exact Hne.
      destruct (H1 _ _ Hk) as (p' & Hr' & Hp').
      pose proof (H3 _ _ _ Hr') as [-> Hlt'].
      exists p'. split; [exact Hr'|].
      assert (p' <> p) by (intros ->; congruence).
      assert (p' <> S p).
      { intros ->. rewrite (H4 _ _ _ Er) in Hr'. discriminate. }
      now rewrite !lookup_insert_ne by auto.
  - intros p' k q Hr' Hp'.
    pose proof (H3 _ _ _ Hr') as [-> Hlt'].
    destruct (decide (p' = p)) as [->|Hne].
    + rewrite lookup_insert_ne in Hp' by lia.
      rewrite lookup_insert_eq in Hp'. discriminate.
    + assert (p' <> S p).
      { intros ->. rewrite (H4 _ _ _ Er) in Hr'. discriminate. }
      rewrite !lookup_insert_ne in Hp' by auto.
      destruct (decide (key = k)) as [<-|Hk].
      * pose proof (H2 _ _ _ Er Ep) as Hc1. pose proof (H2 _ _ _ Hr' Hp') as Hc2.
        rewrite Hc1 in Hc2. injection Hc2 as ?. lia.
      * rewrite lookup_delete_ne by exact Hk. eauto.
  - eauto.
  - eauto.
  - intros p' k q Hr'.
    pose proof (H3 _ _ _ Hr') as [-> Hlt'].
    destruct (decide (p' = p)) as [->|Hne].
    + rewrite lookup_insert_eq. rewrite lookup_insert_ne by lia.
      now rewrite lookup_insert_eq.
    + assert (p' <> S p).
      { intros ->. rewrite (H4 _ _ _ Er) in Hr'. discriminate. }
      assert (S p' <> p).
      { intros <-. rewrite (H4 _ _ _ Hr') in Er. discriminate. }
      rewrite !lookup_insert_ne by lia. eauto.
Qed.

Lemma consistent_step st e : consistent st -> consistent (step st e).
Proof.
  destruct e; simpl; auto using consistent_call, consistent_settle.
Qed.

Lemma consistent_foldl events : forall st, consistent st -> consistent (foldl step st events).
Proof.
  induction events as [|e events IH]; simpl; auto using consistent_step.
Qed.

(** Every state the page can reach is consistent. *)
Lemma consistent_run events : consistent (run events).
Proof. apply consistent_foldl, consistent_init. Qed.

(** A trace of the page: two calls with the same key while the request is
    pending share one request; after it has settled (here with an error)
    the next call starts a new one. *)
Example dedup_trace :
  let st := run [ Call "teamSpendLogs" StartsRequest;
                  Call "teamSpendLogs" StartsRequest;
                  Settle 0%nat (Rejected (VStr "503"));
                  Call "teamSpendLogs" StartsRequest ] in
  factoryCalls st = ["teamSpendLogs"; "teamSpendLogs"]
  /\ promises st !! 1%nat = Some (Settled (Rejected (VStr "503")))
  /\ requestCache st !! "teamSpendLogs" = Some 3%nat.
Proof. vm_compute. repeat split. Qed.

(** C2.  In every state [st] that calls and settlements can lead to:
    a call with [key] that finds no entry invokes the factory and caches
    the promise it returns; a call with [key] while a request for [key]
    is pending returns that cached promise and leaves the state as it
    is, so the factory is not invoked again and both callers hold the
    same promise; when the request settles, with a value or with an
    error, the entry of [key] is gone, the promise the callers hold has
    settled in the same way, and the next call with [key] invokes the
    factory afresh; the cache has an entry for a key exactly when a
    request for it is outstanding; and no key has two outstanding
    requests. *)
Theorem C2_deduplicatedRequest_shares_pending_requests
    (events : list Event) (key : string) :
  let st := run events in
  (requestCache st !! key = None ->
   exists p promise st',
     deduplicatedRequest key StartsRequest st = (Returns promise, st')
     /\ requestCache st' !! key = Some promise
     /\ outstanding st' key p
     /\ factoryCalls st' = key :: factoryCalls st)
  /\ (forall p,
        outstanding st key p ->
        exists promise,
          requestCache st !! key = Some promise
          /\ reactions st !! p = Some (key, promise)
          /\ forall request,
               deduplicatedRequest key request st = (Returns promise, st))
  /\ (forall p promise o,
        outstanding st key p ->
        requestCache st !! key = Some promise ->
        let st' := settle p o st in
        requestCache st' !! key = None
        /\ promises st' !! promise = Some (Settled o)
        /\ (forall request,
              factoryCalls (deduplicatedRequest key request st').2
              = key :: factoryCalls st'))
  /\ (is_Some (requestCache st !! key) <-> exists p, outstanding st key p)
  /\ (forall p1 p2, outstanding st key p1 -> outstanding st key p2 -> p1 = p2).
Proof.
  intros st. pose proof (consistent_run events) as Hc. fold st in Hc.
  destruct Hc as [H1 H2 H3 H4 H5].
  split; [| split; [| split; [| split]]].
  - intros Hnone. unfold deduplicatedRequest. rewrite Hnone.
    eexists (nextId st), _, _. split; [reflexivity|]. simpl.
    split; [apply lookup_insert_eq|].
    split; [| reflexivity].
    split; simpl.
    + eexists. apply lookup_insert_eq.
    + rewrite lookup_insert_ne by lia. apply lookup_insert_eq.
  - intros p ((promise & Hr) & Hp).
    exists promise. split; [eauto|]. split; [exact Hr|].
    intros request. unfold deduplicatedRequest. now rewrite (H2 _ _ _ Hr Hp).
  - intros p promise o ((promise' & Hr) & Hp) Hcached st'.
    assert (promise' = promise).
    { pose proof (H2 _ _ _ Hr Hp) as Hc. congruence. }
    subst promise'.
    assert (Hst' : st' = {| requestCache := delete key (requestCache st);
                            promises := <[promise := Settled o]> (<[p := Settled o]> (promises st));
                            reactions := reactions st;
                            factoryCalls := factoryCalls st;
                            nextId := nextId st |}).
    { unfold st', settle. now rewrite Hp, Hr. }
    rewrite Hst'. simpl.
    split; [apply lookup_delete_eq|].
    split; [apply lookup_insert_eq|].
    intros request. unfold deduplicatedRequest. simpl.
    rewrite lookup_delete_eq. destruct request; reflexivity.
  - split.
    + intros [promise Hk]. destruct (H1 _ _ Hk) as (p & Hr & Hp).
      exists p. split; eauto.
    + intros (p & (promise & Hr) & Hp). exists promise. eauto.
  - intros p1 p2 ((q1 & Hr1) & Hp1) ((q2 & Hr2) & Hp2).
    pose proof (H2 _ _ _ Hr1 Hp1) as Hc1. pose proof (H2 _ _ _ Hr2 Hp2) as Hc2.
    rewrite Hc1 in Hc2. injection Hc2 as ->.
    destruct (H3 _ _ _ Hr1) as [E1 _], (H3 _ _ _ Hr2) as [E2 _]. lia.
Qed.

End DeduplicatorFacts.

(** ** LiveSpendStream *)

Module StreamFacts.

Import Js LiveSpendStream.





(** *** Reconnection *)

(** The source fails at time 0: nothing is connected before the five
    seconds are over, and a new source is opened when they are. *)
Example reconnect_after_delay :
  let failed := onerror 0%nat (connectToSpendStream (mountState (Some "sk-1"))) in
  timers failed = [5000]
  /\ openSources (advanceTo 4999 failed) = []
  /\ openSources (advanceTo 5000 failed) = [1%nat]
  /\ eventSourceRef (advanceTo 5000 failed) = Some 1%nat.
Proof. vm_compute. repeat split. Qed.

(** C4 on the code: the source fails at time 0, the view unmounts one
    second later, and at five seconds the timer set by [onerror] still
    fires: the cleanup has not cancelled it, and a new source is opened
    for a view that is gone. *)
Theorem C4_reconnect_fires_after_teardown :
  let failed := onerror 0%nat (connectToSpendStream (mountState (Some "sk-1"))) in
  let unmounted := cleanup (advanceTo 1000 failed) in
  mounted unmounted = false
  /\ timers unmounted = [5000]
  /\ openSources unmounted = []
  /\ mounted (advanceTo 5000 unmounted) = false
  /\ openSources (advanceTo 5000 unmounted) = [1%nat]
  /\ eventSourceRef (advanceTo 5000 unmounted) = Some 1%nat.
Proof. vm_compute. repeat split. Qed.

(** The cleanup leaves every pending timer in place, whatever the state. *)
Lemma cleanup_keeps_timers (st : StreamState) : timers (cleanup st) = timers st.
Proof. unfold cleanup. destruct (eventSourceRef st); reflexivity. Qed.

End StreamFacts.

(** ** ComponentLoadingTracker and DashboardOrchestrator *)

Module DashboardFacts.

Import Js Dashboard.

(** *** What launching and settling touch *)

Lemma launch_componentLoading st t :
  componentLoading (launch st t) = componentLoading st.
Proof. reflexivity. Qed.

Lemma foldl_launch_componentLoading ts : forall st,
  componentLoading (foldl launch st ts) = componentLoading st.
Proof. induction ts as [|t ts IH]; intros st; simpl; [reflexivity | now rewrite IH]. Qed.

Lemma foldl_launch_awaiting ts : forall st,
  awaiting (foldl launch st ts) = (awaiting st ++ ts)%list.
Proof.
  induction ts as [|t ts IH]; intros st; simpl.
  - now rewrite app_nil_r.
  - rewrite IH. simpl. now rewrite <- app_assoc.
Qed.

Lemma foldl_launch_proxySettings ts : forall st,
  proxySettings (foldl launch st ts) = proxySettings st.
Proof. induction ts as [|t ts IH]; intros st; simpl; [reflexivity | now rewrite IH]. Qed.

Lemma foldl_launch_stream ts : forall st,
  stream (foldl launch st ts) = stream st.
Proof. induction ts as [|t ts IH]; intros st; simpl; [reflexivity | now rewrite IH]. Qed.

(** A widget that no awaited call marks stays as it is. *)
Lemma settleTask_unmarked outcome w t m :
  (forall o, w ∉ marks t o) -> settleTask outcome m t w = m w.
Proof.
  intros Hw. unfold settleTask. specialize (Hw (outcome (endpoint t))).
  revert m. induction (marks t (outcome (endpoint t))) as [|x l IH]; intros m; simpl.
  - reflexivity.
  - rewrite IH by (intros ?; apply Hw; now right).
    unfold markComponentLoaded. destruct (decide (w = x)) as [->|]; [| reflexivity].
    exfalso. apply Hw. now left.
Qed.

Lemma settle_unmarked outcome w ts : forall m,
  Forall (fun t => forall o, w ∉ marks t o) ts ->
  foldl (settleTask outcome) m ts w = m w.
Proof.
  induction ts as [|t ts IH]; intros m H; simpl; [reflexivity|].
  apply Forall_cons in H as [Ht Hts].
  rewrite IH by exact Hts. now apply settleTask_unmarked.
Qed.

(** *** What holds of every state the mount goes through *)

Lemma updateTagSpendData_cases p startTime endTime st :
  updateTagSpendData p startTime endTime st = Finished st
  \/ (truthyString (accessToken p) = true
      /\ is_Some startTime /\ is_Some endTime
      /\ updateTagSpendData p startTime endTime st
         = AwaitsSettings (issue getProxyUISettings st)
             (fun proxy_settings st1 =>
                if guarded proxy_settings then st1
                else launch st1 (awaitedCall tagsSpendLogsCall))).
Proof.
  unfold updateTagSpendData, fetchProxySettings.
  destruct startTime as [s|], endTime as [e|]; simpl; try (now left).
  destruct (truthyString (accessToken p)); simpl; [| now left].
  right. repeat split; eauto.
Qed.

Lemma initlizeUsageData_cases p st :
  (initlizeUsageData p st = Finished st
   /\ truthyString (accessToken p) && truthyString (token p)
      && truthyString (userRole p) && truthyString (userID p) = false)
  \/ (truthyString (accessToken p) = true /\ truthyString (token p) = true
      /\ truthyString (userRole p) = true /\ truthyString (userID p) = true
      /\ initlizeUsageData p st
         = AwaitsSettings (issue getProxyUISettings st)
             (fun proxy_settings st1 =>
                let st2 := match proxy_settings with
                           | Some ps => setProxySettings ps st1
                           | None => st1
                           end in
                if guarded proxy_settings then st2
                else
                  let st3 := foldl launch st2 (allDataPromises p) in
                  match forEachCatch (map handleOf (dataFetches p)) with
                  | Returns _ => connectStream st3
                  | _ => st3
                  end)).
Proof.
  unfold initlizeUsageData, fetchProxySettings.
  destruct (truthyString (accessToken p)); simpl; [| now left].
  destruct (truthyString (token p)); simpl; [| now left].
  destruct (truthyString (userRole p)); simpl; [| now left].
  destruct (truthyString (userID p)); simpl; [| now left].
  right. repeat split.
Qed.

Section MountInvariant.

Variable p : Props.
Variable Inv : PageState -> Prop.

Hypothesis Inv_issue : forall e st, Inv st -> Inv (issue e st).
Hypothesis Inv_launch : forall st t,
  t = awaitedCall tagsSpendLogsCall \/ t ∈ allDataPromises p ->
  Inv st -> Inv (launch st t).
Hypothesis Inv_setProxySettings : forall ps st, Inv st -> Inv (setProxySettings ps st).
Hypothesis Inv_connectStream : forall st, Inv st -> Inv (connectStream st).

Lemma foldl_launch_inv ts : forall st,
  Forall (fun t => t ∈ allDataPromises p) ts -> Inv st -> Inv (foldl launch st ts).
Proof.
  induction ts as [|t ts IH]; intros st Hts Hst; simpl; [exact Hst|].
  apply Forall_cons in Hts as [Ht Hts]. apply IH; [exact Hts|]. auto.
Qed.

Lemma tag_resume_inv response st :
  Inv st ->
  Inv (if guarded response then st else launch st (awaitedCall tagsSpendLogsCall)).
Proof. intros Hst. destruct (guarded response); auto. Qed.

Lemma init_resume_inv response st :
  Inv st ->
  Inv (let st2 := match response with
                | Some ps => setProxySettings ps st
                | None => st
                end in
     if guarded response then st2
     else
       let st3 := foldl launch st2 (allDataPromises p) in
       match forEachCatch (map handleOf (dataFetches p)) with
       | Returns _ => connectStream st3
       | _ => st3
       end).
Proof.
  intros Hst. cbv zeta.
  assert (H2 : Inv (match response with
                  | Some ps => setProxySettings ps st
                  | None => st
                  end)) by (destruct response; auto).
  destruct (guarded response); [exact H2|].
  assert (H3 : Inv (foldl launch
                    (match response with
                     | Some ps => setProxySettings ps st
                     | None => st
                     end) (allDataPromises p))).
  { apply foldl_launch_inv; [| exact H2]. now apply Forall_forall. }
  destruct (forEachCatch _); auto.
Qed.

(** A property that every step of the page keeps holds once the page is
    mounted, in whichever order the settings arrive. *)
Lemma mount_inv dateFrom dateTo tagSettings initSettings arrival :
  Inv (initialPage p) ->
  Inv (mount p dateFrom dateTo tagSettings initSettings arrival).
Proof.
  intros H0. unfold mount.
  destruct (updateTagSpendData_cases p dateFrom dateTo (initialPage p))
    as [-> | (_ & _ & _ & ->)];
    cbn [stateOf microtask answer].
  - destruct (initlizeUsageData_cases p (initialPage p))
      as [[-> _] | (_ & _ & _ & _ & ->)];
      cbn [stateOf microtask answer].
    + now destruct arrival.
    + destruct arrival; apply init_resume_inv; auto.
  - destruct (initlizeUsageData_cases p (issue getProxyUISettings (initialPage p)))
      as [[-> _] | (_ & _ & _ & _ & ->)];
      cbn [stateOf microtask answer].
    + destruct arrival; apply tag_resume_inv; auto.
    + destruct arrival.
      * apply init_resume_inv, tag_resume_inv; auto.
      * apply tag_resume_inv, init_resume_inv; auto.
Qed.

End MountInvariant.

(** The calls that mount can leave awaited. *)
Lemma awaiting_mount p dateFrom dateTo tagSettings initSettings arrival :
  Forall (fun t => t = awaitedCall tagsSpendLogsCall \/ t ∈ allDataPromises p)
         (awaiting (mount p dateFrom dateTo tagSettings initSettings arrival)).
Proof.
  apply (mount_inv p
           (fun st => Forall (fun t => t = awaitedCall tagsSpendLogsCall
                                       \/ t ∈ allDataPromises p) (awaiting st)));
    try (intros; assumption).
  - intros st t Ht Hst. simpl. apply Forall_app. split; [exact Hst | now constructor].
  - constructor.
Qed.

Lemma componentLoading_mount p dateFrom dateTo tagSettings initSettings arrival :
  componentLoading (mount p dateFrom dateTo tagSettings initSettings arrival)
  = initialLoading.
Proof.
  apply (mount_inv p (fun st => componentLoading st = initialLoading));
    try (intros; assumption).
  reflexivity.
Qed.

Lemma allDataPromises_unmarked p w :
  w ∈ neverMarked ->
  Forall (fun t => forall o, w ∉ marks t o) (allDataPromises p).
Proof.
  intros Hw. unfold allDataPromises, dataFetches, callsOf,
    fetchOverallSpend, fetchTopKeys, fetchTopModels, fetchGlobalActivity,
    fetchGlobalActivityPerModel, fetchTeamSpend, fetchTeamIndividualMetrics,
    fetchTagIndividualMetrics, fetchTagNames, fetchTopTags, fetchTopEndUsers,
    fetchProviderSpend.
  unfold neverMarked in Hw.
  repeat (apply elem_of_cons in Hw as [-> | Hw]); [.. | inversion Hw];
    destruct (truthyString (accessToken p)); simpl;
    destruct (isAdminOrAdminViewer (userRole p)); simpl;
    destruct (truthyString (token p)); simpl;
    repeat constructor;
    intros [|]; simpl; intros Hin;
    repeat (apply elem_of_cons in Hin as [Hin | Hin]; [discriminate |]);
    inversion Hin.
Qed.

Lemma mount_unmarked p dateFrom dateTo tagSettings initSettings arrival outcome w :
  w ∈ neverMarked ->
  componentLoading
    (settleAll outcome (mount p dateFrom dateTo tagSettings initSettings arrival)) w
  = true.
Proof.
  intros Hw. unfold settleAll. simpl.
  rewrite componentLoading_mount.
  rewrite settle_unmarked; [reflexivity|].
  eapply Forall_impl; [apply awaiting_mount|].
  intros t [-> | Ht].
  - intros [|]; simpl; intros Hin; inversion Hin.
  - pose proof (allDataPromises_unmarked p w Hw) as Hall.
    rewrite Forall_forall in Hall. now apply Hall.
Qed.

(** C3 on the code.  Whatever the role, the settings, the order in which
    they arrive and the way each backend call ends, once every call has
    settled the flag of [globalActivityPerModel] still says loading, and
    so do those of the provider spend, the tag names, the top tags, the
    top end users and of the summary and metric cards for which no fetch
    exists: their fetch functions never call [markComponentLoaded].  For
    an administrator whose calls all succeed the progress line stops at
    18 of 30. *)
Theorem C3_widgets_left_loading
    (p : Props) (dateFrom dateTo : option Z)
    (tagSettings initSettings : option ProxySettings) (arrival : Arrival)
    (outcome : Endpoint -> CallOutcome) :
  let st := settleAll outcome
              (mount p dateFrom dateTo tagSettings initSettings arrival) in
  awaiting st = []
  /\ Forall (fun w => componentLoading st w = true) neverMarked
  /\ componentLoading st globalActivityPerModel = true
  /\ loadedComponents
       (componentLoading
          (settleAll (fun _ => Resolved)
             (mount adminProps (Some 0) (Some 1)
                    (Some unguardedSettings) (Some unguardedSettings) arrival)))
     = 18%nat
  /\ totalComponents = 30%nat.
Proof.
  intros st. split; [reflexivity|].
  split.
  - apply Forall_forall. intros w Hw. now apply mount_unmarked.
  - split; [apply mount_unmarked; unfold neverMarked; now left|].
    split; [destruct arrival; vm_compute; reflexivity | reflexivity].
Qed.

(** The fetches that do mark their widget mark it on both paths. *)
Lemma marking_fetches_mark_on_failure (p : Props) :
  Forall (fun t => marks t Failed = marks t Resolved) (allDataPromises p).
Proof.
  unfold allDataPromises, dataFetches, callsOf,
    fetchOverallSpend, fetchTopKeys, fetchTopModels, fetchGlobalActivity,
    fetchGlobalActivityPerModel, fetchTeamSpend, fetchTeamIndividualMetrics,
    fetchTagIndividualMetrics, fetchTagNames, fetchTopTags, fetchTopEndUsers,
    fetchProviderSpend.
  destruct (truthyString (accessToken p)); simpl;
    destruct (isAdminOrAdminViewer (userRole p)); simpl;
    destruct (truthyString (token p)); simpl;
    repeat constructor.
Qed.

(** *** The guard *)

(** C5 as stated fails.  With the guard set in the settings that
    [initlizeUsageData] fetches and the settings call of
    [updateTagSpendData] failing, the notice is rendered and the spend
    per tag is asked for all the same; the same happens when that call
    is answered without the guard.  With no role, the settings are
    fetched with the guard set (by [updateTagSpendData]), no metric is
    fetched, and the page renders its widgets, not the notice. *)
Lemma C5_counterexample :
  (forall arrival,
     let st := mount adminProps (Some 0) (Some 1) None (Some guardedSettings)
                     arrival in
     render st = LimitNotice 2000000
     /\ filter (fun e => isMetricFetch e = true) (requests st) = [tagsSpendLogsCall])
  /\ (forall arrival,
        let st := mount adminProps (Some 0) (Some 1)
                        (Some unguardedSettings) (Some guardedSettings) arrival in
        render st = LimitNotice 2000000
        /\ filter (fun e => isMetricFetch e = true) (requests st)
           = [tagsSpendLogsCall])
  /\ (forall arrival,
        let st := mount {| accessToken := Some "sk-1"; token := Some "jwt";
                           userRole := None; userID := Some "u3" |}
                        (Some 0) (Some 1)
                        (Some guardedSettings) (Some guardedSettings) arrival in
        requests st = [getProxyUISettings]
        /\ render st = Widgets (componentLoading st)
        /\ forall rows, render st <> LimitNotice rows).
Proof.
  split; [| split]; intros []; vm_compute; repeat split; intros; discriminate.
Qed.



(** *** The administrator's fetches *)

Lemma foldl_launch_requests (P : Endpoint -> Prop) ts : forall st,
  Forall P (requests st) -> Forall (fun t => P (endpoint t)) ts ->
  Forall P (requests (foldl launch st ts)).
Proof.
  induction ts as [|t ts IH]; intros st Hst Hts; simpl; [exact Hst|].
  apply Forall_cons in Hts as [Ht Hts].
  apply IH; [| exact Hts].
  unfold launch. simpl.
  destruct (match dedupKey t with Some k => _ | None => false end); [exact Hst|].
  apply Forall_app. split; [exact Hst | now constructor].
Qed.

(** [initlizeUsageData] launches the team, tag and customer fetches for
    administrators only. *)
Lemma initlizeUsageData_gates (p : Props) (response : option ProxySettings) :
  isAdminOrAdminViewer (userRole p) = false ->
  Forall (fun e => isAdminBreakdown e = false)
         (requests (complete (initlizeUsageData p (initialPage p)) response)).
Proof.
  intros Hrole. unfold complete.
  destruct (initlizeUsageData_cases p (initialPage p))
    as [[-> _] | (Ha & _ & _ & _ & ->)];
    cbn [stateOf microtask answer]; [constructor|].
  destruct (guarded response).
  - destruct response; simpl; repeat constructor.
  - cbv zeta.
    assert (Hreq : Forall (fun e => isAdminBreakdown e = false)
                     (requests (foldl launch
                        (match response with
                         | Some ps => setProxySettings ps
                                        (issue getProxyUISettings (initialPage p))
                         | None => issue getProxyUISettings (initialPage p)
                         end) (allDataPromises p)))).
    { apply foldl_launch_requests.
      - destruct response; simpl; repeat constructor.
      - unfold allDataPromises, dataFetches, callsOf. rewrite Hrole.
        unfold fetchOverallSpend, fetchTopKeys, fetchTopModels, fetchGlobalActivity,
          fetchGlobalActivityPerModel, fetchProviderSpend.
        rewrite Ha. simpl. destruct (truthyString (token p)); simpl; repeat constructor. }
    destruct (forEachCatch _); exact Hreq.
Qed.

(** C6 on the code.  For an internal user, who is no administrator, the
    mount of the page sends the breakdown of the spend by tag: the effect
    on the date range calls [updateTagSpendData], which asks for no
    role.  The same happens with no role at all. *)
Theorem C6_tag_breakdown_requested_without_admin_role :
  isAdminOrAdminViewer (userRole internalUserProps) = false
  /\ (forall arrival,
        filter (fun e => isAdminBreakdown e = true)
          (requests (mount internalUserProps (Some 0) (Some 1)
                           (Some unguardedSettings) (Some unguardedSettings)
                           arrival))
        = [tagsSpendLogsCall])
  /\ (forall arrival,
        requests (mount {| accessToken := Some "sk-1"; token := Some "jwt";
                           userRole := None; userID := Some "u3" |}
                        (Some 0) (Some 1)
                        (Some unguardedSettings) (Some unguardedSettings)
                        arrival)
        = [getProxyUISettings; tagsSpendLogsCall]).
Proof. split; [reflexivity|]. split; intros []; vm_compute; reflexivity. Qed.

End DashboardFacts.

(** ** The local copy of the SSO configuration *)

Module SSOConfigFacts.

Import Js SSOConfig.


Lemma restoreStored_parsed (J : Json) (otherwise : PanelState -> PanelState) (st : PanelState)
    (stored : string) (parsed : Value) :
  localStorage st !! storageKey = Some stored -> stored <> "" ->
  parse J stored = Returns parsed ->
  ssoConfig (restoreStored J otherwise st) = parsed.
Proof.
  intros Hs Hne Hp. unfold restoreStored, getItem. simpl. rewrite Hs. simpl.
  apply String.eqb_neq in Hne. rewrite Hne. simpl. now rewrite Hp.
Qed.




End SSOConfigFacts.

(** ** The virtual scrolling of the customer table *)

Module VirtualizedTableFacts.

Import VirtualizedTable.

Lemma relativeIndex_inside (len i : Z) :
  0 <= i <= len -> relativeIndex len i = i.
Proof.
  intros H. unfold relativeIndex.
  destruct (i <? 0)%Z eqn:E; [apply Z.ltb_lt in E; lia | lia].
Qed.

Lemma relativeIndex_beyond (len i : Z) :
  0 <= len <= i -> relativeIndex len i = len.
Proof.
  intros H. unfold relativeIndex.
  destruct (i <? 0)%Z eqn:E; [apply Z.ltb_lt in E; lia | lia].
Qed.

(** Inside the array, [slice] is the segment from [start] to [final]. *)
Lemma slice_lookup {A} (data : list A) (start final : Z) (j : nat) :
  0 <= start -> 0 <= final <= Z.of_nat (length data) ->
  slice data start final !! j
  = if bool_decide (start + Z.of_nat j < final)
    then data !! (Z.to_nat start + j)%nat else None.
Proof.
  intros Hs Hf. unfold slice.
  rewrite (relativeIndex_inside _ final) by lia.
  destruct (decide (start <= Z.of_nat (length data))) as [Hle|Hgt].
  - rewrite (relativeIndex_inside _ start) by lia.
    case_bool_decide as Hj.
    + rewrite lookup_take_lt by lia. by rewrite lookup_drop.
    + apply lookup_ge_None. rewrite length_take. lia.
  - rewrite (relativeIndex_beyond _ start) by lia.
    rewrite bool_decide_eq_false_2 by lia.
    apply lookup_ge_None. rewrite length_take. lia.
Qed.

Lemma length_slice {A} (data : list A) (start final : Z) :
  0 <= start -> 0 <= final <= Z.of_nat (length data) ->
  Z.of_nat (length (slice data start final)) = Z.max 0 (final - start).
Proof.
  intros Hs Hf. unfold slice.
  rewrite (relativeIndex_inside _ final) by lia.
  rewrite length_take, length_drop.
  destruct (decide (start <= Z.of_nat (length data))) as [Hle|Hgt].
  - rewrite (relativeIndex_inside _ start) by lia. lia.
  - rewrite (relativeIndex_beyond _ start) by lia. lia.
Qed.

(** The quotients of the component. *)
Lemma startIndex_bounds (itemHeight scrollTop : Z) :
  0 < itemHeight ->
  (scrollTop / itemHeight) * itemHeight <= scrollTop
  < (scrollTop / itemHeight + 1) * itemHeight.
Proof.
  intros Hh.
  pose proof (Z.mul_div_le scrollTop itemHeight Hh).
  pose proof (Z.mul_succ_div_gt scrollTop itemHeight Hh).
  lia.
Qed.

Lemma visibleCount_bounds (itemHeight containerHeight : Z) :
  0 < itemHeight ->
  containerHeight <= (- ((- containerHeight) / itemHeight)) * itemHeight
  < containerHeight + itemHeight.
Proof.
  intros Hh.
  pose proof (Z.mul_div_le (- containerHeight) itemHeight Hh).
  pose proof (Z.mul_succ_div_gt (- containerHeight) itemHeight Hh).
  lia.
Qed.

Lemma window_Some {A} (data : list A) (itemHeight containerHeight scrollTop : Z)
    (w : Window A) :
  0 < itemHeight ->
  window data itemHeight containerHeight scrollTop = Some w ->
  visibleCount w = - ((- containerHeight) / itemHeight)
  /\ startIndex w = scrollTop / itemHeight
  /\ endIndex w = Z.min (startIndex w + visibleCount w + 1) (Z.of_nat (length data))
  /\ visibleItems w = slice data (startIndex w) (endIndex w)
  /\ translateY w = startIndex w * itemHeight
  /\ totalHeight w = Z.of_nat (length data) * itemHeight.
Proof.
  intros Hh. unfold window.
  destruct (itemHeight =? 0)%Z eqn:E; [apply Z.eqb_eq in E; lia|].
  intros [= <-]. simpl. repeat split; reflexivity.
Qed.

(** X1: no row that shows in the viewport is left out.  Every row of the
    data whose span of pixels meets the viewport (from [scrollTop] to
    [scrollTop + containerHeight]) is rendered, under its own index. *)
Theorem window_covers_viewport {A} (data : list A)
    (itemHeight containerHeight scrollTop : Z) (w : Window A) (i : nat) (x : A) :
  0 < itemHeight -> 0 <= scrollTop ->
  window data itemHeight containerHeight scrollTop = Some w ->
  data !! i = Some x ->
  Z.of_nat i * itemHeight < scrollTop + containerHeight ->
  scrollTop < (Z.of_nat i + 1) * itemHeight ->
  (Z.of_nat i, x) ∈ rendered w.
Proof.
  intros Hh Hs Hw Hx Htop Hbot.
  destruct (window_Some _ _ _ _ _ Hh Hw) as (Hvc & Hst & Hen & Hvis & _).
  pose proof (startIndex_bounds itemHeight scrollTop Hh) as Hsb.
  pose proof (visibleCount_bounds itemHeight containerHeight Hh) as Hvb.
  rewrite <- Hst in Hsb. rewrite <- Hvc in Hvb.
  assert (Hs0 : 0 <= startIndex w).
  { rewrite Hst. apply Z.div_pos; lia. }
  assert (Hlo : startIndex w <= Z.of_nat i) by nia.
  assert (Hhi : Z.of_nat i < startIndex w + visibleCount w + 1) by nia.
  pose proof (lookup_lt_Some _ _ _ Hx) as Hlen.
  unfold rendered. apply elem_of_lookup_imap.
  exists (i - Z.to_nat (startIndex w))%nat, x. split.
  - f_equal. lia.
  - rewrite Hvis, slice_lookup by lia.
    rewrite bool_decide_eq_true_2 by lia.
    rewrite <- Hx. f_equal. lia.
Qed.

Lemma window_covers_viewport_witness :
  window ["a"; "b"; "c"; "d"] 50 100 30
  = Some {| visibleCount := 2; totalHeight := 200; startIndex := 0; endIndex := 3;
            visibleItems := ["a"; "b"; "c"]; translateY := 0 |}
  /\ (1, "b") ∈ rendered
       {| visibleCount := 2; totalHeight := 200; startIndex := 0; endIndex := 3;
          visibleItems := ["a"; "b"; "c"]; translateY := 0 |}.
Proof.
  split; [reflexivity|].
  apply (window_covers_viewport ["a"; "b"; "c"; "d"] 50 100 30 _ 1%nat "b");
    [lia | lia | reflexivity | reflexivity | lia | lia].
Defined.

(** X2: what is rendered is a block of consecutive rows of the data, each
    under its own index, at most [visibleCount + 1] of them, and the block
    is placed so that its first row starts at the top of the viewport or
    less than one row above it. *)
Theorem window_is_a_block_of_rows {A} (data : list A)
    (itemHeight containerHeight scrollTop : Z) (w : Window A) :
  0 < itemHeight -> 0 <= containerHeight -> 0 <= scrollTop ->
  window data itemHeight containerHeight scrollTop = Some w ->
  (forall (j : nat) k x,
     rendered w !! j = Some (k, x) ->
     k = startIndex w + Z.of_nat j /\ 0 <= k /\ data !! Z.to_nat k = Some x)
  /\ Z.of_nat (length (rendered w)) <= visibleCount w + 1
  /\ (startIndex w + visibleCount w + 1 <= Z.of_nat (length data) ->
      Z.of_nat (length (rendered w)) = visibleCount w + 1)
  /\ translateY w <= scrollTop < translateY w + itemHeight.
Proof.
  intros Hh Hc Hs Hw.
  destruct (window_Some _ _ _ _ _ Hh Hw) as (Hvc & Hst & Hen & Hvis & Hty & _).
  pose proof (startIndex_bounds itemHeight scrollTop Hh) as Hsb.
  pose proof (visibleCount_bounds itemHeight containerHeight Hh) as Hvb.
  rewrite <- Hst in Hsb. rewrite <- Hvc in Hvb.
  assert (Hs0 : 0 <= startIndex w).
  { rewrite Hst. apply Z.div_pos; lia. }
  assert (Hv0 : 0 <= visibleCount w) by nia.
  assert (Hlen : Z.of_nat (length (rendered w))
                 = Z.max 0 (endIndex w - startIndex w)).
  { unfold rendered. rewrite length_imap, Hvis. apply length_slice; lia. }
  repeat split.
  - unfold rendered in H. rewrite list_lookup_imap in H.
    destruct (visibleItems w !! j) eqn:E; simpl in H; [|discriminate].
    by injection H as <- _.
  - unfold rendered in H. rewrite list_lookup_imap in H.
    destruct (visibleItems w !! j) eqn:E; simpl in H; [|discriminate].
    injection H as <- _. lia.
  - unfold rendered in H. rewrite list_lookup_imap in H.
    destruct (visibleItems w !! j) eqn:E; simpl in H; [|discriminate].
    injection H as <- <-.
    rewrite Hvis, slice_lookup in E by lia.
    case_bool_decide; [|discriminate].
    rewrite <- E. f_equal. lia.
  - lia.
  - intros Hfit. lia.
  - lia.
  - lia.
Qed.

Lemma window_is_a_block_of_rows_witness :
  window ["a"; "b"; "c"; "d"] 50 100 30
  = Some {| visibleCount := 2; totalHeight := 200; startIndex := 0; endIndex := 3;
            visibleItems := ["a"; "b"; "c"]; translateY := 0 |}
  /\ Z.of_nat (length (rendered
       {| visibleCount := 2; totalHeight := 200; startIndex := 0; endIndex := 3;
          visibleItems := ["a"; "b"; "c"]; translateY := 0 |})) <= 2 + 1.
Proof.
  split; [reflexivity|].
  destruct (window_is_a_block_of_rows ["a"; "b"; "c"; "d"] 50 100 30
    {| visibleCount := 2; totalHeight := 200; startIndex := 0; endIndex := 3;
       visibleItems := ["a"; "b"; "c"]; translateY := 0 |})
    as (_ & Hlen & _); [lia | lia | lia | reflexivity | exact Hlen].
Defined.

End VirtualizedTableFacts.

(** ** The live spend stream under the events of its life *)

Module StreamRunFacts.

Import Js LiveSpendStream StreamRun.

Lemma openSources_closeSource (id : SourceId) (l : list (SourceId * bool)) :
  map fst (filter (fun s => s.2 = true) (closeSource id l))
  = filter (fun x => x <> id) (map fst (filter (fun s => s.2 = true) l)).
Proof.
  induction l as [|[i b] l IH]; [reflexivity|].
  unfold closeSource in *. simpl map at 1. simpl fst.
  destruct (Nat.eqb i id) eqn:E.
  - apply Nat.eqb_eq in E. subst i.
    rewrite filter_cons_False by (simpl; discriminate).
    rewrite IH. destruct b.
    + rewrite filter_cons_True by reflexivity. simpl.
      by rewrite filter_cons_False by (intros H; by apply H).
    + by rewrite filter_cons_False by (simpl; discriminate).
  - apply Nat.eqb_neq in E. destruct b.
    + rewrite !filter_cons_True by reflexivity. simpl.
      rewrite filter_cons_True by done. by rewrite IH.
    + rewrite !filter_cons_False by (simpl; discriminate). exact IH.
Qed.

Lemma length_closeSource id l : length (closeSource id l) = length l.
Proof. unfold closeSource. by rewrite length_map. Qed.

Lemma isOpen_openSources id st :
  isOpen id st = true -> id ∈ openSources st.
Proof.
  unfold isOpen, openSources. intros H.
  apply existsb_exists in H as ([i b] & Hin & Hb). simpl in Hb.
  apply andb_true_iff in Hb as [Hi Hb]. apply Nat.eqb_eq in Hi. subst.
  apply list_elem_of_fmap. exists (id, true). split; [reflexivity|].
  apply list_elem_of_filter. split; [reflexivity|].
  by apply list_elem_of_In.
Qed.

Lemma oneConnection_connect st :
  oneConnection st -> oneConnection (connectToSpendStream st).
Proof.
  unfold oneConnection, connectToSpendStream, openSources, currentSource.
  intros H.
  destruct (negb (truthyString (accessToken st))); simpl; [exact H|].
  case_bool_decide as Href; simpl; [exact H|].
  destruct (eventSourceRef st) as [id|]; [exfalso; apply Href; eauto|].
  rewrite filter_app, map_app, H. reflexivity.
Qed.

Lemma oneConnection_timerCallback st :
  oneConnection st -> oneConnection (timerCallback st).
Proof.
  unfold timerCallback. destruct (truthyString (accessToken st)); [|done].
  apply oneConnection_connect.
Qed.

Lemma oneConnection_callbacks (due : list Z) : forall st,
  oneConnection st -> oneConnection (foldl (fun s _ => timerCallback s) st due).
Proof.
  induction due as [|d due IH]; intros st H; [exact H|].
  simpl. apply IH, oneConnection_timerCallback, H.
Qed.

Lemma oneConnection_onerror id st :
  isOpen id st = true -> oneConnection st -> oneConnection (onerror id st).
Proof.
  intros Hopen H. unfold oneConnection in *.
  unfold onerror, openSources, currentSource in *. simpl.
  rewrite openSources_closeSource.
  apply isOpen_openSources in Hopen. unfold openSources in Hopen.
  rewrite H in *.
  destruct (eventSourceRef st) as [cur|]; [|by apply elem_of_nil in Hopen].
  apply list_elem_of_singleton in Hopen. subst cur.
  by rewrite filter_cons_False by (intros Hne; by apply Hne).
Qed.

Lemma oneConnection_cleanup st : oneConnection st -> oneConnection (cleanup st).
Proof.
  unfold oneConnection, cleanup, openSources, currentSource.
  destruct (eventSourceRef st) as [cur|]; simpl; intros H; [|exact H].
  rewrite openSources_closeSource, H.
  by rewrite filter_cons_False by (intros Hne; by apply Hne).
Qed.

Lemma oneConnection_step st e : oneConnection st -> oneConnection (streamStep st e).
Proof.
  intros H. destruct e as [|id|id|t|]; simpl.
  - by apply oneConnection_connect.
  - destruct (isOpen id st); exact H.
  - destruct (isOpen id st) eqn:E; [by apply oneConnection_onerror | exact H].
  - unfold advanceTo. apply oneConnection_callbacks. exact H.
  - by apply oneConnection_cleanup.
Qed.

Lemma oneConnection_run token events : oneConnection (streamRun token events).
Proof.
  unfold streamRun.
  assert (H : oneConnection (mountState token)) by reflexivity.
  revert H. generalize (mountState token).
  induction events as [|e events IH]; intros st H; [exact H|].
  simpl. apply IH, oneConnection_step, H.
Qed.

(** The access token is that of the mount, whatever happens. *)
Lemma accessToken_callbacks (due : list Z) : forall st,
  accessToken (foldl (fun s _ => timerCallback s) st due) = accessToken st.
Proof.
  induction due as [|d due IH]; intros st; [reflexivity|].
  simpl. rewrite IH. unfold timerCallback, connectToSpendStream.
  repeat (case_match; simpl; try reflexivity).
Qed.

Lemma accessToken_step st e : accessToken (streamStep st e) = accessToken st.
Proof.
  destruct e as [|id|id|t|]; simpl.
  - unfold connectToSpendStream. by case_match.
  - by case_match.
  - by case_match.
  - unfold advanceTo. by rewrite accessToken_callbacks.
  - unfold cleanup. by case_match.
Qed.

Lemma connect_when_connected st :
  is_Some (eventSourceRef st) -> connectToSpendStream st = st.
Proof.
  intros Href. unfold connectToSpendStream.
  rewrite (bool_decide_eq_true_2 _ Href). by rewrite orb_true_r.
Qed.

Lemma connect_twice st :
  connectToSpendStream (connectToSpendStream st) = connectToSpendStream st.
Proof.
  destruct (decide (is_Some (eventSourceRef st))) as [Href|Href].
  - rewrite (connect_when_connected st Href).
    by apply connect_when_connected.
  - destruct (truthyString (accessToken st)) eqn:Etok.
    + apply connect_when_connected. unfold connectToSpendStream.
      rewrite Etok, (bool_decide_eq_false_2 _ Href). simpl. eauto.
    + assert (Hst : connectToSpendStream st = st).
      { unfold connectToSpendStream. by rewrite Etok. }
      rewrite Hst. exact Hst.
Qed.

(** X3: the page holds at most one connection.  In every state that the
    events of the stream can lead to, the only source that is not closed
    is the one [eventSourceRef] points to, and calling
    [connectToSpendStream] again while it is set changes nothing. *)
Theorem stream_holds_one_connection (token : option string) (events : list StreamEvent) :
  let st := streamRun token events in
  openSources st = currentSource st
  /\ (length (openSources st) <= 1)%nat
  /\ (is_Some (eventSourceRef st) -> connectToSpendStream st = st)
  /\ connectToSpendStream (connectToSpendStream st) = connectToSpendStream st.
Proof.
  intros st. pose proof (oneConnection_run token events) as H.
  fold st in H. unfold oneConnection in H.
  split; [exact H|]. split.
  - rewrite H. unfold currentSource. destruct (eventSourceRef st); simpl; lia.
  - split; [apply connect_when_connected | apply connect_twice].
Qed.

(** What the sources and timers cost. *)
Lemma callbacks_budget (due : list Z) : forall st,
  timers (foldl (fun s _ => timerCallback s) st due) = timers st
  /\ (length (sources (foldl (fun s _ => timerCallback s) st due))
      <= length (sources st) + length due)%nat
  /\ (truthyString (accessToken st) = false ->
      sources (foldl (fun s _ => timerCallback s) st due) = sources st).
Proof.
  induction due as [|d due IH]; intros st; [simpl; split; [|split]; auto; lia|].
  simpl. destruct (IH (timerCallback st)) as (Ht & Hs & Hn).
  assert (Hcb : timers (timerCallback st) = timers st
                /\ (length (sources (timerCallback st)) <= S (length (sources st)))%nat
                /\ accessToken (timerCallback st) = accessToken st
                /\ (truthyString (accessToken st) = false ->
                    sources (timerCallback st) = sources st)).
  { unfold timerCallback, connectToSpendStream.
    destruct (truthyString (accessToken st)) eqn:Etok; simpl;
      [|repeat split; auto].
    case_bool_decide; simpl; repeat split; auto; try discriminate.
    rewrite length_app. simpl. lia. }
  destruct Hcb as (Hct & Hcs & Hca & Hcn).
  split; [congruence|]. split; [lia|].
  intros Hno. rewrite Hn by (by rewrite Hca). by apply Hcn.
Qed.

Lemma filter_split_length (t : Z) (l : list Z) :
  Nat.add (length (filter (fun d => d <= t) l))
          (length (filter (fun d => ~ d <= t) l))
  = length l.
Proof.
  induction l as [|d l IH]; [reflexivity|].
  destruct (decide (d <= t)).
  - rewrite filter_cons_True by done.
    rewrite (filter_cons_False (fun d => ~ d <= t)) by tauto. simpl. lia.
  - rewrite filter_cons_False by done.
    rewrite (filter_cons_True (fun d => ~ d <= t)) by done. simpl. lia.
Qed.

Lemma step_budget st e :
  (length (sources (streamStep st e)) + length (timers (streamStep st e))
   <= length (sources st) + length (timers st) + cost e)%nat
  /\ (truthyString (accessToken st) = false ->
      sources st = [] -> sources (streamStep st e) = []).
Proof.
  destruct e as [|id|id|t|]; unfold cost; simpl.
  - unfold connectToSpendStream.
    destruct (truthyString (accessToken st)) eqn:Etok; simpl; [|split; [lia|auto]].
    case_bool_decide; simpl; [split; [lia|auto]|].
    rewrite length_app. simpl. split; [lia|discriminate].
  - destruct (isOpen id st); simpl; split; auto; lia.
  - destruct (isOpen id st) eqn:E; simpl; [|split; auto; lia].
    rewrite length_closeSource, length_app. simpl. split; [lia|].
    intros _ Hnil. unfold isOpen in E. by rewrite Hnil in E.
  - unfold advanceTo.
    destruct (callbacks_budget (filter (fun d => d <= t) (timers st))
                (setClock t (filter (fun d => ~ d <= t) (timers st)) st))
      as (Ht & Hs & Hn).
    rewrite Ht. simpl in *.
    pose proof (filter_split_length t (timers st)). split; [lia|].
    intros Hno Hnil. rewrite Hn by exact Hno. exact Hnil.
  - unfold cleanup. destruct (eventSourceRef st); simpl;
      rewrite ?length_closeSource; split; auto; try lia.
    intros _ ->. reflexivity.
Qed.

Lemma run_budget (events : list StreamEvent) : forall st,
  (length (sources (foldl streamStep st events))
   + length (timers (foldl streamStep st events))
   <= length (sources st) + length (timers st)
      + length (filter (fun e => isConnectCall e || isFailure e = true) events))%nat
  /\ (truthyString (accessToken st) = false ->
      sources st = [] -> sources (foldl streamStep st events) = []).
Proof.
  induction events as [|e events IH]; intros st; [simpl; split; auto; lia|].
  simpl foldl. destruct (IH (streamStep st e)) as [Hb Hn].
  destruct (step_budget st e) as [Hsb Hsn].
  split.
  - destruct e; unfold cost in Hsb;
      [ rewrite filter_cons_True by reflexivity
      | rewrite filter_cons_False by (simpl; discriminate)
      | rewrite filter_cons_True by reflexivity
      | rewrite filter_cons_False by (simpl; discriminate)
      | rewrite filter_cons_False by (simpl; discriminate) ];
      simpl length; cbn [streamStep] in *; lia.
  - intros Hno Hnil. apply Hn; [by rewrite accessToken_step | by apply Hsn].
Qed.

(** X4: what opens a connection.  Without an access token no
    [EventSource] is ever created.  With one, every source created and
    every reconnection still pending is paid for by a call of
    [connectToSpendStream] or by an [error] event: a failure buys one
    reconnection attempt, never more. *)
Theorem stream_sources_are_paid_for (token : option string) (events : list StreamEvent) :
  let st := streamRun token events in
  (truthyString token = false -> sources st = [])
  /\ (length (sources st) + length (timers st)
      <= length (filter (fun e => isConnectCall e || isFailure e = true) events))%nat.
Proof.
  intros st. unfold st, streamRun.
  destruct (run_budget events (mountState token)) as [Hb Hn].
  split; [intros Hno; by apply Hn|]. simpl in Hb. lia.
Qed.

End StreamRunFacts.

(** ** The effect that loads the page *)

Module UsageEffectFacts.

Import Js Dashboard UsageEffect DashboardFacts.

Lemma forEachCatch_admin (p : Props) :
  isAdminOrAdminViewer (userRole p) = true ->
  forEachCatch (map handleOf (dataFetches p)) = Throws TypeError.
Proof. intros H. unfold dataFetches. rewrite H. reflexivity. Qed.

Lemma forEachCatch_others (p : Props) :
  isAdminOrAdminViewer (userRole p) = false ->
  forEachCatch (map handleOf (dataFetches p)) = Returns tt.
Proof. intros H. unfold dataFetches. rewrite H. reflexivity. Qed.

Lemma signedIn_cond (p : Props) :
  signedIn p ->
  truthyString (accessToken p) && truthyString (token p)
  && truthyString (userRole p) && truthyString (userID p) = true.
Proof. intros (-> & -> & -> & ->). reflexivity. Qed.

(** What is left of [initlizeUsageData] once the settings are there, for
    a user who is signed in. *)
Lemma initlizeUsageData_signedIn (p : Props) (st : PageState) :
  signedIn p ->
  initlizeUsageData p st
  = AwaitsSettings (issue getProxyUISettings st)
      (fun proxy_settings st1 =>
         let st2 := match proxy_settings with
                    | Some ps => setProxySettings ps st1
                    | None => st1
                    end in
         if guarded proxy_settings then st2
         else
           let st3 := foldl launch st2 (allDataPromises p) in
           match forEachCatch (map handleOf (dataFetches p)) with
           | Returns _ => connectStream st3
           | _ => st3
           end).
Proof.
  intros Hin. pose proof (signedIn_cond p Hin) as Hcond.
  destruct (initlizeUsageData_cases p st) as [[_ Hno] | (_ & _ & _ & _ & ->)];
    [congruence | reflexivity].
Qed.

(** The mount of a user who is signed in, whose settings come without
    the guard: the effect on the date range acts before or after the
    fetches are launched. *)
Lemma mount_signedIn (p : Props) (dateFrom dateTo : option Z)
    (tagSettings initSettings : option ProxySettings) (arrival : Arrival) :
  signedIn p -> guarded initSettings = false ->
  exists (before after : PageState -> PageState) (st0 : PageState),
    (forall st, stream (before st) = stream st
                /\ Forall (fun t => t ∈ awaiting (before st)) (awaiting st))
    /\ (forall st, stream (after st) = stream st
                   /\ Forall (fun t => t ∈ awaiting (after st)) (awaiting st))
    /\ stream st0 = LiveSpendStream.mountState (accessToken p)
    /\ mount p dateFrom dateTo tagSettings initSettings arrival
       = after
           (let st3 := foldl launch (before st0) (allDataPromises p) in
            match forEachCatch (map handleOf (dataFetches p)) with
            | Returns _ => connectStream st3
            | _ => st3
            end).
Proof.
  intros Hin Hguard.
  set (fill := fun st => foldl launch st (allDataPromises p)).
  set (set_ := fun st => match initSettings with
                         | Some ps => setProxySettings ps st
                         | None => st
                         end).
  set (tag := fun st => if guarded tagSettings then st
                        else launch st (awaitedCall tagsSpendLogsCall)).
  assert (Hset : forall st, stream (set_ st) = stream st
                            /\ Forall (fun t => t ∈ awaiting (set_ st)) (awaiting st)).
  { intros st. unfold set_. destruct initSettings; simpl; split; try reflexivity;
      apply Forall_forall; auto. }
  assert (Htag : forall st, stream (tag st) = stream st
                            /\ Forall (fun t => t ∈ awaiting (tag st)) (awaiting st)).
  { intros st. unfold tag. destruct (guarded tagSettings); simpl; split;
      try reflexivity; apply Forall_forall; auto.
    intros t Ht. apply elem_of_app. now left. }
  assert (Hid : forall st : PageState, stream st = stream st
                  /\ Forall (fun t => t ∈ awaiting st) (awaiting st)).
  { intros st. split; [reflexivity | apply Forall_forall; auto]. }
  unfold mount. rewrite !(initlizeUsageData_signedIn p _ Hin).
  destruct (updateTagSpendData_cases p dateFrom dateTo (initialPage p))
    as [-> | (_ & _ & _ & ->)];
    cbn [stateOf microtask answer]; rewrite Hguard.
  - exists set_, (fun st => st), (issue getProxyUISettings (initialPage p)).
    split; [exact Hset|]. split; [exact Hid|]. split; [reflexivity|].
    now destruct arrival.
  - destruct arrival.
    + exists (fun st => set_ (tag st)), (fun st => st),
        (issue getProxyUISettings (issue getProxyUISettings (initialPage p))).
      split.
      { intros st. destruct (Htag st) as [H1 H2], (Hset (tag st)) as [H3 H4].
        split; [congruence|]. rewrite Forall_forall in *. auto. }
      split; [exact Hid|]. split; reflexivity.
    + exists set_, tag,
        (issue getProxyUISettings (issue getProxyUISettings (initialPage p))).
      split; [exact Hset|]. split; [exact Htag|]. split; reflexivity.
Qed.

(** X5: an administrator gets no live stream.  For the roles Admin and Admin
    Viewer the array holds [undefined] where [fetchTagNames],
    [fetchTopTags] and [fetchTopEndUsers] were called, so the loop that
    attaches the [catch] handlers throws a [TypeError]: every fetch has
    been started by then, but [connectToSpendStream] is never reached and
    no [EventSource] is created. *)
Theorem admin_mount_never_opens_the_stream
    (p : Props) (dateFrom dateTo : option Z)
    (tagSettings initSettings : option ProxySettings) (arrival : Arrival) :
  signedIn p ->
  isAdminOrAdminViewer (userRole p) = true ->
  guarded initSettings = false ->
  let st := mount p dateFrom dateTo tagSettings initSettings arrival in
  forEachCatch (map handleOf (dataFetches p)) = Throws TypeError
  /\ Forall (fun t => t ∈ awaiting st) (allDataPromises p)
  /\ LiveSpendStream.eventSourceRef (stream st) = None
  /\ LiveSpendStream.sources (stream st) = [].
Proof.
  intros Hin Hadmin Hguard st.
  destruct (mount_signedIn p dateFrom dateTo tagSettings initSettings arrival Hin Hguard)
    as (before & after & st0 & Hbefore & Hafter & Hst0 & Hmount).
  unfold st. rewrite Hmount. rewrite (forEachCatch_admin p Hadmin). cbv zeta.
  split; [reflexivity|].
  destruct (Hafter (foldl launch (before st0) (allDataPromises p))) as [Hs Ha].
  destruct (Hbefore st0) as [Hs0 _].
  split.
  - rewrite Forall_forall in *. intros t Ht. apply Ha.
    rewrite foldl_launch_awaiting. apply elem_of_app. now right.
  - rewrite Hs, foldl_launch_stream, Hs0, Hst0. split; reflexivity.
Qed.

Lemma admin_mount_never_opens_the_stream_witness :
  signedIn adminProps
  /\ isAdminOrAdminViewer (userRole adminProps) = true
  /\ guarded (Some unguardedSettings) = false
  /\ LiveSpendStream.sources
       (stream (mount adminProps (Some 0) (Some 1)
                      (Some unguardedSettings) (Some unguardedSettings)
                      TagSettingsFirst)) = [].
Proof.
  assert (Hin : signedIn adminProps) by (repeat split; reflexivity).
  split; [exact Hin|]. split; [reflexivity|]. split; [reflexivity|].
  exact (proj2 (proj2 (proj2
           (admin_mount_never_opens_the_stream adminProps (Some 0) (Some 1)
              (Some unguardedSettings) (Some unguardedSettings) TagSettingsFirst
              Hin eq_refl eq_refl)))).
Defined.

(** X6: every other signed-in role gets it.  When the role is neither Admin
    nor Admin Viewer the effect runs to its end and leaves one source
    open, the one [eventSourceRef] points to. *)
Theorem other_roles_open_the_stream
    (p : Props) (dateFrom dateTo : option Z)
    (tagSettings initSettings : option ProxySettings) (arrival : Arrival) :
  signedIn p ->
  isAdminOrAdminViewer (userRole p) = false ->
  guarded initSettings = false ->
  let st := mount p dateFrom dateTo tagSettings initSettings arrival in
  forEachCatch (map handleOf (dataFetches p)) = Returns tt
  /\ LiveSpendStream.eventSourceRef (stream st) = Some 0%nat
  /\ LiveSpendStream.openSources (stream st) = [0%nat].
Proof.
  intros Hin Hrole Hguard st.
  destruct (mount_signedIn p dateFrom dateTo tagSettings initSettings arrival Hin Hguard)
    as (before & after & st0 & Hbefore & Hafter & Hst0 & Hmount).
  unfold st. rewrite Hmount. rewrite (forEachCatch_others p Hrole). cbv zeta.
  split; [reflexivity|].
  destruct (Hafter (connectStream (foldl launch (before st0) (allDataPromises p))))
    as [Hs _].
  destruct (Hbefore st0) as [Hs0 _].
  rewrite Hs. unfold connectStream. cbn [stream].
  rewrite foldl_launch_stream, Hs0, Hst0.
  unfold LiveSpendStream.connectToSpendStream, LiveSpendStream.mountState. simpl.
  destruct Hin as (-> & _). simpl. split; reflexivity.
Qed.

Lemma other_roles_open_the_stream_witness :
  signedIn internalUserProps
  /\ isAdminOrAdminViewer (userRole internalUserProps) = false
  /\ guarded (Some unguardedSettings) = false
  /\ LiveSpendStream.openSources
       (stream (mount internalUserProps (Some 0) (Some 1)
                      (Some unguardedSettings) (Some unguardedSettings)
                      InitSettingsFirst)) = [0%nat].
Proof.
  assert (Hin : signedIn internalUserProps) by (repeat split; reflexivity).
  split; [exact Hin|]. split; [reflexivity|]. split; [reflexivity|].
  exact (proj2 (proj2 (other_roles_open_the_stream internalUserProps (Some 0) (Some 1)
                         (Some unguardedSettings) (Some unguardedSettings)
                         InitSettingsFirst Hin eq_refl eq_refl))).
Defined.

(** What the fetch functions start, once the credentials are there. *)
Lemma allDataPromises_signedIn (p : Props) :
  signedIn p ->
  allDataPromises p
  = allDataPromises (if isAdminOrAdminViewer (userRole p) then adminProps
                     else internalUserProps).
Proof.
  intros (Htok & Hjwt & _).
  unfold allDataPromises, dataFetches, callsOf,
    fetchOverallSpend, fetchTopKeys, fetchTopModels,
    fetchGlobalActivity, fetchGlobalActivityPerModel, fetchTeamSpend,
    fetchTeamIndividualMetrics, fetchTagIndividualMetrics, fetchTagNames,
    fetchTopTags, fetchTopEndUsers, fetchProviderSpend.
  destruct (isAdminOrAdminViewer (userRole p)) eqn:Hrole;
    simpl; rewrite Htok, Hjwt; reflexivity.
Qed.

Lemma requests_setProxySettings (response : option ProxySettings) st :
  requests (match response with
            | Some ps => setProxySettings ps st
            | None => st
            end) = requests st
  /\ cacheKeys (match response with
                | Some ps => setProxySettings ps st
                | None => st
                end) = cacheKeys st.
Proof. by destruct response. Qed.

(** The requests and the cache after [launch]ing a list of calls depend
    on the requests and the cache before only. *)
Lemma foldl_launch_requests_cache ts : forall st st',
  cacheKeys st = cacheKeys st' ->
  cacheKeys (foldl launch st ts) = cacheKeys (foldl launch st' ts)
  /\ forall before,
       requests st = (before ++ requests st')%list ->
       requests (foldl launch st ts) = (before ++ requests (foldl launch st' ts))%list.
Proof.
  induction ts as [|t ts IH]; intros st st' Hc; [split; auto|].
  simpl. assert (Hc' : cacheKeys (launch st t) = cacheKeys (launch st' t)).
  { unfold launch. simpl. by rewrite Hc. }
  destruct (IH _ _ Hc') as [IHc IHr]. split; [exact IHc|].
  intros before Hr. apply IHr.
  unfold launch. simpl. rewrite Hc, Hr.
  destruct (match dedupKey t with
            | Some k => existsb (String.eqb k) (cacheKeys st')
            | None => false
            end); [reflexivity | by rewrite app_assoc].
Qed.

(** The state that the requests and the cache of a run are read from. *)
Lemma initlizeUsageData_launches p response st :
  signedIn p -> guarded response = false ->
  requests (complete (initlizeUsageData p st) response)
  = requests (foldl launch (issue getProxyUISettings st) (allDataPromises p))
  /\ cacheKeys (complete (initlizeUsageData p st) response)
     = cacheKeys (foldl launch (issue getProxyUISettings st) (allDataPromises p)).
Proof.
  intros Hin Hguard. unfold complete.
  rewrite (initlizeUsageData_signedIn p st Hin).
  cbn [stateOf microtask answer]. rewrite Hguard.
  set (st2 := match response with
              | Some ps => setProxySettings ps (issue getProxyUISettings st)
              | None => issue getProxyUISettings st
              end).
  destruct (requests_setProxySettings response (issue getProxyUISettings st))
    as [Hr Hc]. fold st2 in Hr, Hc.
  destruct (foldl_launch_requests_cache (allDataPromises p) st2
              (issue getProxyUISettings st) Hc) as [Hc' Hr'].
  specialize (Hr' [] Hr). simpl in Hr'.
  destruct (forEachCatch (map handleOf (dataFetches p))); simpl; auto.
Qed.

(** X7: a second run shares what is in flight.  When [initlizeUsageData]
    runs again before any call of the first run has settled, the calls
    made through [deduplicatedRequest] are not sent again: the second
    run sends the settings call and the calls that bypass the cache, and
    no others.  Once the calls of the first run have settled, a run sends
    all of them again. *)
Theorem rerun_repeats_only_undeduplicated_calls
    (p : Props) (first second : option ProxySettings)
    (outcome : Endpoint -> CallOutcome) :
  signedIn p -> guarded first = false -> guarded second = false ->
  let st1 := complete (initlizeUsageData p (initialPage p)) first in
  requests st1 = getProxyUISettings :: map endpoint (allDataPromises p)
  /\ requests (complete (initlizeUsageData p st1) second)
     = (requests st1
        ++ getProxyUISettings :: undeduplicated (allDataPromises p))%list
  /\ requests (complete (initlizeUsageData p (settleAll outcome st1)) second)
     = (requests st1
        ++ getProxyUISettings :: map endpoint (allDataPromises p))%list.
Proof.
  intros Hin H1 H2 st1.
  destruct (initlizeUsageData_launches p first (initialPage p) Hin H1) as [Hr1 Hc1].
  fold st1 in Hr1, Hc1.
  destruct (initlizeUsageData_launches p second st1 Hin H2) as [Hr2 _].
  destruct (initlizeUsageData_launches p second (settleAll outcome st1) Hin H2)
    as [Hr3 _].
  rewrite Hr2, Hr3. clear Hr2 Hr3.
  set (start := {| proxySettings := None; componentLoading := initialLoading;
                   requests := []; cacheKeys := cacheKeys st1; awaiting := [];
                   stream := LiveSpendStream.mountState None |}).
  destruct (foldl_launch_requests_cache (allDataPromises p)
              (issue getProxyUISettings st1) start eq_refl) as [_ Hsecond].
  specialize (Hsecond (requests st1 ++ [getProxyUISettings])%list).
  rewrite Hsecond by (simpl; by rewrite app_nil_r).
  set (fresh := {| proxySettings := None; componentLoading := initialLoading;
                   requests := []; cacheKeys := []; awaiting := [];
                   stream := LiveSpendStream.mountState None |}).
  destruct (foldl_launch_requests_cache (allDataPromises p)
              (issue getProxyUISettings (settleAll outcome st1)) fresh eq_refl)
    as [_ Hthird].
  specialize (Hthird (requests st1 ++ [getProxyUISettings])%list).
  rewrite Hthird by (simpl; by rewrite app_nil_r).
  destruct (foldl_launch_requests_cache (allDataPromises p)
              (issue getProxyUISettings (initialPage p)) fresh eq_refl)
    as [Hcfirst Hfirst].
  specialize (Hfirst [getProxyUISettings]).
  rewrite Hfirst in Hr1 by reflexivity.
  unfold start. rewrite Hc1, Hcfirst. rewrite Hr1.
  rewrite <- !app_assoc. simpl.
  rewrite (allDataPromises_signedIn p Hin).
  unfold undeduplicated, fresh.
  destruct (isAdminOrAdminViewer (userRole p)); repeat split; reflexivity.
Qed.

Lemma rerun_repeats_only_undeduplicated_calls_witness :
  signedIn internalUserProps
  /\ guarded (Some unguardedSettings) = false
  /\ requests (complete
       (initlizeUsageData internalUserProps
          (complete (initlizeUsageData internalUserProps
                       (initialPage internalUserProps))
                    (Some unguardedSettings)))
       (Some unguardedSettings))
     = [ getProxyUISettings; fetchDashboardSummary; adminTopKeysCall;
         adminTopModelsCall; fetchActivitySummary; adminGlobalActivityPerModel;
         adminspendByProvider;
         getProxyUISettings; adminGlobalActivityPerModel; adminspendByProvider ].
Proof.
  assert (Hin : signedIn internalUserProps) by (repeat split; reflexivity).
  split; [exact Hin|]. split; [reflexivity|].
  pose proof (rerun_repeats_only_undeduplicated_calls internalUserProps
                (Some unguardedSettings) (Some unguardedSettings)
                (fun _ => Resolved) Hin eq_refl eq_refl) as H.
  cbv zeta in H. destruct H as (H1 & H2 & _).
  rewrite H2, H1. reflexivity.
Defined.

End UsageEffectFacts.

(** ** The admin panel: the form of the SSO modal *)

Module SSOFormFacts.

Import Js SSOConfig SSOForm.

Lemma optMember_truthy (v : Value) (k : string) :
  truthy (optMember v k) = true -> member v k = Returns (optMember v k).
Proof. destruct v; simpl; try discriminate. reflexivity. Qed.

Lemma member_truthy (v : Value) (k : string) :
  truthy v = true -> member v k = Returns (optMember v k).
Proof. destruct v; simpl; try discriminate; reflexivity. Qed.

(** What a form holds after some fields were copied into it. *)
Lemma copyFields_spec (source : Value) (ks : list string) :
  truthy source = true ->
  forall formData,
  exists formData',
    copyFields source ks formData = Returns formData'
    /\ (forall k v, getOwn formData' k = Some v ->
          getOwn formData k = Some v
          \/ (k ∈ ks /\ v = optMember source k /\ truthy v = true))
    /\ (forall k, k ∉ ks -> getOwn formData' k = getOwn formData k).
Proof.
  intros Hsrc. induction ks as [|k0 ks IH]; intros formData.
  - exists formData. simpl. repeat split; auto.
  - simpl. unfold copyField. rewrite (member_truthy _ _ Hsrc). simpl.
    destruct (IH (if truthy (optMember source k0)
                  then setProp formData k0 (optMember source k0)
                  else formData)) as (fd' & Hrun & Hin & Hout).
    exists fd'. split; [exact Hrun|]. split.
    + intros k v Hk. destruct (Hin k v Hk) as [Hold|(Hks & Hv & Ht)].
      * destruct (truthy (optMember source k0)) eqn:Et; [|by left].
        destruct (decide (k0 = k)) as [->|Hne].
        -- rewrite FillerFacts.getOwn_setProp_eq in Hold. injection Hold as <-.
           right. repeat split; auto. apply elem_of_cons. by left.
        -- rewrite FillerFacts.getOwn_setProp_ne in Hold by done. by left.
      * right. repeat split; auto. apply elem_of_cons. by right.
    + intros k Hk. rewrite Hout by (intros H; apply Hk, elem_of_cons; by right).
      destruct (truthy (optMember source k0)); [|reflexivity].
      apply FillerFacts.getOwn_setProp_ne. intros ->. apply Hk, elem_of_cons. by left.
Qed.

Lemma copyOptionalField_spec (config : Value) (k0 : string) (formData : Obj) :
  copyOptionalField config k0 formData
  = Returns (if truthy (optMember config k0)
             then setProp formData k0 (optMember config k0) else formData).
Proof.
  unfold copyOptionalField. destruct (truthy (optMember config k0)) eqn:E; [|reflexivity].
  by rewrite (optMember_truthy _ _ E).
Qed.

(** The provider shown is the one the flags of the panel announce. *)
Lemma providerToShow_spec (config : Value) :
  exists provider,
    providerToShow config = Returns provider
    /\ truthy provider = isSSOConfigured config
    /\ (hasExplicitProvider config = true -> provider = optMember config "sso_provider")
    /\ (hasExplicitProvider config = false ->
        provider = if hasGoogleConfig config then VStr "google"
                   else if hasMicrosoftConfig config then VStr "microsoft"
                   else if hasGenericConfig config then VStr "generic"
                   else VNull).
Proof.
  unfold providerToShow, isSSOConfigured, hasExplicitProvider, hasGoogleConfig,
    hasMicrosoftConfig, hasGenericConfig.
  destruct (truthy (optMember config "sso_provider")) eqn:Ee.
  - rewrite (optMember_truthy _ _ Ee). eexists. split; [reflexivity|].
    rewrite Ee, !orb_true_r. repeat split; auto. discriminate.
  - destruct (truthy (optMember (optMember config "google") "google_client_id"));
      [eexists; repeat split; auto; discriminate|].
    destruct (truthy (optMember (optMember config "microsoft") "microsoft_client_id"));
      [eexists; repeat split; auto; discriminate|].
    destruct (truthy (optMember (optMember config "generic") "generic_client_id"));
      eexists; repeat split; auto; discriminate.
Qed.

Lemma getOwn_setProp_cases (o : Obj) (k0 k : string) (v0 v : Value) :
  getOwn (setProp o k0 v0) k = Some v ->
  (k = k0 /\ v = v0) \/ (k <> k0 /\ getOwn o k = Some v).
Proof.
  intros H. destruct (decide (k0 = k)) as [->|Hne].
  - rewrite FillerFacts.getOwn_setProp_eq in H. injection H as <-. by left.
  - rewrite FillerFacts.getOwn_setProp_ne in H by done. right. split; [congruence|done].
Qed.

Ltac not_in_list :=
  let H := fresh in
  intros H; repeat (apply elem_of_cons in H as [H|H]; [discriminate|]);
  by apply elem_of_nil in H.

Ltac in_list :=
  repeat first [ apply list_elem_of_here | apply list_elem_of_further ].

(** The two fields copied whatever the provider. *)
Lemma basic_stage (config : Value) :
  let fd := (if truthy (optMember config "user_email")
             then setProp (if truthy (optMember config "proxy_base_url")
                           then setProp [] "proxy_base_url"
                                  (optMember config "proxy_base_url")
                           else []) "user_email" (optMember config "user_email")
             else if truthy (optMember config "proxy_base_url")
                  then setProp [] "proxy_base_url" (optMember config "proxy_base_url")
                  else []) in
  forall k v, getOwn fd k = Some v ->
    (k = "proxy_base_url" \/ k = "user_email")
    /\ v = optMember config k /\ truthy v = true.
Proof.
  intros fd k v. unfold fd.
  destruct (truthy (optMember config "user_email")) eqn:E1;
    destruct (truthy (optMember config "proxy_base_url")) eqn:E2; intros H.
  - apply getOwn_setProp_cases in H as [[-> ->]|[_ H]]; [auto|].
    apply getOwn_setProp_cases in H as [[-> ->]|[_ H]]; [auto|discriminate].
  - apply getOwn_setProp_cases in H as [[-> ->]|[_ H]]; [auto|discriminate].
  - apply getOwn_setProp_cases in H as [[-> ->]|[_ H]]; [auto|discriminate].
  - discriminate.
Qed.

(** X8: the form is pre-filled for one provider.  For every value of the
    configuration, [buildFormDataFromConfig] returns (it never throws); the
    form data holds only fields of the form, each with a truthy value
    read from the configuration; it names a provider exactly when the
    panel counts SSO as configured; and it holds the fields of the
    provider it names and of no other. *)
Theorem form_is_prefilled_for_one_provider (config : Value) :
  exists formData,
    buildFormDataFromConfig config = Returns formData
    /\ (forall k v, getOwn formData k = Some v -> k ∈ formFields /\ truthy v = true)
    /\ (forall k v, getOwn formData k = Some v -> k ∈ basicFields ->
          k <> "sso_provider" -> v = optMember config k)
    /\ (is_Some (getOwn formData "sso_provider") <-> isSSOConfigured config = true)
    /\ (forall k v, getOwn formData k = Some v -> k ∈ googleFields ->
          getOwn formData "sso_provider" = Some (VStr "google")
          /\ v = optMember (optMember config "google") k)
    /\ (forall k v, getOwn formData k = Some v -> k ∈ microsoftFields ->
          getOwn formData "sso_provider" = Some (VStr "microsoft")
          /\ v = optMember (optMember config "microsoft") k)
    /\ (forall k v, getOwn formData k = Some v -> k ∈ genericFields ->
          (getOwn formData "sso_provider" = Some (VStr "generic")
           \/ getOwn formData "sso_provider" = Some (VStr "okta"))
          /\ v = optMember (optMember config "generic") k).
Proof.
  unfold buildFormDataFromConfig.
  rewrite copyOptionalField_spec. simpl mbind. unfold mbind, completion_bind, Js.bind.
  rewrite copyOptionalField_spec.
  pose proof (basic_stage config) as Hbasic. simpl in Hbasic.
  set (fd := if truthy (optMember config "user_email") then _ else _) in *.
  destruct (providerToShow_spec config) as (provider & -> & Htruthy & _).
  assert (Hfd_fields : forall k v, getOwn fd k = Some v ->
            k ∈ formFields /\ truthy v = true).
  { intros k v H. destruct (Hbasic k v H) as ([->| ->] & _ & Ht); split; auto;
      unfold formFields, basicFields; simpl; in_list. }
  assert (Hfd_no : forall k, k <> "proxy_base_url" -> k <> "user_email" ->
            getOwn fd k = None).
  { intros k H1 H2. destruct (getOwn fd k) as [v|] eqn:E; [|reflexivity].
    destruct (Hbasic k v E) as ([->| ->] & _); congruence. }
  destruct (truthy provider) eqn:Hprov.
  2:{ exists fd. split; [reflexivity|]. split; [exact Hfd_fields|]. split.
      { intros k v H _ _. by destruct (Hbasic k v H) as (_ & -> & _). }
      split.
      { rewrite <- Htruthy. rewrite Hfd_no by discriminate.
        split; [intros [? ?]; discriminate | discriminate]. }
      split; [|split]; intros k v H Hk; exfalso;
        rewrite Hfd_no in H; try discriminate;
        intros ->; revert Hk; not_in_list. }
  set (fd3 := setProp fd "sso_provider" provider).
  assert (Hfd3 : forall k v, getOwn fd3 k = Some v ->
            (k = "sso_provider" /\ v = provider) \/ getOwn fd k = Some v).
  { intros k v H. apply getOwn_setProp_cases in H as [[-> ->]|[_ H]]; auto. }
  assert (Hfd3p : getOwn fd3 "sso_provider" = Some provider)
    by apply FillerFacts.getOwn_setProp_eq.
  (* the data when no provider block applies *)
  assert (Hplain :
    (forall k v, getOwn fd3 k = Some v -> k ∈ formFields /\ truthy v = true)
    /\ (forall k v, getOwn fd3 k = Some v -> k ∈ basicFields ->
          k <> "sso_provider" -> v = optMember config k)
    /\ (forall k, k ∉ basicFields -> getOwn fd3 k = None)).
  { split; [|split].
    - intros k v H. destruct (Hfd3 k v H) as [[-> ->]|H']; [|by apply Hfd_fields].
      split; [unfold formFields, basicFields; simpl; in_list | exact Hprov].
    - intros k v H _ Hne. destruct (Hfd3 k v H) as [[-> _]|H']; [done|].
      by destruct (Hbasic k v H') as (_ & -> & _).
    - intros k Hk. destruct (getOwn fd3 k) as [v|] eqn:E; [|reflexivity].
      exfalso. apply Hk. destruct (Hfd3 k v E) as [[-> _]|H'].
      + unfold basicFields. in_list.
      + destruct (Hbasic k v H') as ([->| ->] & _); unfold basicFields; in_list. }
  destruct Hplain as (Hp1 & Hp2 & Hp3).
  (* one provider block *)
  assert (Hblock : forall (name : string) (fields : list string),
    truthy (optMember config name) = true ->
    (forall k, k ∈ fields -> k ∉ basicFields) ->
    (forall k, k ∈ fields -> k ∈ formFields) ->
    exists formData,
      (source ← member config name; copyFields source fields fd3) = Returns formData
      /\ (forall k v, getOwn formData k = Some v -> k ∈ formFields /\ truthy v = true)
      /\ (forall k v, getOwn formData k = Some v -> k ∈ basicFields ->
            k <> "sso_provider" -> v = optMember config k)
      /\ getOwn formData "sso_provider" = Some provider
      /\ (forall k v, getOwn formData k = Some v -> k ∉ basicFields ->
            k ∈ fields /\ v = optMember (optMember config name) k)).
  { intros name fields Hname Hdisj Hform.
    rewrite (optMember_truthy _ _ Hname). simpl.
    destruct (copyFields_spec (optMember config name) fields Hname fd3)
      as (formData & -> & Hin & Hout).
    exists formData. split; [reflexivity|]. split; [|split; [|split]].
    - intros k v H. destruct (Hin k v H) as [Hold|(Hk & _ & Ht)]; [by apply Hp1|].
      split; [by apply Hform | exact Ht].
    - intros k v H Hk Hne. destruct (Hin k v H) as [Hold|(Hk' & _)];
        [by apply Hp2 | by apply Hdisj in Hk'].
    - rewrite Hout; [exact Hfd3p|]. intros H. by apply Hdisj in H; apply H;
        unfold basicFields; in_list.
    - intros k v H Hk. destruct (Hin k v H) as [Hold|(Hk' & -> & _)]; [|done].
      rewrite Hp3 in Hold by done. discriminate. }
  assert (Hissome : is_Some (Some provider) <-> isSSOConfigured config = true).
  { rewrite <- Htruthy. split; [done | eauto]. }
  assert (Hg : forall k, k ∈ googleFields -> k ∉ basicFields)
    by (intros k Hk Hb; revert Hk; repeat (apply elem_of_cons in Hb as [->|Hb]; [not_in_list|]);
        by apply elem_of_nil in Hb).
  assert (Hm : forall k, k ∈ microsoftFields -> k ∉ basicFields)
    by (intros k Hk Hb; revert Hk; repeat (apply elem_of_cons in Hb as [->|Hb]; [not_in_list|]);
        by apply elem_of_nil in Hb).
  assert (Hn : forall k, k ∈ genericFields -> k ∉ basicFields)
    by (intros k Hk Hb; revert Hk; repeat (apply elem_of_cons in Hb as [->|Hb]; [not_in_list|]);
        by apply elem_of_nil in Hb).
  assert (Hgm : forall k, k ∈ googleFields -> k ∉ microsoftFields)
    by (intros k Hk Hb; revert Hk; repeat (apply elem_of_cons in Hb as [->|Hb]; [not_in_list|]);
        by apply elem_of_nil in Hb).
  assert (Hgn : forall k, k ∈ googleFields -> k ∉ genericFields)
    by (intros k Hk Hb; revert Hk; repeat (apply elem_of_cons in Hb as [->|Hb]; [not_in_list|]);
        by apply elem_of_nil in Hb).
  assert (Hmn : forall k, k ∈ microsoftFields -> k ∉ genericFields)
    by (intros k Hk Hb; revert Hk; repeat (apply elem_of_cons in Hb as [->|Hb]; [not_in_list|]);
        by apply elem_of_nil in Hb).
  assert (Hgf : forall k, k ∈ googleFields -> k ∈ formFields)
    by (intros k Hk; unfold formFields; apply elem_of_app; right;
        apply elem_of_app; by left).
  assert (Hmf : forall k, k ∈ microsoftFields -> k ∈ formFields)
    by (intros k Hk; unfold formFields; apply elem_of_app; right;
        apply elem_of_app; right; apply elem_of_app; by left).
  assert (Hnf : forall k, k ∈ genericFields -> k ∈ formFields)
    by (intros k Hk; unfold formFields; apply elem_of_app; right;
        apply elem_of_app; right; apply elem_of_app; by right).
  fold fd3.
  destruct (isString provider "google" && truthy (optMember config "google")) eqn:Egoogle.
  { apply andb_true_iff in Egoogle as [Eis Egoogle].
    assert (provider = VStr "google") as Hpv.
    { destruct provider; try discriminate. simpl in Eis.
      by apply String.eqb_eq in Eis as ->. }
    destruct (Hblock "google" googleFields Egoogle Hg Hgf)
      as (formData & Hrun & H1 & H2 & H3 & H4).
    exists formData. split; [exact Hrun|]. split; [exact H1|]. split; [exact H2|].
    split; [by rewrite H3|]. rewrite H3, Hpv.
    split; [|split].
    - intros k v H Hk. split; [reflexivity|]. by apply (H4 k v H), Hg.
    - intros k v H Hk. destruct (H4 k v H (Hm k Hk)) as [Hk' _].
      by apply Hgm in Hk'.
    - intros k v H Hk. destruct (H4 k v H (Hn k Hk)) as [Hk' _].
      by apply Hgn in Hk'. }
  destruct (isString provider "microsoft" && truthy (optMember config "microsoft"))
    eqn:Emicrosoft.
  { apply andb_true_iff in Emicrosoft as [Eis Emicrosoft].
    assert (provider = VStr "microsoft") as Hpv.
    { destruct provider; try discriminate. simpl in Eis.
      by apply String.eqb_eq in Eis as ->. }
    destruct (Hblock "microsoft" microsoftFields Emicrosoft Hm Hmf)
      as (formData & Hrun & H1 & H2 & H3 & H4).
    exists formData. split; [exact Hrun|]. split; [exact H1|]. split; [exact H2|].
    split; [by rewrite H3|]. rewrite H3, Hpv.
    split; [|split].
    - intros k v H Hk. destruct (H4 k v H (Hg k Hk)) as [Hk' _].
      by apply Hgm in Hk.
    - intros k v H Hk. split; [reflexivity|]. by apply (H4 k v H), Hm.
    - intros k v H Hk. destruct (H4 k v H (Hn k Hk)) as [Hk' _].
      by apply Hmn in Hk'. }
  destruct ((isString provider "generic" || isString provider "okta")
            && truthy (optMember config "generic")) eqn:Egeneric.
  { apply andb_true_iff in Egeneric as [Eis Egeneric].
    assert (provider = VStr "generic" \/ provider = VStr "okta") as Hpv.
    { destruct provider; try discriminate. simpl in Eis.
      apply orb_true_iff in Eis as [Eis|Eis]; apply String.eqb_eq in Eis as ->; auto. }
    destruct (Hblock "generic" genericFields Egeneric Hn Hnf)
      as (formData & Hrun & H1 & H2 & H3 & H4).
    exists formData. split; [exact Hrun|]. split; [exact H1|]. split; [exact H2|].
    split; [by rewrite H3|]. rewrite H3.
    split; [|split].
    - intros k v H Hk. destruct (H4 k v H (Hg k Hk)) as [Hk' _].
      by apply Hgn in Hk.
    - intros k v H Hk. destruct (H4 k v H (Hm k Hk)) as [Hk' _].
      by apply Hmn in Hk.
    - intros k v H Hk. split; [|by apply (H4 k v H), Hn].
      destruct Hpv as [-> | ->]; auto. }
  exists fd3. split; [reflexivity|]. split; [exact Hp1|]. split; [exact Hp2|].
  split; [by rewrite Hfd3p|].
  split; [|split]; intros k v H Hk.
  - rewrite Hp3 in H by (by apply Hg). discriminate.
  - rewrite Hp3 in H by (by apply Hm). discriminate.
  - rewrite Hp3 in H by (by apply Hn). discriminate.
Qed.

Lemma optMember_falsy (v : Value) (k : string) :
  truthy v = false -> optMember v k = VUndefined.
Proof. destruct v; simpl; try reflexivity. discriminate. Qed.

Lemma clientIdOf_spec (ssoConfig : Value) (provider k : string) :
  truthy ssoConfig = true ->
  exists v, clientIdOf ssoConfig provider k = Returns v
            /\ truthy v = truthy (optMember (optMember ssoConfig provider) k).
Proof.
  intros Hc. unfold clientIdOf. rewrite (member_truthy _ _ Hc). simpl.
  destruct (truthy (optMember ssoConfig provider)) eqn:Ep.
  - rewrite (member_truthy _ _ Ep). eauto.
  - eexists. split; [reflexivity|]. by rewrite Ep, (optMember_falsy _ _ Ep).
Qed.

(** X9: the panel and the modals agree on whether SSO is configured.
    The [isConfigured] prop given to the modals never throws and equals
    the flag [isSSOConfigured] that picks the label of the button, for
    every value of the configuration in the state. *)
Theorem configured_flags_agree (ssoConfig : Value) :
  isConfigured ssoConfig = Returns (isSSOConfigured ssoConfig).
Proof.
  unfold isConfigured, isSSOConfigured, hasGoogleConfig, hasMicrosoftConfig,
    hasGenericConfig, hasExplicitProvider.
  destruct (truthy ssoConfig) eqn:Hc.
  2:{ by rewrite !(optMember_falsy _ _ Hc). }
  destruct (clientIdOf_spec ssoConfig "google" "google_client_id" Hc)
    as (g & -> & <-).
  simpl. destruct (truthy g); [reflexivity|].
  destruct (clientIdOf_spec ssoConfig "microsoft" "microsoft_client_id" Hc)
    as (m & -> & <-).
  simpl. destruct (truthy m); [reflexivity|].
  destruct (clientIdOf_spec ssoConfig "generic" "generic_client_id" Hc)
    as (n & -> & <-).
  simpl. destruct (truthy n); [reflexivity|].
  by rewrite (member_truthy _ _ Hc).
Qed.

(** *** The configuration that [handleSSOUpdate] sends *)

Lemma hasValue_cases (value : Value) :
  (hasValue value = Returns true /\ kept value)
  \/ (hasValue value = Returns false /\ ~ kept value
      /\ (truthy value = true -> exists s, value = VStr s))
  \/ (hasValue value = Throws TypeError /\ truthy value = true
      /\ forall s, value <> VStr s).
Proof.
  unfold hasValue, kept. destruct (truthy value) eqn:Et.
  - destruct value; try (right; right; repeat split; auto; discriminate).
    destruct (String.eqb (trim s) "") eqn:E1; simpl.
    + right; left. repeat split; eauto.
      intros (s' & [= <-] & Hb & _). by apply String.eqb_eq in E1.
    + destruct (String.eqb s "***") eqn:E2; simpl.
      * right; left. repeat split; eauto.
        intros (s' & [= <-] & _ & Hm). by apply String.eqb_eq in E2.
      * left. split; [reflexivity|]. exists s.
        apply String.eqb_neq in E1, E2. auto.
  - right; left. repeat split; [|discriminate].
    intros (s & -> & Hb & _). simpl in Et. apply negb_false_iff, String.eqb_eq in Et.
    subst s. by apply Hb.
Qed.

Lemma addFields_spec (formValues : Obj) (envVarMap : list (string * string)) :
  forall config config',
  addFields formValues envVarMap config = Returns config' ->
  (forall k v, getOwn config' k = Some v ->
     getOwn config k = Some v
     \/ (k ∈ envVarMap.*1 /\ v = getProp formValues k /\ kept v))
  /\ (forall k v, getOwn config k = Some v ->
        getOwn config' k = Some v
        \/ (k ∈ envVarMap.*1 /\ getOwn config' k = Some (getProp formValues k)))
  /\ (forall k, k ∈ envVarMap.*1 -> kept (getProp formValues k) ->
        getOwn config' k = Some (getProp formValues k))
  /\ (forall k, k ∈ envVarMap.*1 -> truthy (getProp formValues k) = true ->
        exists s, getProp formValues k = VStr s).
Proof.
  induction envVarMap as [|[formKey envKey] rest IH]; intros config config' Hrun.
  - simpl in Hrun. injection Hrun as <-.
    repeat split; auto; intros k Hk; by apply elem_of_nil in Hk.
  - simpl in Hrun. unfold addField in Hrun. simpl in Hrun.
    destruct (hasValue_cases (getProp formValues formKey))
      as [[Hv Hkept]|[(Hv & Hnot & Hstr)|(Hv & _)]];
      rewrite Hv in Hrun; simpl in Hrun; [| |discriminate].
    + destruct (IH _ _ Hrun) as (H1 & H2 & H3 & H4).
      split; [|split; [|split]].
      * intros k v Hk. destruct (H1 k v Hk) as [Hold|(Hin & ? & ?)].
        -- apply getOwn_setProp_cases in Hold as [[-> ->]|[_ Hold]]; [|by left].
           right. repeat split; auto. apply elem_of_cons. by left.
        -- right. repeat split; auto. apply elem_of_cons. by right.
      * intros k v Hk. destruct (decide (k = formKey)) as [->|Hne].
        -- right. split; [apply elem_of_cons; by left|].
           destruct (H2 formKey (getProp formValues formKey)
                       (FillerFacts.getOwn_setProp_eq _ _ _)) as [Hc|[_ Hc]]; exact Hc.
        -- destruct (H2 k v) as [Hc|[Hin Hc]].
           { rewrite FillerFacts.getOwn_setProp_ne by done. exact Hk. }
           { by left. }
           { right. split; [apply elem_of_cons; by right | exact Hc]. }
      * intros k Hk Hkk. apply elem_of_cons in Hk as [->|Hk]; [|by apply H3].
        destruct (H2 formKey (getProp formValues formKey)
                    (FillerFacts.getOwn_setProp_eq _ _ _)) as [Hc|[_ Hc]]; exact Hc.
      * intros k Hk Ht. apply elem_of_cons in Hk as [->|Hk]; [|by apply H4].
        destruct Hkept as (s & Hs & _). eauto.
    + destruct (IH _ _ Hrun) as (H1 & H2 & H3 & H4).
      split; [|split; [|split]].
      * intros k v Hk. destruct (H1 k v Hk) as [Hold|(Hin & ? & ?)]; [by left|].
        right. repeat split; auto. apply elem_of_cons. by right.
      * intros k v Hk. destruct (H2 k v Hk) as [Hc|[Hin Hc]]; [by left|].
        right. split; [apply elem_of_cons; by right | exact Hc].
      * intros k Hk Hkk. apply elem_of_cons in Hk as [->|Hk]; [done | by apply H3].
      * intros k Hk Ht. apply elem_of_cons in Hk as [->|Hk]; [by apply Hstr | by apply H4].
Qed.

Lemma addFields_returns (formValues : Obj) (envVarMap : list (string * string)) :
  (forall k, k ∈ envVarMap.*1 -> truthy (getProp formValues k) = true ->
     exists s, getProp formValues k = VStr s) ->
  forall config, exists config', addFields formValues envVarMap config = Returns config'.
Proof.
  induction envVarMap as [|[formKey envKey] rest IH]; intros Hstr config;
    [by eexists|].
  cbn [addFields]. unfold addField. cbn [fst].
  assert (Hrest : forall k, k ∈ rest.*1 -> truthy (getProp formValues k) = true ->
            exists s, getProp formValues k = VStr s).
  { intros k Hk. apply Hstr. apply elem_of_cons. by right. }
  destruct (hasValue_cases (getProp formValues formKey))
    as [[Hv _]|[(Hv & _)|(Hv & Ht & Hno)]]; rewrite Hv;
    cbn [mbind completion_bind Js.bind].
  - apply IH, Hrest.
  - apply IH, Hrest.
  - exfalso. destruct (Hstr formKey) as [s Hs]; [apply elem_of_cons; by left|done|].
    by apply (Hno s).
Qed.

(** What is sent to the backend about the fields of the provider. *)
Lemma buildConfig_spec (formValues : Obj)
    (providerConfig : option (list (string * string))) :
  ((exists config, buildConfig formValues providerConfig = Returns config)
   <-> (forall envVarMap k,
          providerConfig = Some envVarMap -> k ∈ envVarMap.*1 ->
          truthy (getProp formValues k) = true ->
          exists s, getProp formValues k = VStr s))
  /\ forall config,
       buildConfig formValues providerConfig = Returns config ->
       (forall k, k ∈ basicFields -> getOwn config k = Some (getProp formValues k))
       /\ (forall k v, getOwn config k = Some v -> k ∉ basicFields ->
             v = getProp formValues k /\ kept v
             /\ exists envVarMap, providerConfig = Some envVarMap /\ k ∈ envVarMap.*1)
       /\ (forall envVarMap k,
             providerConfig = Some envVarMap -> k ∈ envVarMap.*1 ->
             kept (getProp formValues k) ->
             getOwn config k = Some (getProp formValues k)).
Proof.
  set (start := [ ("sso_provider", getProp formValues "sso_provider");
                  ("proxy_base_url", getProp formValues "proxy_base_url");
                  ("user_email", getProp formValues "user_email") ]).
  assert (Hstart : forall k v, getOwn start k = Some v ->
            k ∈ basicFields /\ v = getProp formValues k).
  { intros k v H. unfold start in H. cbn [getOwn] in H.
    destruct (String.eqb_spec "sso_provider" k) as [<-|_];
      [injection H as <-; split; [unfold basicFields; in_list | done]|].
    destruct (String.eqb_spec "proxy_base_url" k) as [<-|_];
      [injection H as <-; split; [unfold basicFields; in_list | done]|].
    destruct (String.eqb_spec "user_email" k) as [<-|_];
      [injection H as <-; split; [unfold basicFields; in_list | done]|].
    discriminate. }
  assert (Hbasic : forall k, k ∈ basicFields ->
            getOwn start k = Some (getProp formValues k)).
  { intros k Hk. unfold basicFields in Hk.
    repeat (apply elem_of_cons in Hk as [->|Hk]; [reflexivity|]).
    by apply elem_of_nil in Hk. }
  unfold buildConfig. fold start. destruct providerConfig as [envVarMap|].
  - split.
    + split.
      * intros [config Hrun] env k [= <-] Hk Ht.
        destruct (addFields_spec _ _ _ _ Hrun) as (_ & _ & _ & H4). by apply H4.
      * intros Hstr. apply addFields_returns. intros k Hk. by apply (Hstr envVarMap).
    + intros config Hrun.
      destruct (addFields_spec _ _ _ _ Hrun) as (H1 & H2 & H3 & _).
      split; [|split].
      * intros k Hk. destruct (H2 k _ (Hbasic k Hk)) as [Hc|[_ Hc]]; exact Hc.
      * intros k v Hk Hnb. destruct (H1 k v Hk) as [Hold|(Hin & Hv & Hkept)].
        -- by destruct (Hstart k v Hold) as [Hb _].
        -- repeat split; eauto.
      * intros env k [= <-]. apply H3.
  - split.
    + split; [intros _ env k [=] | intros _; by eexists].
    + intros config [= <-]. split; [exact Hbasic|]. split.
      * intros k v Hk Hnb. by destruct (Hstart k v Hk) as [Hb _].
      * intros env k [=].
Qed.

(** X10: what [handleSSOUpdate] sends.  The configuration handed to the
    backend always carries the three basic fields with the values of the
    form; beside them it carries exactly the fields of the provider whose
    value in the form is a string that is not blank and not the mask
    [***] of a secret, each with the value of the form; and nothing is
    sent at all when a field of the provider holds a truthy value that is
    not a string, or when there is no access token. *)
Theorem sent_config_leaves_out_blank_and_masked_fields
    (accessToken : option string) (formValues : Obj)
    (providerConfig : option (list (string * string))) :
  (is_Some (configSent accessToken formValues providerConfig)
   <-> is_Some accessToken
       /\ forall envVarMap k,
            providerConfig = Some envVarMap -> k ∈ envVarMap.*1 ->
            truthy (getProp formValues k) = true ->
            exists s, getProp formValues k = VStr s)
  /\ forall config,
       configSent accessToken formValues providerConfig = Some config ->
       (forall k, k ∈ basicFields -> getOwn config k = Some (getProp formValues k))
       /\ (forall k v, getOwn config k = Some v -> k ∉ basicFields ->
             v = getProp formValues k /\ kept v
             /\ exists envVarMap, providerConfig = Some envVarMap /\ k ∈ envVarMap.*1)
       /\ (forall envVarMap k,
             providerConfig = Some envVarMap -> k ∈ envVarMap.*1 ->
             kept (getProp formValues k) ->
             getOwn config k = Some (getProp formValues k)).
Proof.
  destruct (buildConfig_spec formValues providerConfig) as [Hiff Hspec].
  unfold configSent. destruct accessToken as [tok|].
  - split.
    + split.
      * intros [config Hc]. split; [eauto|]. apply Hiff.
        destruct (buildConfig formValues providerConfig); try discriminate. eauto.
      * intros [_ Hstr]. apply Hiff in Hstr as [config ->]. eauto.
    + intros config Hc. apply Hspec.
      destruct (buildConfig formValues providerConfig); try discriminate.
      by injection Hc as ->.
  - split; [|discriminate].
    split; [intros [? ?]; discriminate | intros [[? ?] _]; discriminate].
Qed.

End SSOFormFacts.

(** ** The admin panel: the life of the cached configuration *)

Module SSOCacheFacts.

Import Js SSOConfig SSOForm.

Lemma restoreStored_storage (J : Json) (otherwise : PanelState -> PanelState)
    (st : PanelState) (stored : string) (parsed : Value) :
  localStorage st !! storageKey = Some stored -> stored <> "" ->
  parse J stored = Returns parsed ->
  localStorage (restoreStored J otherwise st) = localStorage st.
Proof.
  intros Hs Hne Hp. unfold restoreStored, getItem. rewrite Hs. simpl.
  destruct (String.eqb_spec stored ""); [done|]. simpl. by rewrite Hp.
Qed.

Lemma restoreStored_nothing (J : Json) (otherwise : PanelState -> PanelState)
    (st : PanelState) :
  localStorage st !! storageKey = None ->
  (forall s, ssoConfig (otherwise s) = VNull \/ ssoConfig (otherwise s) = ssoConfig s) ->
  ssoConfig st = VNull ->
  ssoConfig (restoreStored J otherwise st) = VNull.
Proof.
  intros Hs Ho Hnull. unfold restoreStored, getItem. rewrite Hs.
  destruct (Ho {| ssoConfig := ssoConfig st; isSSOConfigLoaded := isSSOConfigLoaded st;
                  localStorage := localStorage st;
                  storageLog := (storageLog st ++ [GetItem storageKey])%list;
                  formPrefill := formPrefill st |}) as [H|H]; rewrite H; auto.
Qed.

(** X11: a deleted configuration does not come back.  When the backend
    accepts the deletion that the user confirmed, the state holds no
    configuration, the cache holds none either, and whatever the next
    fetch of the panel meets (a failing call, an answer with no
    configuration, no token) the state stays without one.  When the user
    cancels, the call fails, the backend refuses or there is no token,
    the state and the cache are left as they were. *)
Theorem deleted_config_does_not_come_back
    (J : Json) (token : string) (response : Value) (st : PanelState) :
  isSuccess (optMember response "status") = true ->
  let deleted := handleDeleteSSO (Some token) true (Answers response) st in
  ssoConfig deleted = VNull
  /\ localStorage deleted !! storageKey = None
  /\ (forall accessToken reply,
        gaveConfig accessToken reply = false ->
        ssoConfig (fetchSSOConfig J accessToken reply deleted) = VNull)
  /\ (forall accessToken confirmed reply,
        accessToken = None \/ confirmed = false \/ accepted reply = false ->
        handleDeleteSSO accessToken confirmed reply st = st).
Proof.
  intros Hok deleted.
  assert (Hnull : ssoConfig deleted = VNull).
  { unfold deleted, handleDeleteSSO. by rewrite Hok. }
  assert (Hgone : localStorage deleted !! storageKey = None).
  { unfold deleted, handleDeleteSSO. rewrite Hok. simpl. apply lookup_delete_eq. }
  split; [exact Hnull|]. split; [exact Hgone|]. split.
  - intros accessToken reply Hno. unfold fetchSSOConfig, gaveConfig in *.
    destruct accessToken as [tok|].
    + destruct reply as [|answer]; simpl in *.
      * apply restoreStored_nothing; auto.
      * rewrite Hno. reflexivity.
    + simpl. apply restoreStored_nothing; auto.
  - intros accessToken confirmed reply Hcase. unfold handleDeleteSSO.
    destruct accessToken; [|reflexivity].
    destruct confirmed; [|reflexivity].
    destruct reply as [|answer]; [reflexivity|].
    destruct Hcase as [H|[H|H]]; try discriminate.
    simpl in H. by rewrite H.
Qed.

Lemma deleted_config_does_not_come_back_witness :
  isSuccess (optMember (VObj [("status", VStr "success")]) "status") = true
  /\ ssoConfig (fetchSSOConfig providerJson (Some "sk-1") CallFails
                  (handleDeleteSSO (Some "sk-1") true
                     (Answers (VObj [("status", VStr "success")]))
                     (setSSOConfig (VObj [("sso_provider", VStr "okta")])
                        (initialPanel {[ storageKey := "okta" ]})))) = VNull.
Proof.
  split; [reflexivity|].
  destruct (deleted_config_does_not_come_back providerJson "sk-1"
              (VObj [("status", VStr "success")])
              (setSSOConfig (VObj [("sso_provider", VStr "okta")])
                 (initialPanel {[ storageKey := "okta" ]})) eq_refl)
    as (_ & _ & Hfetch & _).
  apply Hfetch. reflexivity.
Defined.

(** What the three writers of the cache leave in it. *)
Lemma fetchSSOConfig_writes (J : Json) (token : string) (response : Value)
    (st : PanelState) :
  truthy (optMember response "config") = true ->
  localStorage (fetchSSOConfig J (Some token) (Answers response) st) !! storageKey
  = Some (stringify J (optMember response "config")).
Proof.
  intros Hc. unfold fetchSSOConfig. rewrite Hc. simpl. apply lookup_insert_eq.
Qed.

Lemma handleSSOUpdate_writes (J : Json) (token : string) (update refresh : Value)
    (st : PanelState) :
  isSuccess (optMember update "status") = true ->
  truthy (optMember refresh "config") = true ->
  localStorage (handleSSOUpdate J (Some token) (Answers update) (Answers refresh) st)
    !! storageKey
  = Some (stringify J (optMember refresh "config")).
Proof.
  intros Hok Hc. unfold handleSSOUpdate. rewrite Hok, Hc. simpl. apply lookup_insert_eq.
Qed.

Lemma fetchSSOConfig_restores (J : Json) (accessToken : option string) (reply : Reply)
    (st : PanelState) (stored : string) (parsed : Value) :
  reply = CallFails \/ accessToken = None ->
  localStorage st !! storageKey = Some stored -> stored <> "" ->
  parse J stored = Returns parsed ->
  ssoConfig (fetchSSOConfig J accessToken reply st) = parsed.
Proof.
  intros Hcase Hs Hne Hp. unfold fetchSSOConfig.
  destruct accessToken as [tok|].
  - destruct Hcase as [-> |]; [|discriminate]. simpl.
    by apply (SSOConfigFacts.restoreStored_parsed J _ st stored).
  - simpl. by apply (SSOConfigFacts.restoreStored_parsed J _ st stored).
Qed.

(** X12: the cache gives back what was written.  On a host whose
    [JSON.parse] reads back what [JSON.stringify] wrote, the
    configuration that a fetch received, or that the backend gave after
    an accepted update, is the one in the state after a later fetch that
    cannot reach the backend: because the call fails, or because there
    is no token. *)
Theorem cached_config_is_read_back
    (J : Json) (token : string) (config : Value) (st : PanelState)
    (accessToken : option string) (reply : Reply) :
  truthy config = true -> readsBack J config ->
  reply = CallFails \/ accessToken = None ->
  (forall response,
     optMember response "config" = config ->
     ssoConfig (fetchSSOConfig J accessToken reply
                  (fetchSSOConfig J (Some token) (Answers response) st)) = config)
  /\ (forall update refresh,
        isSuccess (optMember update "status") = true ->
        optMember refresh "config" = config ->
        ssoConfig (fetchSSOConfig J accessToken reply
                     (handleSSOUpdate J (Some token) (Answers update) (Answers refresh) st))
        = config).
Proof.
  intros Ht [Hne Hparse] Hcase. split.
  - intros response Hc.
    apply (fetchSSOConfig_restores J _ _ _ (stringify J config)); auto.
    rewrite fetchSSOConfig_writes by (by rewrite Hc). by rewrite Hc.
  - intros update refresh Hok Hc.
    apply (fetchSSOConfig_restores J _ _ _ (stringify J config)); auto.
    rewrite handleSSOUpdate_writes by (done || by rewrite Hc). by rewrite Hc.
Qed.

Lemma cached_config_is_read_back_witness :
  truthy (VObj [("sso_provider", VStr "okta")]) = true
  /\ readsBack providerJson (VObj [("sso_provider", VStr "okta")])
  /\ ssoConfig (fetchSSOConfig providerJson (Some "sk-1") CallFails
                  (fetchSSOConfig providerJson (Some "sk-1")
                     (Answers (VObj [("config", VObj [("sso_provider", VStr "okta")])]))
                     (initialPanel ∅)))
     = VObj [("sso_provider", VStr "okta")].
Proof.
  assert (Hrb : readsBack providerJson (VObj [("sso_provider", VStr "okta")])).
  { split; [discriminate | reflexivity]. }
  split; [reflexivity|]. split; [exact Hrb|].
  destruct (cached_config_is_read_back providerJson "sk-1"
              (VObj [("sso_provider", VStr "okta")]) (initialPanel ∅)
              (Some "sk-1") CallFails eq_refl Hrb (or_introl eq_refl))
    as [Hfetch _].
  apply Hfetch. reflexivity.
Defined.

(** X13: the cache outlives the configuration on the server.  When the
    backend answers that there is no configuration, the fetch does not
    touch the cached copy; the next fetch whose call fails puts the
    cached configuration into the state. *)
Theorem cache_outlives_an_empty_answer
    (J : Json) (token : string) (response : Value) (st : PanelState)
    (stored : string) (old : Value) :
  localStorage st !! storageKey = Some stored -> stored <> "" ->
  parse J stored = Returns old ->
  truthy (optMember response "config") = false ->
  let answered := fetchSSOConfig J (Some token) (Answers response) st in
  localStorage answered !! storageKey = Some stored
  /\ ssoConfig (fetchSSOConfig J (Some token) CallFails answered) = old.
Proof.
  intros Hs Hne Hp Hc answered.
  assert (Hkeep : localStorage answered !! storageKey = Some stored).
  { unfold answered, fetchSSOConfig. rewrite Hc. simpl.
    by rewrite (restoreStored_storage J _ st stored old). }
  split; [exact Hkeep|].
  apply (fetchSSOConfig_restores J _ _ _ stored); auto.
Qed.

Lemma cache_outlives_an_empty_answer_witness :
  (initialPanel {[ storageKey := "okta" ]}).(localStorage) !! storageKey = Some "okta"
  /\ "okta" <> ""
  /\ parse providerJson "okta" = Returns (VObj [("sso_provider", VStr "okta")])
  /\ truthy (optMember (VObj [("config", VNull)]) "config") = false
  /\ ssoConfig (fetchSSOConfig providerJson (Some "sk-1") CallFails
                  (fetchSSOConfig providerJson (Some "sk-1")
                     (Answers (VObj [("config", VNull)]))
                     (initialPanel {[ storageKey := "okta" ]})))
     = VObj [("sso_provider", VStr "okta")].
Proof.
  assert (Hs : (initialPanel {[ storageKey := "okta" ]}).(localStorage) !! storageKey
               = Some "okta") by reflexivity.
  assert (Hne : "okta" <> "") by discriminate.
  split; [exact Hs|]. split; [exact Hne|]. split; [reflexivity|]. split; [reflexivity|].
  exact (proj2 (cache_outlives_an_empty_answer providerJson "sk-1"
                  (VObj [("config", VNull)])
                  (initialPanel {[ storageKey := "okta" ]})
                  "okta" (VObj [("sso_provider", VStr "okta")])
                  Hs Hne eq_refl eq_refl)).
Defined.

End SSOCacheFacts.

(** ** The admin panel: the list of allowed IP addresses *)

Module AllowedIPsFacts.

Import Js AllowedIPs.

Lemma orPlaceholder_rows (data : option (list string)) :
  exists ip rest, orPlaceholder data = ip :: rest.
Proof. destruct data as [[|ip rest]|]; simpl; eauto. Qed.

(** X14: the table of addresses does not come up empty.  For a premium
    user [handleShowAllowedIPs] always opens the modal with at least one
    row: the list of the backend when it has an address, the line
    [All IP Addresses Allowed] when the list is empty or missing, when
    the call fails or when there is no token; at most one call is made.
    For any other user it makes no call, reports an error and leaves the
    list and the modal as they were.  [confirmDeleteIP] keeps a list
    that has a row non-empty. *)
Theorem allowed_ips_table_has_a_row
    (premiumUser : bool) (accessToken : option string) (reply : ListReply)
    (st : IPState) :
  let shown := handleShowAllowedIPs premiumUser accessToken reply st in
  (premiumUser = true ->
     isAllowedIPModalVisible shown = true
     /\ hasRows shown
     /\ (forall ip rest,
           truthyString accessToken = true ->
           reply = ListAnswers (Some (ip :: rest)) ->
           allowedIPs shown = Some (ip :: rest))
     /\ (truthyString accessToken = false \/ reply = ListFails
         \/ reply = ListAnswers None \/ reply = ListAnswers (Some []) ->
         allowedIPs shown = Some [all_ip_address_allowed])
     /\ ipCalls shown
        = (ipCalls st ++ if truthyString accessToken then [GetAllowedIPs] else [])%list)
  /\ (premiumUser = false ->
        ipCalls shown = ipCalls st
        /\ allowedIPs shown = allowedIPs st
        /\ isAllowedIPModalVisible shown = isAllowedIPModalVisible st
        /\ notices shown = (notices st ++ [ErrorNotice])%list)
  /\ (forall deleted listed,
        hasRows st -> hasRows (confirmDeleteIP accessToken deleted listed st)).
Proof.
  intros shown. unfold shown, handleShowAllowedIPs. split; [|split].
  - intros ->. simpl. split; [reflexivity|].
    destruct (truthyString accessToken) eqn:Etok.
    + destruct reply as [|data]; simpl.
      * repeat split; eauto; try discriminate.
        unfold hasRows. simpl. eauto.
      * split.
        { unfold hasRows. simpl. destruct (orPlaceholder_rows data) as (ip & rest & ->).
          eauto. }
        split; [intros ip rest _ [= ->]; reflexivity|].
        split; [|reflexivity].
        intros [H|[H|[H|H]]]; try discriminate; by injection H as ->.
    + simpl. repeat split; eauto; try discriminate.
      * unfold hasRows. simpl. eauto.
      * by rewrite app_nil_r.
  - intros ->. simpl. auto.
  - intros deleted listed (ip & rest & Hrows). unfold confirmDeleteIP.
    destruct (ipToDelete st) as [chosen|]; [|unfold hasRows; eauto].
    destruct (truthyString (Some chosen) && truthyString accessToken);
      [|unfold hasRows; eauto].
    destruct deleted; [|unfold hasRows; simpl; eauto].
    destruct listed as [|[[|ip' rest']|]]; unfold hasRows; simpl; eauto.
Qed.

(** X15: a confirmed deletion removes the address that was chosen, and
    ends the dialog.  After [handleDeleteIP(ip)], with a token, confirming
    sends the deletion of [ip] and of no other address, then at most one
    call for the new list; whatever the calls answer, the dialog is
    closed and the choice forgotten.  The list changes only when both
    calls succeed and the backend hands back an array; otherwise an error
    is reported.  Without a token confirming does nothing at all, and the
    dialog stays open. *)
Theorem confirmed_delete_removes_the_chosen_address
    (accessToken : option string) (ip : string) (deleted : bool)
    (reply : ListReply) (st : IPState) :
  ip <> "" ->
  let asked := handleDeleteIP ip st in
  let done := confirmDeleteIP accessToken deleted reply asked in
  isDeleteIPModalVisible asked = true
  /\ (truthyString accessToken = true ->
        isDeleteIPModalVisible done = false
        /\ ipToDelete done = None
        /\ ipCalls done
           = (ipCalls st ++ DeleteAllowedIP ip :: if deleted then [GetAllowedIPs] else [])%list
        /\ (forall updatedIPs,
              deleted = true -> reply = ListAnswers (Some updatedIPs) ->
              allowedIPs done = Some (orPlaceholder (Some updatedIPs))
              /\ notices done = (notices st ++ [SuccessNotice])%list)
        /\ (deleted = false \/ reply = ListFails \/ reply = ListAnswers None ->
            allowedIPs done = allowedIPs st
            /\ notices done = (notices st ++ [ErrorNotice])%list))
  /\ (truthyString accessToken = false -> done = asked).
Proof.
  intros Hip asked done. split; [reflexivity|].
  assert (Htruthy : truthyString (Some ip) = true).
  { simpl. by destruct (String.eqb_spec ip ""). }
  unfold done, confirmDeleteIP, asked, handleDeleteIP.
  cbn [ipToDelete setIsDeleteIPModalVisible setIPToDelete].
  rewrite Htruthy. split.
  - intros ->. cbn [truthyString negb String.eqb andb].
    split; [|split; [|split; [|split]]].
    + by destruct deleted, reply as [|[?|]].
    + by destruct deleted, reply as [|[?|]].
    + destruct deleted, reply as [|[?|]]; simpl; by rewrite <- ?app_assoc.
    + intros updatedIPs -> ->. simpl. split; reflexivity.
    + intros [-> |[-> | ->]]; [|destruct deleted..]; simpl; split; reflexivity.
  - intros ->. reflexivity.
Qed.

Lemma confirmed_delete_removes_the_chosen_address_witness :
  "10.0.0.7" <> ""
  /\ ipCalls (confirmDeleteIP (Some "sk-1") true (ListAnswers (Some []))
                (handleDeleteIP "10.0.0.7" initialIPs))
     = [DeleteAllowedIP "10.0.0.7"; GetAllowedIPs].
Proof.
  assert (Hne : "10.0.0.7" <> "") by discriminate.
  split; [exact Hne|].
  destruct (confirmed_delete_removes_the_chosen_address (Some "sk-1") "10.0.0.7" true
              (ListAnswers (Some [])) initialIPs Hne) as (_ & Hdone & _).
  destruct (Hdone eq_refl) as (_ & _ & Hcalls & _). exact Hcalls.
Defined.

End AllowedIPsFacts.

(** ** The loading flags and the progress line *)

Module LoadingTrackerFacts.

Import Js Dashboard.

Lemma allWidgets_complete (w : Widget) : w ∈ allWidgets.
Proof.
  unfold allWidgets.
  destruct w; repeat first [ apply list_elem_of_here | apply list_elem_of_further ].
Qed.

Lemma allWidgets_NoDup : NoDup allWidgets.
Proof. apply (bool_decide_unpack _). vm_compute. exact I. Qed.

(** Marking one widget in a list without repetition. *)
Lemma count_marked (w : Widget) (m : LoadingMap) (l : list Widget) :
  NoDup l ->
  length (filter (fun x => markComponentLoaded w m x = false) l)
  = (length (filter (fun x => m x = false) l)
     + if bool_decide (w ∈ l) && m w then 1 else 0)%nat.
Proof.
  induction 1 as [|x l Hx Hnd IH]; [reflexivity|].
  assert (Hmark : forall y, markComponentLoaded w m y
                            = if decide (y = w) then false else m y) by reflexivity.
  destruct (decide (x = w)) as [->|Hne].
  - rewrite filter_cons_True by (rewrite Hmark; by destruct (decide (w = w))).
    cbn [length]. rewrite IH. rewrite (bool_decide_eq_false_2 (w ∈ l)) by done.
    rewrite (bool_decide_eq_true_2 (w ∈ w :: l)) by apply list_elem_of_here.
    simpl. destruct (m w) eqn:Ew.
    + rewrite filter_cons_False by (by rewrite Ew). lia.
    + rewrite filter_cons_True by done. simpl. lia.
  - assert (Hin : bool_decide (w ∈ x :: l) = bool_decide (w ∈ l)).
    { apply bool_decide_ext. rewrite elem_of_cons.
      split; [intros [Heq|Hin]; [congruence | done] | auto]. }
    rewrite Hin. destruct (m x) eqn:Ex.
    + rewrite !filter_cons_False; [exact IH | by rewrite Ex |].
      rewrite Hmark. destruct (decide (x = w)); [done | by rewrite Ex].
    + rewrite !filter_cons_True; [simpl; by rewrite IH | done |].
      rewrite Hmark. by destruct (decide (x = w)).
Qed.

Lemma count_all_false (m : LoadingMap) (l : list Widget) :
  length (filter (fun x => m x = false) l) = length l ->
  forall x, x ∈ l -> m x = false.
Proof.
  induction l as [|y l IH]; intros Hlen x Hx; [by apply elem_of_nil in Hx|].
  pose proof (length_filter (fun x => m x = false) l) as Hle.
  destruct (m y) eqn:Ey.
  - rewrite filter_cons_False in Hlen by (by rewrite Ey). simpl in Hlen. lia.
  - rewrite filter_cons_True in Hlen by done. simpl in Hlen.
    apply elem_of_cons in Hx as [->|Hx]; [exact Ey|].
    apply IH; [lia | exact Hx].
Qed.

Lemma count_when_all_false (m : LoadingMap) (l : list Widget) :
  (forall x, x ∈ l -> m x = false) ->
  length (filter (fun x => m x = false) l) = length l.
Proof.
  induction l as [|y l IH]; intros H; [reflexivity|].
  rewrite filter_cons_True by (apply H, list_elem_of_here). simpl.
  rewrite IH; [reflexivity|]. intros x Hx. apply H, list_elem_of_further, Hx.
Qed.

(** X16: what the progress line counts.  Marking a widget raises the
    number of loaded components by one if the widget was loading and
    leaves it unchanged otherwise, so marking twice counts once; the
    number never exceeds the thirty components; and it reaches thirty,
    which is when the banner goes away, exactly when every flag is
    down. *)
Theorem progress_line_counts_each_widget_once (m : LoadingMap) (w : Widget) :
  loadedComponents (markComponentLoaded w m)
  = (loadedComponents m + if m w then 1 else 0)%nat
  /\ loadedComponents (markComponentLoaded w (markComponentLoaded w m))
     = loadedComponents (markComponentLoaded w m)
  /\ (loadedComponents m <= totalComponents)%nat
  /\ totalComponents = 30%nat
  /\ (loadedComponents m = totalComponents <-> forall x, m x = false).
Proof.
  assert (Hcount : forall m', loadedComponents (markComponentLoaded w m')
                   = (loadedComponents m' + if m' w then 1 else 0)%nat).
  { intros m'. unfold loadedComponents.
    rewrite (count_marked w m' allWidgets allWidgets_NoDup).
    by rewrite (bool_decide_eq_true_2 _ (allWidgets_complete w)). }
  split; [apply Hcount|]. split.
  - rewrite Hcount. unfold markComponentLoaded at 2.
    destruct (decide (w = w)); [lia | done].
  - split; [apply length_filter|]. split; [reflexivity|].
    unfold loadedComponents, totalComponents. split.
    + intros H x. apply (count_all_false m allWidgets H), allWidgets_complete.
    + intros H. apply count_when_all_false. auto.
Qed.

(** Settling a call only lowers flags. *)
Lemma settleTask_down outcome (t : Task) (m : LoadingMap) (w : Widget) :
  m w = false -> settleTask outcome m t w = false.
Proof.
  unfold settleTask. generalize (marks t (outcome (endpoint t))).
  intros ws. revert m. induction ws as [|x ws IH]; intros m H; [exact H|].
  simpl. apply IH. unfold markComponentLoaded. destruct (decide (w = x)); auto.
Qed.

Lemma settleTask_marks outcome (t : Task) (m : LoadingMap) (w : Widget) :
  w ∈ marks t (outcome (endpoint t)) -> settleTask outcome m t w = false.
Proof.
  unfold settleTask. generalize (marks t (outcome (endpoint t))).
  intros ws. revert m. induction ws as [|x ws IH]; intros m H;
    [by apply elem_of_nil in H|].
  simpl. destruct (decide (w = x)) as [->|Hne].
  - assert (Hx : markComponentLoaded x m x = false).
    { unfold markComponentLoaded. by destruct (decide (x = x)). }
    revert Hx. generalize (markComponentLoaded x m). clear.
    induction ws as [|y ws IH]; intros m H; [exact H|].
    simpl. apply IH. unfold markComponentLoaded. destruct (decide (x = y)); auto.
  - apply IH. apply elem_of_cons in H as [->|H]; [done | exact H].
Qed.

Lemma settle_down outcome (ts : list Task) : forall (m : LoadingMap) (w : Widget),
  m w = false -> foldl (settleTask outcome) m ts w = false.
Proof.
  induction ts as [|t ts IH]; intros m w H; [exact H|].
  simpl. apply IH, settleTask_down, H.
Qed.

Lemma settle_marks outcome (ts : list Task) : forall (m : LoadingMap) (t : Task) (w : Widget),
  t ∈ ts -> w ∈ marks t (outcome (endpoint t)) ->
  foldl (settleTask outcome) m ts w = false.
Proof.
  induction ts as [|t0 ts IH]; intros m t w Ht Hw; [by apply elem_of_nil in Ht|].
  simpl. apply elem_of_cons in Ht as [->|Ht].
  - apply settle_down, settleTask_marks, Hw.
  - by apply (IH _ t).
Qed.

Lemma count_monotone (m m' : LoadingMap) (l : list Widget) :
  (forall w, m w = false -> m' w = false) ->
  (length (filter (fun x => m x = false) l)
   <= length (filter (fun x => m' x = false) l))%nat.
Proof.
  intros H. induction l as [|x l IH]; [reflexivity|].
  destruct (m x) eqn:Ex.
  - rewrite filter_cons_False by (by rewrite Ex).
    destruct (m' x) eqn:Ex'.
    + by rewrite filter_cons_False by (by rewrite Ex').
    + rewrite filter_cons_True by done. simpl. lia.
  - rewrite !filter_cons_True by auto. simpl. lia.
Qed.

Lemma componentLoading_initlizeUsageData p response st :
  componentLoading (complete (initlizeUsageData p st) response) = componentLoading st.
Proof.
  unfold complete.
  destruct (DashboardFacts.initlizeUsageData_cases p st)
    as [[-> _] | (_ & _ & _ & _ & ->)];
    cbn [stateOf microtask answer]; [reflexivity|].
  destruct (guarded response); [by destruct response|].
  cbv zeta. destruct (forEachCatch _); cbn [connectStream componentLoading];
    rewrite DashboardFacts.foldl_launch_componentLoading; by destruct response.
Qed.

Lemma componentLoading_updateTagSpendData p startTime endTime response st :
  componentLoading (complete (updateTagSpendData p startTime endTime st) response)
  = componentLoading st.
Proof.
  unfold complete.
  destruct (DashboardFacts.updateTagSpendData_cases p startTime endTime st)
    as [-> | (_ & _ & _ & ->)];
    cbn [stateOf microtask answer]; [reflexivity|].
  by destruct (guarded response).
Qed.

(** X17: a flag that is down stays down.  Starting a fetch, running
    [initlizeUsageData] or [updateTagSpendData] again and settling the
    calls never raise a flag: a widget counted as loaded stays counted
    while the page is mounted, and the number on the progress line never
    goes down.  When the calls settle, every widget that the handlers of
    a settled call mark is down, on success and on failure alike. *)
Theorem loading_flags_only_go_down
    (p : Props) (response : option ProxySettings) (startTime endTime : option Z)
    (outcome : Endpoint -> CallOutcome) (st : PageState) (w : Widget) :
  componentLoading st w = false ->
  componentLoading (complete (initlizeUsageData p st) response) w = false
  /\ componentLoading
       (complete (updateTagSpendData p startTime endTime st) response) w = false
  /\ componentLoading (settleAll outcome st) w = false
  /\ (loadedComponents (componentLoading st)
      <= loadedComponents (componentLoading (settleAll outcome st)))%nat
  /\ (forall t w', t ∈ awaiting st -> w' ∈ marks t (outcome (endpoint t)) ->
        componentLoading (settleAll outcome st) w' = false).
Proof.
  intros Hdown. split; [|split; [|split; [|split]]].
  - by rewrite componentLoading_initlizeUsageData.
  - by rewrite componentLoading_updateTagSpendData.
  - simpl. by apply settle_down.
  - unfold loadedComponents. apply count_monotone. intros x Hx. simpl.
    by apply settle_down.
  - intros t w' Ht Hw. simpl. by apply (settle_marks _ _ _ t).
Qed.

Lemma loading_flags_only_go_down_witness :
  componentLoading
    (settleAll (fun _ => Failed)
       (mount adminProps (Some 0) (Some 1)
              (Some unguardedSettings) (Some unguardedSettings)
              TagSettingsFirst)) topKeys = false
  /\ componentLoading
       (settleAll (fun _ => Resolved)
          (settleAll (fun _ => Failed)
             (mount adminProps (Some 0) (Some 1)
                    (Some unguardedSettings) (Some unguardedSettings)
                    TagSettingsFirst))) topKeys = false.
Proof.
  assert (H : componentLoading
    (settleAll (fun _ => Failed)
       (mount adminProps (Some 0) (Some 1)
              (Some unguardedSettings) (Some unguardedSettings)
              TagSettingsFirst)) topKeys = false)
    by reflexivity.
  split; [exact H|].
  destruct (loading_flags_only_go_down adminProps None None None (fun _ => Resolved)
              _ topKeys H) as (_ & _ & Hsettled & _).
  exact Hsettled.
Defined.

End LoadingTrackerFacts.

(** ** The filler on its own results and on empty intervals *)

Module FillerExtras.

Import Js JsDate DateRangeFiller FillerFacts.

(** X18: an interval that ends before it starts gives no entry.  When
    [endDate] is earlier than [startDate] the loop does not run: the
    result is the empty list in every time zone and with any step
    budget, provided that the dates of the rows normalize; the map of
    the rows is built first, so a row whose date makes the helper throw
    makes the call throw even then. *)
Theorem fillMissingDates_of_an_empty_interval
    (h : Host) (rows : list Obj) (startDate endDate : Z)
    (categories : list string) (fuel : nat) :
  endDate < startDate ->
  (wellFormed h rows ->
   fillMissingDates h fuel rows startDate endDate categories = Returns [])
  /\ (forall e, existingDates h rows = Throws e ->
        fillMissingDates h fuel rows startDate endDate categories = Throws e).
Proof.
  intros Hlt. split.
  - intros Hwf. destruct (existingDates_wellFormed h rows Hwf) as (existing & He & _).
    unfold fillMissingDates. rewrite He. simpl.
    destruct fuel; simpl; destruct (Z.leb_spec startDate endDate); try lia; reflexivity.
  - intros e He. unfold fillMissingDates. by rewrite He.
Qed.

Lemma fillMissingDates_of_an_empty_interval_witness :
  0 < msPerDay
  /\ fillMissingDates londonHost 0 [[("date", VStr "Mar 30")]] msPerDay 0 ["gpt-4"]
     = Returns []
  /\ fillMissingDates londonHost 0 [[("date", VStr "soon")]] msPerDay 0 ["gpt-4"]
     = Throws RangeError.
Proof.
  assert (Hlt : 0 < msPerDay) by reflexivity.
  split; [exact Hlt|].
  destruct (fillMissingDates_of_an_empty_interval londonHost [[("date", VStr "Mar 30")]]
              msPerDay 0 ["gpt-4"] 0 Hlt) as [Hempty _].
  destruct (fillMissingDates_of_an_empty_interval londonHost [[("date", VStr "soon")]]
              msPerDay 0 ["gpt-4"] 0 Hlt) as [_ Hthrows].
  split.
  - apply Hempty. repeat constructor. exists "2025-03-30".
    exists "Mar 30". split; reflexivity.
  - apply Hthrows. reflexivity.
Defined.

(** An ISO date has a hyphen in it. *)
Lemma includes_app_cons (l : list ascii) (c : ascii) (k : list ascii) :
  Str.includes (string_of_list_ascii (l ++ c :: k)) c = true.
Proof.
  induction l as [|x l IH]; simpl.
  - by rewrite Ascii.eqb_refl.
  - rewrite IH. apply orb_true_r.
Qed.

Lemma isoDateOfDay_hyphen (day : Z) : Str.includes (isoDateOfDay day) "-" = true.
Proof.
  unfold isoDateOfDay. destruct (civilFromDays day) as [[y m] d].
  apply includes_app_cons.
Qed.

Lemma standardizeDate_iso (h : Host) (day : Z) :
  standardizeDate h (isoDateOfDay day) = Returns (isoDateOfDay day).
Proof. unfold standardizeDate. by rewrite isoDateOfDay_hyphen. Qed.

Lemma getOwn_getProp_date (o : Obj) (v : Value) :
  getProp o "date" = v -> v <> VUndefined -> getOwn o "date" = Some v.
Proof.
  unfold getProp. destruct (getOwn o "date"); [by intros -> | simpl; by intros <-].
Qed.

Lemma setProp_same (o : Obj) (k : string) (v : Value) :
  getOwn o k = Some v -> setProp o k v = o.
Proof.
  intros H. unfold setProp. rewrite H. revert H.
  induction o as [|[k' v'] o IH]; [discriminate|].
  simpl. destruct (String.eqb_spec k' k) as [->|Hne].
  - by intros [= ->].
  - intros H. by rewrite IH.
Qed.

(** Rows that are already one per day, in order, come back with their
    dates normalized. *)
Lemma rows_of_every_day_come_back
    (h : Host) (rows : list Obj) (startDate endDate : Z)
    (categories : list string) (fuel : nat) :
  clocksUnchanged h startDate endDate ->
  validTime startDate -> validTime endDate ->
  startDate <= endDate ->
  Forall2 (fun item i => normalizedDate h item (dayOfInterval startDate i))
          rows (seq 0 (dayCount startDate endDate)) ->
  (dayCount startDate endDate <= fuel)%nat ->
  exists filledData,
    fillMissingDates h fuel rows startDate endDate categories = Returns filledData
    /\ length filledData = length rows
    /\ forall i item, rows !! i = Some item ->
         filledData !! i = Some (setProp item "date" (VStr (dayOfInterval startDate i))).
Proof.
  intros Hh Hvs Hve Hle Hdense Hfuel.
  assert (Hwf : wellFormed h rows).
  { clear -Hdense. induction Hdense; constructor; eauto. }
  destruct (fillMissingDates_spec h rows startDate endDate categories fuel Hh Hle Hwf Hfuel)
    as (filledData & Hfill & Hlen & Hentries & _ & _).
  pose proof (days_between_nonneg _ _ Hle) as Hnn.
  assert (Hn : length filledData = dayCount startDate endDate)
    by (unfold dayCount; lia).
  pose proof (Forall2_length _ _ _ Hdense) as Hrows. rewrite length_seq in Hrows.
  exists filledData. split; [exact Hfill|]. split; [lia|].
  intros i item Hitem.
  assert (Hi : (i < length filledData)%nat) by (apply lookup_lt_Some in Hitem; lia).
  assert (Hday : forall j x, rows !! j = Some x ->
            normalizedDate h x (dayOfInterval startDate j)).
  { intros j x Hx.
    assert (Hj : (j < dayCount startDate endDate)%nat)
      by (apply lookup_lt_Some in Hx; lia).
    eapply Forall2_lookup_lr in Hdense; [exact Hdense | exact Hx |].
    by rewrite lookup_seq_lt. }
  assert (Hl : lastRowOf h rows (dayOfInterval startDate i) item).
  { exists (take i rows), (drop (S i) rows).
    split; [symmetry; by apply take_drop_middle|].
    split; [by apply Hday|].
    apply Forall_lookup_2. intros k x Hx Hnorm.
    rewrite lookup_drop in Hx.
    pose proof (Hday _ _ Hx) as Hk.
    assert (Heq : dayOfInterval startDate (S i + k) = dayOfInterval startDate i)
      by eauto using normalizedDate_fun.
    assert (Hk' : (S i + k < dayCount startDate endDate)%nat)
      by (apply lookup_lt_Some in Hx; lia).
    apply (dayOfInterval_inj startDate endDate) in Heq; auto; lia. }
  destruct (Hentries i Hi) as (entry' & Hlook & _ & _ & [(item' & Hitem' & ->) | (Hno & _)]).
  - by rewrite <- (lastRowOf_unique _ _ _ _ _ Hl Hitem') in Hlook.
  - exfalso. eauto using lastRowOf_not_noRowOf.
Qed.

(** X19: filling what was filled changes nothing.  Where the clocks do not
    change from the start of the interval until a day after its end, the
    result of [fillMissingDates] over an interval, given back to it with
    the same interval, is returned as it is, whatever categories are
    asked for the second time: the entries it found and the entries it
    made up are all kept, none is added and none is zeroed again. *)
Theorem filling_twice_changes_nothing
    (h : Host) (rows : list Obj) (startDate endDate : Z)
    (categories again : list string) (fuel : nat) (filledData : list Obj) :
  clocksUnchanged h startDate endDate ->
  validTime startDate -> validTime endDate ->
  startDate <= endDate ->
  wellFormed h rows ->
  (dayCount startDate endDate <= fuel)%nat ->
  fillMissingDates h fuel rows startDate endDate categories = Returns filledData ->
  fillMissingDates h fuel filledData startDate endDate again = Returns filledData.
Proof.
  intros Hh Hvs Hve Hle Hwf Hfuel Hfirst.
  destruct (fillMissingDates_spec h rows startDate endDate categories fuel Hh Hle Hwf Hfuel)
    as (filled' & Hfill & Hlen & Hentries & _ & _).
  assert (filled' = filledData) by congruence. subst filled'.
  pose proof (days_between_nonneg _ _ Hle) as Hnn.
  assert (Hn : length filledData = dayCount startDate endDate)
    by (unfold dayCount; lia).
  assert (Hdate : forall i entry, filledData !! i = Some entry ->
            getOwn entry "date" = Some (VStr (dayOfInterval startDate i))).
  { intros i entry Hi.
    destruct (Hentries i (lookup_lt_Some _ _ _ Hi)) as (entry' & Hi' & Hd & _).
    assert (entry' = entry) by congruence. subst entry'.
    by apply getOwn_getProp_date. }
  assert (Hnorm : forall i entry, filledData !! i = Some entry ->
            normalizedDate h entry (dayOfInterval startDate i)).
  { intros i entry Hi. exists (dayOfInterval startDate i). split.
    - unfold itemDate, getProp. by rewrite (Hdate i entry Hi).
    - rewrite dayOfInterval_Day. apply standardizeDate_iso. }
  assert (Hdense : Forall2 (fun item i => normalizedDate h item (dayOfInterval startDate i))
                     filledData (seq 0 (dayCount startDate endDate))).
  { apply Forall2_same_length_lookup_2; [by rewrite length_seq|].
    intros i entry j Hi Hj.
    apply lookup_seq in Hj as [-> _]. by apply Hnorm. }
  destruct (rows_of_every_day_come_back h filledData startDate endDate again fuel
              Hh Hvs Hve Hle Hdense Hfuel) as (twice & Htwice & Hlen2 & Hsame).
  rewrite Htwice. f_equal. apply list_eq_same_length with (length filledData); auto.
  intros i x y Hi Hx Hy.
  rewrite (Hsame i y Hy) in Hx. injection Hx as <-.
  apply setProp_same. by apply Hdate.
Qed.

Lemma filling_twice_changes_nothing_witness :
  fillMissingDates (utcHost 2024) 3
    [ [("date", VStr "1970-01-01"); ("api_requests", zero); ("total_tokens", zero);
       ("gpt-4", zero)];
      [("date", VStr "1970-01-02"); ("api_requests", num 5)];
      [("date", VStr "1970-01-03"); ("api_requests", zero); ("total_tokens", zero);
       ("gpt-4", zero)] ]
    0 (2 * msPerDay) ["claude"]
  = Returns
    [ [("date", VStr "1970-01-01"); ("api_requests", zero); ("total_tokens", zero);
       ("gpt-4", zero)];
      [("date", VStr "1970-01-02"); ("api_requests", num 5)];
      [("date", VStr "1970-01-03"); ("api_requests", zero); ("total_tokens", zero);
       ("gpt-4", zero)] ].
Proof.
  apply (filling_twice_changes_nothing (utcHost 2024)
           [[("date", VStr "1970-01-02"); ("api_requests", num 5)]]
           0 (2 * msPerDay) ["gpt-4"] ["claude"] 3).
  - exists 0. intros t _. split; reflexivity.
  - unfold validTime, maxTime. lia.
  - unfold validTime, maxTime, msPerDay. lia.
  - unfold msPerDay. lia.
  - repeat constructor. exists "1970-01-02".
    exists "1970-01-02". split; reflexivity.
  - vm_compute. lia.
  - vm_compute. reflexivity.
Defined.

End FillerExtras.

(** ** The current month: the range asked of the backend and the days of
    the charts *)

Module MonthRangeFacts.

Import Js JsDate DateRangeFiller MonthRange Calendar CalendarMonths FillerFacts.

Lemma atOffset_fixed (h : Host) (offset : Z) : atOffset h offset -> fixedOffset h.
Proof. intros H. by exists offset. Qed.

Lemma localDate_month (h : Host) (now y m d : Z) :
  localDate h now = (y, m, d) -> 1 <= m <= 12.
Proof.
  unfold localDate. intros H.
  pose proof (civilFromDays_spec (Day (LocalTime h now))) as Hs.
  rewrite H in Hs. tauto.
Qed.

Lemma getFullYear_localDate (h : Host) (now y m d : Z) :
  localDate h now = (y, m, d) ->
  getFullYear h now = y /\ getMonth h now = m - 1.
Proof. unfold localDate, getFullYear, getMonth. by intros ->. Qed.

Lemma MakeDay_month (y m dt : Z) :
  1 <= m <= 12 -> MakeDay y (m - 1) dt = daysFromCivil y m 1 + dt - 1.
Proof.
  intros Hm. unfold MakeDay.
  rewrite (Z.div_small (m - 1) 12), (Z.mod_small (m - 1) 12) by lia.
  by replace (y + 0) with y by lia; replace (m - 1 + 1) with m by lia.
Qed.

Lemma MakeDay_next_month (y m : Z) :
  1 <= m <= 12 -> MakeDay y m 0 = daysFromCivil y m 1 + daysInMonth y m - 1.
Proof.
  intros Hm. unfold MakeDay. rewrite <- month_length by exact Hm.
  unfold nextMonth. destruct (Z.eqb_spec m 12) as [->|Hne]; cbn [fst snd].
  - change (12 / 12) with 1. change (12 mod 12) with 0. change (0 + 1) with 1. lia.
  - rewrite (Z.div_small m 12), (Z.mod_small m 12) by lia.
    replace (y + 0) with y by lia. lia.
Qed.

(** The instant of the local midnight that starts the day [day], and the
    dates it has. *)
Lemma Day_local_midnight (day offset : Z) :
  Day (day * msPerDay - offset + offset) = day.
Proof.
  unfold Day. replace (day * msPerDay - offset + offset) with (day * msPerDay) by lia.
  apply Z.div_mul. unfold msPerDay. lia.
Qed.

Lemma Day_utc_of_local_midnight (day offset : Z) :
  - msPerDay < offset < msPerDay ->
  Day (day * msPerDay - offset) = day - daysBehind offset.
Proof.
  intros Hoff. unfold Day, daysBehind, msPerDay in *.
  destruct (Z.ltb_spec 0 offset).
  - symmetry. apply Z.div_unique with (r := 86400000 - offset); lia.
  - symmetry. apply Z.div_unique with (r := - offset); lia.
Qed.

Lemma newDateLocal_month (h : Host) (offset y m dt : Z) :
  atOffset h offset -> ~ (0 <= y <= 99) -> 1 <= m <= 12 ->
  newDateLocal h y (Some (m - 1)) (Some dt)
  = TimeClip ((daysFromCivil y m 1 + dt - 1) * msPerDay - offset).
Proof.
  intros Hoff Hy Hm. unfold newDateLocal, UTC. rewrite Hoff.
  assert (Hlegacy : ((0 <=? y)%Z && (y <=? 99)%Z) = false).
  { destruct (Z.leb_spec 0 y), (Z.leb_spec y 99); simpl; auto. lia. }
  rewrite Hlegacy. by rewrite MakeDay_month.
Qed.

Lemma newDateLocal_last (h : Host) (offset y m : Z) :
  atOffset h offset -> ~ (0 <= y <= 99) -> 1 <= m <= 12 ->
  newDateLocal h y (Some m) (Some 0)
  = TimeClip ((daysFromCivil y m 1 + daysInMonth y m - 1) * msPerDay - offset).
Proof.
  intros Hoff Hy Hm. unfold newDateLocal, UTC. rewrite Hoff.
  assert (Hlegacy : ((0 <=? y)%Z && (y <=? 99)%Z) = false).
  { destruct (Z.leb_spec 0 y), (Z.leb_spec y 99); simpl; auto. lia. }
  rewrite Hlegacy. by rewrite MakeDay_next_month.
Qed.

Lemma TimeClip_Some (t t' : Z) : TimeClip t = Some t' -> t' = t /\ validTime t.
Proof.
  unfold TimeClip, validTime. destruct (Z.leb_spec (Z.abs t) maxTime); [|discriminate].
  intros [= <-]. split; [reflexivity | lia].
Qed.

Lemma TimeClip_valid (t : Z) : validTime t -> TimeClip t = Some t.
Proof.
  unfold TimeClip, validTime. intros H.
  destruct (Z.leb_spec (Z.abs t) maxTime); [reflexivity | lia].
Qed.

(** The two ends of the month. *)
Lemma month_ends (h : Host) (offset now y m d first last : Z) :
  atOffset h offset -> localDate h now = (y, m, d) -> ~ (0 <= y <= 99) ->
  firstDay h now = Some first -> lastDay h now = Some last ->
  first = daysFromCivil y m 1 * msPerDay - offset
  /\ last = (daysFromCivil y m 1 + daysInMonth y m - 1) * msPerDay - offset
  /\ validTime first /\ validTime last.
Proof.
  intros Hoff Hnow Hy Hfirst Hlast.
  pose proof (localDate_month _ _ _ _ _ Hnow) as Hm.
  destruct (getFullYear_localDate _ _ _ _ _ Hnow) as [Hyear Hmonth].
  unfold firstDay, lastDay in *. rewrite Hyear, Hmonth in *.
  rewrite (newDateLocal_month h offset) in Hfirst by auto.
  replace (m - 1 + 1) with m in Hlast by lia.
  rewrite (newDateLocal_last h offset) in Hlast by auto.
  apply TimeClip_Some in Hfirst as [-> Hv1]. apply TimeClip_Some in Hlast as [-> Hv2].
  replace (daysFromCivil y m 1 + 1 - 1) with (daysFromCivil y m 1) in * by lia.
  auto.
Qed.

(** What [numberToString] and [padTwo] print. *)
Lemma padTwo_1 : padTwo 1 = "01".
Proof. reflexivity. Qed.

Lemma padTwo_large (n : Z) : 10 <= n -> padTwo n = numberToString n.
Proof. intros H. unfold padTwo. by destruct (Z.ltb_spec n 10); [lia|]. Qed.

Lemma formatDate_local_midnight (h : Host) (offset y m d : Z) :
  atOffset h offset -> 1 <= m <= 12 -> 1 <= d <= daysInMonth y m ->
  formatDate h ((daysFromCivil y m 1 + d - 1) * msPerDay - offset)
  = numberToString y ++ "-" ++ padTwo m ++ "-" ++ padTwo d.
Proof.
  intros Hoff Hm Hd. unfold formatDate, getFullYear, getMonth, getDate, LocalTime.
  rewrite Hoff, Day_local_midnight, <- daysFromCivil_day.
  rewrite civilFromDays_daysFromCivil by auto.
  by replace (m - 1 + 1) with m by lia.
Qed.

(** X20: the range asked of the backend is the local month.  In a zone at
    a constant offset from UTC, [startTime] is the first day of the month
    of [now] on the local calendar, written [YYYY-MM-01] with the year
    unpadded, and [endTime] is its last day, the 28th to the 31st
    according to the month and to the leap years. *)
Theorem request_range_is_the_local_month
    (h : Host) (offset now y m d first last : Z) :
  atOffset h offset ->
  localDate h now = (y, m, d) -> ~ (0 <= y <= 99) ->
  firstDay h now = Some first -> lastDay h now = Some last ->
  startTime h now = Some (numberToString y ++ "-" ++ padTwo m ++ "-01")
  /\ endTime h now
     = Some (numberToString y ++ "-" ++ padTwo m ++ "-"
             ++ numberToString (daysInMonth y m))
  /\ 28 <= daysInMonth y m <= 31.
Proof.
  intros Hoff Hnow Hy Hfirst Hlast.
  pose proof (localDate_month _ _ _ _ _ Hnow) as Hm.
  pose proof (daysInMonth_bounds y m) as Hlen.
  destruct (month_ends h offset now y m d first last Hoff Hnow Hy Hfirst Hlast)
    as (-> & -> & _ & _).
  unfold startTime, endTime. rewrite Hfirst, Hlast.
  cbn [fmap option_fmap option_map].
  split; [|split; [|exact Hlen]].
  - replace (daysFromCivil y m 1) with (daysFromCivil y m 1 + 1 - 1) by lia.
    rewrite (formatDate_local_midnight h offset y m 1 Hoff Hm) by lia.
    by rewrite padTwo_1.
  - rewrite (formatDate_local_midnight h offset y m (daysInMonth y m) Hoff Hm) by lia.
    by rewrite (padTwo_large (daysInMonth y m)) by lia.
Qed.

Lemma request_range_is_the_local_month_witness :
  atOffset (utcHost 2024) 0
  /\ localDate (utcHost 2024) 1709208000000 = (2024, 2, 29)
  /\ ~ (0 <= 2024 <= 99)
  /\ firstDay (utcHost 2024) 1709208000000 = Some 1706745600000
  /\ lastDay (utcHost 2024) 1709208000000 = Some 1709164800000
  /\ startTime (utcHost 2024) 1709208000000 = Some "2024-02-01"
  /\ endTime (utcHost 2024) 1709208000000 = Some "2024-02-29".
Proof.
  assert (Hoff : atOffset (utcHost 2024) 0) by (intros t b; reflexivity).
  assert (Hnow : localDate (utcHost 2024) 1709208000000 = (2024, 2, 29))
    by (vm_compute; reflexivity).
  assert (Hy : ~ (0 <= 2024 <= 99)) by lia.
  assert (Hfirst : firstDay (utcHost 2024) 1709208000000 = Some 1706745600000)
    by (vm_compute; reflexivity).
  assert (Hlast : lastDay (utcHost 2024) 1709208000000 = Some 1709164800000)
    by (vm_compute; reflexivity).
  destruct (request_range_is_the_local_month (utcHost 2024) 0 1709208000000
              2024 2 29 1706745600000 1709164800000 Hoff Hnow Hy Hfirst Hlast)
    as (Hstart & Hend & _).
  repeat split; auto; lia.
Defined.

Lemma getDate_local_midnight (h : Host) (offset y m d : Z) :
  atOffset h offset -> 1 <= m <= 12 -> 1 <= d <= daysInMonth y m ->
  getDate h ((daysFromCivil y m 1 + d - 1) * msPerDay - offset) = d.
Proof.
  intros Hoff Hm Hd. unfold getDate, LocalTime.
  rewrite Hoff, Day_local_midnight, <- daysFromCivil_day.
  by rewrite civilFromDays_daysFromCivil.
Qed.

Lemma days_between_month (D offset len : Z) :
  1 <= len ->
  days_between (D * msPerDay - offset) ((D + len - 1) * msPerDay - offset) = len - 1.
Proof.
  intros Hlen. unfold days_between.
  replace ((D + len - 1) * msPerDay - offset - (D * msPerDay - offset))
    with ((len - 1) * msPerDay) by lia.
  apply Z.div_mul. unfold msPerDay. lia.
Qed.

(** X21: the days of the activity charts are UTC dates.  In a zone at a
    constant offset from UTC, the series that [fetchGlobalActivity] and
    [fetchGlobalActivityPerModel] make for the current month has one
    entry for each day of the local month, but the entry of the local day
    [i + 1] is dated with the UTC date of its midnight: the day itself
    when the zone is on or behind UTC, the day before when it is ahead.
    In a zone ahead of UTC the series thus starts on the eve of the
    month. *)
Theorem activity_chart_days_are_utc_dates
    (h : Host) (offset now y m d first last : Z)
    (daily_data : list Obj) (fuel : nat) :
  atOffset h offset -> - msPerDay < offset < msPerDay ->
  localDate h now = (y, m, d) -> ~ (0 <= y <= 99) ->
  firstDay h now = Some first -> lastDay h now = Some last ->
  wellFormed h daily_data ->
  (31 <= fuel)%nat ->
  exists filledDailyData',
    filledDailyData h fuel now daily_data = Returns filledDailyData'
    /\ Z.of_nat (length filledDailyData') = daysInMonth y m
    /\ forall i entry,
         filledDailyData' !! i = Some entry ->
         getProp entry "date"
         = VStr (isoDateOfDay (daysFromCivil y m (Z.of_nat i + 1) - daysBehind offset)).
Proof.
  intros Hoff Hsmall Hnow Hy Hfirst Hlast Hwf Hfuel.
  pose proof (localDate_month _ _ _ _ _ Hnow) as Hm.
  pose proof (daysInMonth_bounds y m) as Hlen.
  destruct (month_ends h offset now y m d first last Hoff Hnow Hy Hfirst Hlast)
    as (Hf & Hl & _ & _).
  unfold filledDailyData. rewrite Hfirst, Hlast.
  assert (Hdb : days_between first last = daysInMonth y m - 1).
  { rewrite Hf, Hl. apply days_between_month. lia. }
  assert (Hle : first <= last) by (unfold msPerDay in *; nia).
  assert (Hfuel' : (dayCount first last <= fuel)%nat).
  { unfold dayCount. rewrite Hdb. lia. }
  destruct (fillMissingDates_spec h daily_data first last
              ["api_requests"; "total_tokens"] fuel
              (fixedOffset_keepsOffset h first last (atOffset_fixed h offset Hoff))
              Hle Hwf Hfuel')
    as (filled & Hrun & Hcount & Hentries & _).
  exists filled. split; [exact Hrun|]. split; [lia|].
  intros i entry Hi.
  destruct (Hentries i (lookup_lt_Some _ _ _ Hi)) as (entry' & Hi' & Hdate & Hday & _).
  assert (entry' = entry) by congruence. subst entry'.
  rewrite Hdate, Hday. do 2 f_equal.
  rewrite Hf, Day_utc_of_local_midnight by exact Hsmall.
  rewrite (daysFromCivil_day y m (Z.of_nat i + 1)). lia.
Qed.

Lemma activity_chart_days_are_utc_dates_witness :
  exists filledDailyData' entry,
    filledDailyData (zoneHost 2025 3600000) 31 1742040000000 [] = Returns filledDailyData'
    /\ Z.of_nat (length filledDailyData') = 31
    /\ filledDailyData' !! 0%nat = Some entry
    /\ getProp entry "date" = VStr "2025-02-28".
Proof.
  assert (Hoff : atOffset (zoneHost 2025 3600000) 3600000) by (intros t b; reflexivity).
  assert (Hsmall : - msPerDay < 3600000 < msPerDay) by (unfold msPerDay; lia).
  assert (Hnow : localDate (zoneHost 2025 3600000) 1742040000000 = (2025, 3, 15))
    by (vm_compute; reflexivity).
  assert (Hy : ~ (0 <= 2025 <= 99)) by lia.
  assert (Hfirst : firstDay (zoneHost 2025 3600000) 1742040000000 = Some 1740783600000)
    by (vm_compute; reflexivity).
  assert (Hlast : lastDay (zoneHost 2025 3600000) 1742040000000 = Some 1743375600000)
    by (vm_compute; reflexivity).
  destruct (activity_chart_days_are_utc_dates (zoneHost 2025 3600000) 3600000
              1742040000000 2025 3 15 1740783600000 1743375600000 [] 31
              Hoff Hsmall Hnow Hy Hfirst Hlast (Forall_nil_2 _) (le_n 31))
    as (filled & Hrun & Hcount & Hdates).
  destruct filled as [|entry rest]; [discriminate|].
  exists (entry :: rest), entry.
  split; [exact Hrun|]. split; [exact Hcount|]. split; [reflexivity|].
  exact (Hdates 0%nat entry eq_refl).
Defined.

Lemma mapM_Returns {A B} (f : A -> Completion B) (g : A -> B) (l : list A) :
  (forall x, x ∈ l -> f x = Returns (g x)) -> mapM f l = Returns (map g l).
Proof.
  induction l as [|x l IH]; intros H; [reflexivity|].
  simpl. rewrite (H x) by apply list_elem_of_here. simpl.
  rewrite IH by (intros z Hz; apply H, list_elem_of_further, Hz). reflexivity.
Qed.

(** X22: so are the days of the spend chart.  In a zone at a constant
    offset from UTC, the chart that [fetchOverallSpend] draws has one bar
    for each day of the local month, as many as the month has days; the
    bar of the local day [i + 1] is dated with the UTC date of its
    midnight, which in a zone ahead of UTC is the day before. *)
Theorem spend_chart_days_are_utc_dates
    (h : Host) (offset now y m d first last : Z) :
  atOffset h offset -> - msPerDay < offset < msPerDay ->
  localDate h now = (y, m, d) -> ~ (0 <= y <= 99) ->
  firstDay h now = Some first -> lastDay h now = Some last ->
  exists dates,
    chartDates h now = Returns dates
    /\ Z.of_nat (length dates) = daysInMonth y m
    /\ forall i date,
         dates !! i = Some date ->
         date = isoDateOfDay (daysFromCivil y m (Z.of_nat i + 1) - daysBehind offset).
Proof.
  intros Hoff Hsmall Hnow Hy Hfirst Hlast.
  pose proof (localDate_month _ _ _ _ _ Hnow) as Hm.
  pose proof (daysInMonth_bounds y m) as Hlen.
  destruct (month_ends h offset now y m d first last Hoff Hnow Hy Hfirst Hlast)
    as (Hf & Hl & Hvf & Hvl).
  destruct (getFullYear_localDate _ _ _ _ _ Hnow) as [Hyear Hmonth].
  set (date := fun i : nat =>
         isoDateOfDay (daysFromCivil y m (Z.of_nat i + 1) - daysBehind offset)).
  assert (Hn : getDate h last = daysInMonth y m).
  { rewrite Hl. apply (getDate_local_midnight h offset y m); auto. lia. }
  assert (Hrun : chartDates h now
                 = Returns (map date (seq 0 (Z.to_nat (daysInMonth y m))))).
  { unfold chartDates. rewrite Hlast, Hn. apply mapM_Returns.
    intros i Hi. apply elem_of_seq in Hi.
    unfold chartDate. rewrite Hyear, Hmonth.
    rewrite (newDateLocal_month h offset) by auto.
    rewrite TimeClip_valid.
    - unfold toISODate, date.
      rewrite Day_utc_of_local_midnight by exact Hsmall.
      rewrite (daysFromCivil_day y m (Z.of_nat i + 1)). do 2 f_equal; lia.
    - unfold validTime, msPerDay in *. subst first last. nia. }
  exists (map date (seq 0 (Z.to_nat (daysInMonth y m)))).
  split; [exact Hrun|]. split.
  - rewrite length_map, length_seq. lia.
  - intros i s Hi. rewrite list_lookup_fmap in Hi.
    destruct (seq 0 (Z.to_nat (daysInMonth y m)) !! i) as [j|] eqn:Ej; [|discriminate].
    apply lookup_seq in Ej as [-> _]. simpl in Hi. by injection Hi as <-.
Qed.

Lemma spend_chart_days_are_utc_dates_witness :
  exists dates,
    chartDates (zoneHost 2025 3600000) 1742040000000 = Returns dates
    /\ Z.of_nat (length dates) = 31
    /\ dates !! 0%nat = Some "2025-02-28".
Proof.
  assert (Hoff : atOffset (zoneHost 2025 3600000) 3600000) by (intros t b; reflexivity).
  assert (Hsmall : - msPerDay < 3600000 < msPerDay) by (unfold msPerDay; lia).
  assert (Hnow : localDate (zoneHost 2025 3600000) 1742040000000 = (2025, 3, 15))
    by (vm_compute; reflexivity).
  assert (Hy : ~ (0 <= 2025 <= 99)) by lia.
  assert (Hfirst : firstDay (zoneHost 2025 3600000) 1742040000000 = Some 1740783600000)
    by (vm_compute; reflexivity).
  assert (Hlast : lastDay (zoneHost 2025 3600000) 1742040000000 = Some 1743375600000)
    by (vm_compute; reflexivity).
  destruct (spend_chart_days_are_utc_dates (zoneHost 2025 3600000) 3600000
              1742040000000 2025 3 15 1740783600000 1743375600000
              Hoff Hsmall Hnow Hy Hfirst Hlast)
    as (dates & Hrun & Hcount & Hdates).
  destruct dates as [|date rest]; [discriminate|].
  exists (date :: rest).
  split; [exact Hrun|]. split; [exact Hcount|].
  simpl. f_equal. exact (Hdates 0%nat date eq_refl).
Defined.

End MonthRangeFacts.
